(** * stacker: squashfs layer generation

    A shallow embedding of the [squashfs] package of anuvu/stacker
    (exclude/include path algebra, whiteout encoding, layer generation and
    extraction) and of [doGrab] of cmd/grab.go, together with the properties
    stated about them.

    Go strings are byte strings, modelled as [string]; the exclude map
    [map[string]bool] is a [gmap string bool]; the operating system, the mtree
    library, the archiver and the content store are explicit parameters. *)

From stdpp Require Import gmap strings list fin_maps.
From Stdlib Require Import Ascii NArith.

(** ** The Go standard library functions the package calls *)

Module GoStrings.

Definition slash : ascii := "/"%char.

(** [strings.HasPrefix(s, prefix)] *)
Fixpoint HasPrefix (s prefix : string) {struct prefix} : bool :=
  match prefix with
  | EmptyString => true
  | String c prefix' =>
      match s with
      | EmptyString => false
      | String d s' => if decide (c = d) then HasPrefix s' prefix' else false
      end
  end.

(** [strings.IndexByte(s, c) >= 0], which is what [strings.ContainsRune]
    computes for a one-byte rune. *)
Fixpoint ContainsByte (s : string) (c : ascii) : bool :=
  match s with
  | EmptyString => false
  | String d s' => if decide (d = c) then true else ContainsByte s' c
  end.

(** [strings.LastIndexByte(s, c)]: the index of the last [c], or -1. *)
Fixpoint LastIndexByte (s : string) (c : ascii) : Z :=
  match s with
  | EmptyString => (-1)%Z
  | String d s' =>
      let r := LastIndexByte s' c in
      if (0 <=? r)%Z then (r + 1)%Z
      else if decide (d = c) then 0%Z else (-1)%Z
  end.

(** The slices [s[:n]] and [s[n:]]. *)
Fixpoint take (n : nat) (s : string) : string :=
  match n, s with
  | S n', String c s' => String c (take n' s')
  | _, _ => EmptyString
  end.

Fixpoint drop (n : nat) (s : string) : string :=
  match n, s with
  | S n', String _ s' => drop n' s'
  | _, _ => s
  end.

(** [strings.Split(s, sep)] for a one-byte separator. *)
Fixpoint SplitByte (sep : ascii) (s : string) : list string :=
  match s with
  | EmptyString => [EmptyString]
  | String c s' =>
      if decide (c = sep) then EmptyString :: SplitByte sep s'
      else match SplitByte sep s' with
           | [] => [String c EmptyString]
           | h :: t => String c h :: t
           end
  end.

(** [strings.Join(elems, "/")] *)
Fixpoint JoinSlash (elems : list string) : string :=
  match elems with
  | [] => EmptyString
  | [e] => e
  | e :: rest => e +:+ String slash (JoinSlash rest)
  end.

(** [strings.Replace(s, old, new, n)] for a one-byte [old] and [n >= 0]. *)
Fixpoint ReplaceByte (s : string) (old : ascii) (new : string) (n : nat)
  : string :=
  match n, s with
  | S n', String c s' =>
      if decide (c = old) then new +:+ ReplaceByte s' old new n'
      else String c (ReplaceByte s' old new n)
  | _, _ => s
  end.

End GoStrings.

Module GoPath.
Import GoStrings.

(** [path.IsAbs] *)
Definition IsAbs (p : string) : bool := HasPrefix p "/".

(** One element of the scan of [path.Clean]; [out] holds the elements
    written so far, last one first.  In a relative path the leading [..]
    elements cannot be backtracked over. *)
Definition clean_step (rooted : bool) (out : list string) (e : string)
  : list string :=
  if decide (e = "") then out
  else if decide (e = ".") then out
  else if decide (e = "..") then
    match out with
    | top :: below =>
        if decide (top = "..") then (if rooted then out else ".." :: out)
        else below
    | [] => if rooted then [] else [".."]
    end
  else e :: out.

(** [path.Clean]: the shortest path equivalent to [p] by lexical
    processing. *)
Definition Clean (p : string) : string :=
  if decide (p = "") then "."
  else
    let rooted := IsAbs p in
    let out := fold_left (clean_step rooted) (SplitByte slash p) [] in
    if rooted then String slash (JoinSlash (rev out))
    else match out with
         | [] => "."
         | _ => JoinSlash (rev out)
         end.

(** [path.Split]: the path up to and including the final slash, and the
    rest. *)
Definition Split (p : string) : string * string :=
  let i := Z.to_nat (LastIndexByte p slash + 1) in
  (take i p, drop i p).

(** [path.Dir] *)
Definition Dir (p : string) : string := Clean (fst (Split p)).

(** Strips the trailing slashes, as the first loop of [path.Base] does. *)
Fixpoint strip_trailing_slashes (p : string) : string :=
  match p with
  | EmptyString => EmptyString
  | String c p' =>
      match strip_trailing_slashes p' with
      | EmptyString => if decide (c = slash) then EmptyString
                       else String c EmptyString
      | r => String c r
      end
  end.

(** [path.Base] *)
Definition Base (p : string) : string :=
  if decide (p = "") then "."
  else
    let p1 := strip_trailing_slashes p in
    let p2 := snd (Split p1) in
    if decide (p2 = "") then "/" else p2.

(** [path.Join]: the non-empty elements joined by slashes and cleaned; the
    empty string when every element is empty. *)
Fixpoint drop_empty (elem : list string) : list string :=
  match elem with
  | [] => []
  | e :: rest => if decide (e = "") then drop_empty rest else elem
  end.

Definition Join (elem : list string) : string :=
  match drop_empty elem with
  | [] => ""
  | es => Clean (JoinSlash es)
  end.

End GoPath.

Import GoStrings GoPath.

(** ** ExcludePaths *)

Record ExcludePaths := mkExcludePaths {
  exclude : gmap string bool;
  include : list string;
}.

Definition NewExcludePaths : ExcludePaths :=
  {| exclude := ∅; include := [] |}.

(** [AddExclude]: returns early, leaving the receiver as it is, as soon as an
    included path starts with [p]. *)
Definition AddExclude (eps : ExcludePaths) (p : string) : ExcludePaths :=
  if existsb (fun inc => HasPrefix inc p) (include eps) then eps
  else {| exclude := <[p := true]> (exclude eps); include := include eps |}.

(** The loop of [AddInclude]: delete [p] and its parents from the exclude map
    until [p] is the root.  The loop need not end (it does not on a relative
    path), so the model counts iterations; [None] is an exhausted count. *)
Fixpoint delete_parents (fuel : nat) (p : string) (ex : gmap string bool)
  : option (gmap string bool) :=
  if decide (p = "/") then Some ex
  else match fuel with
       | O => None
       | S fuel' => delete_parents fuel' (Dir p) (delete p ex)
       end.

Definition AddInclude (fuel : nat) (eps : ExcludePaths) (orig : string)
    (isDir : bool) : option ExcludePaths :=
  let p := if isDir then orig else Dir orig in
  ex ← delete_parents fuel p (exclude eps);
  Some {| exclude := ex; include := include eps ++ [orig] |}.

(** [String] writes the keys of the exclude map, each followed by a newline,
    then one more newline.  Go ranges over a map in an unspecified order:
    [render_keys] is the text for one order of the keys, and [String_returns]
    holds of every text the method can return.  Writing to a [bytes.Buffer]
    returns a nil error, so the error result is always nil. *)
Definition newline : string := String "010"%char EmptyString.

Fixpoint render_keys (keys : list string) : string :=
  match keys with
  | [] => newline
  | p :: rest => p +:+ newline +:+ render_keys rest
  end.

Definition String_returns (eps : ExcludePaths) (text : string) : Prop :=
  ∃ keys, keys ≡ₚ (map_to_list (exclude eps)).*1 ∧ text = render_keys keys.


(** ** Paths and the directory hierarchy *)

(** The paths of the specification: absolute and normalized. *)
Definition is_path (p : string) : bool :=
  IsAbs p && bool_decide (Clean p = p).

Fixpoint ends_with_slash (p : string) : bool :=
  match p with
  | EmptyString => false
  | String c EmptyString => bool_decide (c = slash)
  | String _ p' => ends_with_slash p'
  end.

(** [p] as a directory: [p] followed by a slash (the root already ends in
    one). *)
Definition as_dir (p : string) : string :=
  if ends_with_slash p then p else p +:+ "/".

(** [q] lies strictly below the directory [p]. *)
Definition strict_ancestor (p q : string) : bool :=
  negb (bool_decide (p = q)) && HasPrefix q (as_dir p).

(** [p] is a prefix of [q] in the directory hierarchy: [q] is [p] or lies
    below it. *)
Definition dir_prefix (p q : string) : bool :=
  bool_decide (p = q) || HasPrefix q (as_dir p).

(** ** Sequences of calls on an ExcludePaths *)

Inductive Call :=
| add_exclude (p : string)
| add_include (orig : string) (is_dir : bool).

Definition call_path (c : Call) : string :=
  match c with
  | add_exclude p => p
  | add_include orig _ => orig
  end.

Definition apply_call (fuel : nat) (eps : ExcludePaths) (c : Call)
  : option ExcludePaths :=
  match c with
  | add_exclude p => Some (AddExclude eps p)
  | add_include orig is_dir => AddInclude fuel eps orig is_dir
  end.

Fixpoint run (fuel : nat) (calls : list Call) (eps : ExcludePaths)
  : option ExcludePaths :=
  match calls with
  | [] => Some eps
  | c :: rest => eps' ← apply_call fuel eps c; run fuel rest eps'
  end.

(** The paths handed to [add_include], in call order. *)
Fixpoint included (calls : list Call) : list string :=
  match calls with
  | [] => []
  | add_include orig _ :: rest => orig :: included rest
  | add_exclude _ :: rest => included rest
  end.

(** Iterations that suffice for every call of the sequence. *)
Definition calls_fuel (calls : list Call) : nat :=
  foldr (fun c n => max (String.length (call_path c)) n) 0 calls.

(** Path elements: non-empty, without a slash, and neither [.] nor [..]. *)
Definition noslash (e : string) : Prop := ContainsByte e slash = false.

Definition proper (e : string) : Prop :=
  e ≠ "" ∧ e ≠ "." ∧ e ≠ ".." ∧ noslash e.

(** The absolute path with the given elements. *)
Definition render (elems : list string) : string :=
  String slash (JoinSlash elems).

(** Elements [path.Clean] drops. *)
Definition skipped (e : string) : Prop := e = "" ∨ e = ".".

(** The directory part of the root: [render rs] is the slash followed by
    the join of these elements. *)
Definition root_elems (rs : list string) : list string :=
  match rs with
  | [] => [""]
  | _ => rs
  end.

(** ** Errors *)

Definition Errno := N.
Definition EPERM : Errno := 1%N.
Definition ENOENT : Errno := 2%N.
Definition ENXIO : Errno := 6%N.
Definition EACCES : Errno := 13%N.
Definition EEXIST : Errno := 17%N.
Definition ENOTDIR : Errno := 20%N.
Definition EISDIR : Errno := 21%N.
Definition ENOTEMPTY : Errno := 39%N.
Definition EOPNOTSUPP : Errno := 95%N.

(** Go error values: a [syscall.Errno] (what [unix.Mknod] returns), an
    [*os.PathError], an error wrapped by [errors.Wrap]/[errors.Wrapf], one
    made by [errors.Errorf], and an error of a library outside the package. *)
Inductive error :=
| SyscallError (e : Errno)
| PathError (op path : string) (e : Errno)
| Wrapped (cause : error) (msg : string)
| Errorf (msg : string)
| LibraryError (msg : string).

(** [os.IsNotExist]: looks through a [PathError], not through a wrapped
    error. *)
Definition IsNotExist (err : error) : bool :=
  match err with
  | SyscallError e | PathError _ _ e => bool_decide (e = ENOENT)
  | _ => false
  end.

(** The comparison [err == e] of an error with a [syscall.Errno]. *)
Definition is_errno (err : error) (e : Errno) : bool :=
  match err with
  | SyscallError e' => bool_decide (e' = e)
  | _ => false
  end.

(** What a call returns: a value, an error, a panic, or nothing when it does
    not end within the iteration count. *)
Inductive result (A : Type) :=
| Ok (a : A)
| Err (e : error)
| Panic (msg : string)
| Diverge.
Arguments Ok {A} a.
Arguments Err {A} e.
Arguments Panic {A} msg.
Arguments Diverge {A}.

(** ** The world the package acts on *)

Inductive Node :=
| RegularFile (content : string)
| Directory
| CharDevice (major minor : N)
| OtherNode (mode dev : N).

(** The system calls and commands issued, with their results. *)
Inductive Event :=
| EvMknod (path : string) (mode dev : N) (res : option Errno)
| EvCreate (path : string) (res : option Errno)
| EvRemove (path : string) (res : option Errno)
| EvTempFile (dir pattern : string) (res : Errno + string)
| EvWriteString (path text : string) (res : option Errno)
| EvMkdirAll (path : string) (res : option Errno)
| EvExec (argv : list string) (res : option error)
| EvWriteFile (path text : string).

(** [ispec.Descriptor], [casext.DescriptorPath] and [umoci.Meta]. *)
Record Descriptor := mkDescriptor {
  MediaType : string;
  Digest : string;
  Size : Z;
}.

Record DescriptorPath := mkDescriptorPath { Walk : list Descriptor }.

Record Meta := mkMeta {
  Version : string;
  From : DescriptorPath;
}.

(** [DescriptorPath.Descriptor]: the last descriptor of the walk; indexing
    an empty walk panics. *)
Definition DescriptorPath_Descriptor (d : DescriptorPath) : option Descriptor :=
  last (Walk d).

Record World := mkWorld {
  files : gmap string Node;        (* the file system, by host path *)
  metas : gmap string Meta;        (* the persisted bundle meta, by bundle *)
  store : list (string * Node);    (* blobs added to the content store *)
  PATH : string;                   (* the environment variable *)
  executable : gset string;        (* paths that pass access(X_OK) *)
  log : list Event;
}.

Definition set_files (fs : gmap string Node) (w : World) : World :=
  {| files := fs; metas := metas w; store := store w; PATH := PATH w;
     executable := executable w; log := log w |}.

Definition set_metas (ms : gmap string Meta) (w : World) : World :=
  {| files := files w; metas := ms; store := store w; PATH := PATH w;
     executable := executable w; log := log w |}.

Definition set_store (s : list (string * Node)) (w : World) : World :=
  {| files := files w; metas := metas w; store := s; PATH := PATH w;
     executable := executable w; log := log w |}.

Definition log_event (ev : Event) (w : World) : World :=
  {| files := files w; metas := metas w; store := store w; PATH := PATH w;
     executable := executable w; log := log w ++ [ev] |}.

(** [mtree.DifferenceType] and the part of an [mtree.InodeDelta] the package
    reads.  [Old()] is set for Missing and Modified, [New()] for Extra and
    Modified, so the package never dereferences a nil entry. *)
Inductive DifferenceType := Missing | Extra | Modified | Same | ErrorDifference.

Record InodeDelta := mkInodeDelta {
  Type_ : DifferenceType;
  Path : string;
  Old_IsDir : bool;
  New_IsDir : bool;
}.

(** What the package cannot decide itself: the kernel's verdict on each
    system call, the order in which Go ranges over a map, the external
    commands, the go-mtree and umoci libraries and the content store. *)
Record Deps := mkDeps {
  mknod_errno : World → string → option Errno;
  create_errno : World → string → option Errno;
  remove_errno : World → string → option Errno;
  mkdir_errno : World → string → option Errno;
  open_errno : World → string → option Errno;
  write_errno : World → string → string → option Errno;
  tempfile_name : World → string → string → Errno + string;
  exec_result : World → list string → error + gmap string Node;
  map_order : gmap string bool → list string;
  map_order_perm : ∀ m, map_order m ≡ₚ (map_to_list m).*1;
  Spec : Type;
  DirectoryHierarchy : Type;
  ParseSpec : Node → error + Spec;
  mtree_Walk : World → string → error + DirectoryHierarchy;
  CompareSame : Spec → DirectoryHierarchy → error + list InodeDelta;
  FilterDeltas : list InodeDelta → list InodeDelta;
  manifest_result : World → string → string → error + string;
  write_meta_error : World → string → Meta → option error;
  add_blob_result : World → string → Node → error + Descriptor;
}.

(** ** System calls *)

Definition S_IFMT : N := 61440%N.
Definition S_IFCHR : N := 8192%N.
Definition S_IFREG : N := 32768%N.

(** [unix.Mkdev], [unix.Major] and [unix.Minor] (Linux). *)
Definition Mkdev (major minor : N) : N :=
  N.lor (N.lor (N.lor (N.shiftl (N.land major 4095) 8)
                      (N.shiftl (N.land major 4294963200) 32))
               (N.land minor 255))
        (N.shiftl (N.land minor 4294967040) 12).

Definition Major (dev : N) : N :=
  N.lor (N.shiftr (N.land dev 1048320) 8)
        (N.land (N.shiftr (N.land dev 18446726481523507200) 32) 4294967295).

Definition Minor (dev : N) : N :=
  N.lor (N.land dev 255)
        (N.land (N.shiftr (N.land dev 17592184995840) 12) 4294967295).

(** The node [mknod(2)] makes for a mode and a device number. *)
Definition mknod_node (mode dev : N) : Node :=
  if decide (N.land mode S_IFMT = S_IFCHR)
  then CharDevice (Major dev) (Minor dev)
  else if decide (N.land mode S_IFMT = S_IFREG ∨ N.land mode S_IFMT = 0%N)
  then RegularFile ""
  else OtherNode mode dev.

(** [unix.Mknod]: fails with EEXIST on an existing path; otherwise the
    kernel decides, and success makes the node. *)
Definition unix_Mknod (E : Deps) (p : string) (mode dev : N) (w : World)
  : option Errno * World :=
  let res := match files w !! p with
             | Some _ => Some EEXIST
             | None => mknod_errno E w p
             end in
  let w1 := match res with
            | None => set_files (<[p := mknod_node mode dev]> (files w)) w
            | Some _ => w
            end in
  (res, log_event (EvMknod p mode dev res) w1).

(** [os.Create]: open with O_RDWR|O_CREATE|O_TRUNC.  A directory cannot be
    opened for writing; success on a device node opens the device and leaves
    the node; otherwise success leaves an empty regular file. *)
Definition os_Create (E : Deps) (p : string) (w : World)
  : option error * World :=
  let res := match files w !! p with
             | Some Directory => Some EISDIR
             | _ => create_errno E w p
             end in
  let w1 := match res, files w !! p with
            | None, Some (CharDevice _ _) | None, Some (OtherNode _ _) => w
            | None, _ => set_files (<[p := RegularFile ""]> (files w)) w
            | Some _, _ => w
            end in
  (PathError "open" p <$> res, log_event (EvCreate p res) w1).

(** A directory with an entry below it. *)
Definition has_children (fs : gmap string Node) (p : string) : bool :=
  existsb (fun q => strict_ancestor p q) (map_to_list fs).*1.

(** [os.Remove]: removes a file or an empty directory. *)
Definition os_Remove (E : Deps) (p : string) (w : World)
  : option error * World :=
  let res := match files w !! p with
             | None => Some ENOENT
             | Some Directory =>
                 if has_children (files w) p then Some ENOTEMPTY
                 else remove_errno E w p
             | Some _ => remove_errno E w p
             end in
  let w1 := match res with
            | None => set_files (delete p (files w)) w
            | Some _ => w
            end in
  (PathError "remove" p <$> res, log_event (EvRemove p res) w1).

(** [os.Open]; the handle is the node opened. *)
Definition os_Open (E : Deps) (p : string) (w : World) : error + Node :=
  match files w !! p with
  | None => inl (PathError "open" p ENOENT)
  | Some n => match open_errno E w p with
              | Some e => inl (PathError "open" p e)
              | None => inr n
              end
  end.

(** [ioutil.TempFile]: a new, empty file with a name of the kernel's
    choosing. *)
Definition TempFile (E : Deps) (dir pattern : string) (w : World)
  : (error + string) * World :=
  let res := match tempfile_name E w dir pattern with
             | inl e => inl e
             | inr name => match files w !! name with
                           | Some _ => inl EEXIST
                           | None => inr name
                           end
             end in
  let w1 := match res with
            | inr name => set_files (<[name := RegularFile ""]> (files w)) w
            | inl _ => w
            end in
  (match res with
   | inl e => inl (PathError "open" (Join [dir; pattern]) e)
   | inr name => inr name
   end, log_event (EvTempFile dir pattern res) w1).

(** [File.WriteString] on a file just created. *)
Definition WriteString (E : Deps) (name text : string) (w : World)
  : option error * World :=
  let res := write_errno E w name text in
  let w1 := match res with
            | None => set_files (<[name := RegularFile text]> (files w)) w
            | Some _ => w
            end in
  (PathError "write" name <$> res, log_event (EvWriteString name text res) w1).

(** The parent [os.MkdirAll] makes first: the path up to the slash before
    its last element, trailing slashes skipped.  There is none when that
    slash is the first byte of the path or the path holds no slash (the test
    [j > 1]). *)
Definition mkdir_parent (p : string) : option string :=
  let j := (LastIndexByte (strip_trailing_slashes p) slash + 1)%Z in
  if decide (1 < j)%Z then Some (take (Z.to_nat (j - 1)) p) else None.

(** [os.MkdirAll]: a path that is a directory is left alone, and one that
    is something else fails with ENOTDIR; otherwise the parent is made
    first, by the same function, then the path itself by [Mkdir].  A failure
    is returned with the path it occurred at, the requested one or an
    ancestor, and the directories made before it stay.  The parent is a
    shorter string, so the length of the path bounds the recursion.  After
    a failed [Mkdir] the function looks the path up once more; it was absent
    and only shorter paths were made since, so the error stands. *)
Fixpoint mkdir_all (E : Deps) (w : World) (fuel : nat) (p : string)
    (fs : gmap string Node) : option (string * Errno) * gmap string Node :=
  match fs !! p with
  | Some Directory => (None, fs)
  | Some _ => (Some (p, ENOTDIR), fs)
  | None =>
      let '(failed, fs') :=
        match mkdir_parent p, fuel with
        | Some parent, S fuel' => mkdir_all E w fuel' parent fs
        | _, _ => (None, fs)
        end in
      match failed with
      | Some f => (Some f, fs')
      | None => match mkdir_errno E w p with
                | Some e => (Some (p, e), fs')
                | None => (None, <[p := Directory]> fs')
                end
      end
  end.

(** [os.MkdirAll(p, 0755)].  The [executable] set is kept as it was: the
    directories made are not entered in it. *)
Definition MkdirAll (E : Deps) (p : string) (w : World)
  : option error * World :=
  match mkdir_all E w (String.length p) p (files w) with
  | (Some (failed, e), fs) =>
      (Some (PathError "mkdir" failed e),
       log_event (EvMkdirAll p (Some e)) (set_files fs w))
  | (None, fs) => (None, log_event (EvMkdirAll p None) (set_files fs w))
  end.

(** [exec.Command(argv...).Run()] *)
Definition Exec (E : Deps) (argv : list string) (w : World)
  : option error * World :=
  match exec_result E w argv with
  | inl e => (Some e, log_event (EvExec argv (Some e)) w)
  | inr fs => (None, log_event (EvExec argv None) (set_files fs w))
  end.

(** [unix.Access(path, unix.X_OK) == nil] *)
Definition Access_X_OK (w : World) (p : string) : bool :=
  bool_decide (p ∈ executable w).

(** ** umoci and the content store *)

(** [umoci.ReadBundleMeta] *)
Definition ReadBundleMeta (bundlepath : string) (w : World) : error + Meta :=
  match metas w !! bundlepath with
  | Some m => inr m
  | None => inl (PathError "open" (Join [bundlepath; "umoci.json"]) ENOENT)
  end.

(** [umoci.WriteBundleMeta] *)
Definition WriteBundleMeta (E : Deps) (bundlepath : string) (m : Meta)
    (w : World) : option error * World :=
  match write_meta_error E w bundlepath m with
  | Some e => (Some e, w)
  | None => (None, set_metas (<[bundlepath := m]> (metas w)) w)
  end.

(** [umoci.GenerateBundleManifest(mtreeName, bundlePath, fsEval)], of the
    umoci library: writes a manifest of the bundle's rootfs to the file
    [mtreeName.mtree] at the bundle root.  The library appends the suffix
    [.mtree] to the name it is given; this is how the manifest umoci wrote
    when the bundle was unpacked comes to be the file
    [mtreeName + ".mtree"] that [GenerateSquashfsLayer] opens first. *)
Definition GenerateBundleManifest (E : Deps) (mtreeName bundlepath : string)
    (w : World) : option error * World :=
  match manifest_result E w mtreeName bundlepath with
  | inl e => (Some e, w)
  | inr text =>
      (None,
       log_event (EvWriteFile (Join [bundlepath; mtreeName +:+ ".mtree"]) text)
         (set_files
            (<[Join [bundlepath; mtreeName +:+ ".mtree"] := RegularFile text]>
               (files w)) w))
  end.

(** Modelled from the spec: [stackeroci.AddBlobNoCompression] is not among
    the sources; by the specification it streams the blob into the content
    store and returns its descriptor. *)
Definition AddBlobNoCompression (E : Deps) (name : string) (blob : Node)
    (w : World) : (error + Descriptor) * World :=
  match add_blob_result E w name blob with
  | inl e => (inl e, w)
  | inr desc => (inr desc, set_store (store w ++ [(name, blob)]) w)
  end.

(** ** MakeSquashfs *)

(** [ExcludePaths.String] in the order Go ranges over the map. *)
Definition ExcludePaths_String (E : Deps) (eps : ExcludePaths) : string :=
  render_keys (map_order E (exclude eps)).

(** The rest of [MakeSquashfs] once the exclude list is written:
    [excludesFile] is its name and [deferred] the removal deferred for it. *)
Definition MakeSquashfs_image (E : Deps) (tempdir rootfs toExclude
    excludesFile : string) (deferred : World → World) (w : World)
  : (error + Node) * World :=
  match TempFile E tempdir "stacker-squashfs-img-" w with
  | (inl e, w1) => (inl e, deferred w1)
  | (inr tmpSquashfs, w1) =>
      let w2 := (os_Remove E tmpSquashfs w1).2 in
      let args := [rootfs; tmpSquashfs]
                  ++ (if decide (String.length toExclude ≠ 0)
                      then ["-ef"; excludesFile] else []) in
      match Exec E ("mksquashfs" :: args) w2 with
      | (Some err, w3) =>
          (inl (Wrapped err "couldn't build squashfs"),
           deferred (os_Remove E tmpSquashfs w3).2)
      | (None, w3) =>
          (os_Open E tmpSquashfs w3, deferred (os_Remove E tmpSquashfs w3).2)
      end
  end.

(** [MakeSquashfs]; a nil [eps] is [None]. *)
Definition MakeSquashfs (E : Deps) (tempdir rootfs : string)
    (eps : option ExcludePaths) (w : World) : (error + Node) * World :=
  let toExclude := match eps with
                   | Some eps => ExcludePaths_String E eps
                   | None => ""
                   end in
  if decide (String.length toExclude ≠ 0) then
    match TempFile E tempdir "stacker-squashfs-exclude-" w with
    | (inl e, w1) => (inl e, w1)
    | (inr excludes, w1) =>
        match WriteString E excludes toExclude w1 with
        | (Some e, w2) => (inl e, (os_Remove E excludes w2).2)
        | (None, w2) =>
            MakeSquashfs_image E tempdir rootfs toExclude excludes
              (fun w => (os_Remove E excludes w).2) w2
        end
    end
  else MakeSquashfs_image E tempdir rootfs toExclude "" (fun w => w) w.

(** ** GenerateSquashfsLayer *)

(** The variables of the loop over the diffs. *)
Record LoopState := mkLoopState {
  paths : ExcludePaths;
  missing : list string;
  needsLayer : bool;
}.

(** The sidecar whiteout of the entry at the rootfs-relative path [dpath]. *)
Definition whiteout_path (rootfsPath dpath : string) : string :=
  Join [rootfsPath; Dir dpath; ".wh." +:+ Base dpath].

(** The body of the loop for one diff.  The state is returned on every
    path, since the deferred cleanup reads [missing] as the error return
    left it. *)
Definition diff_step (E : Deps) (fuel : nat) (rootfsPath : string)
    (d : InodeDelta) (st : LoopState) (w : World)
  : result unit * LoopState * World :=
  match Type_ d with
  | Modified | Extra =>
      let p := Join [rootfsPath; Path d] in
      match AddInclude fuel (paths st) p (New_IsDir d) with
      | None => (Diverge, mkLoopState (paths st) (missing st) true, w)
      | Some eps => (Ok (), mkLoopState eps (missing st) true, w)
      end
  | Missing =>
      let p := Join [rootfsPath; Path d] in
      let missing' := missing st ++ [p] in
      match AddInclude fuel (paths st) p (Old_IsDir d) with
      | None => (Diverge, mkLoopState (paths st) missing' true, w)
      | Some eps =>
          let st' := mkLoopState eps missing' true in
          match unix_Mknod E p S_IFCHR (Mkdev 0 0) w with
          | (None, w1) => (Ok (), st', w1)
          | (Some errno, w1) =>
              let err := SyscallError errno in
              if negb (IsNotExist err) && negb (is_errno err ENOTDIR) then
                let whPath := whiteout_path rootfsPath (Path d) in
                match os_Create E whPath w1 with
                | (Some err, w2) =>
                    (Err (Wrapped err
                            ("couldn't mknod whiteout for " +:+ Path d)),
                     st', w2)
                | (None, w2) => (Ok (), st', w2)
                end
              else (Ok (), st', w1)
          end
      end
  | Same =>
      (Ok (),
       mkLoopState (AddExclude (paths st) (Join [rootfsPath; Path d]))
         (missing st) (needsLayer st),
       w)
  | ErrorDifference => (Ok (), st, w)
  end.

Fixpoint diff_loop (E : Deps) (fuel : nat) (rootfsPath : string)
    (diffs : list InodeDelta) (st : LoopState) (w : World)
  : result unit * LoopState * World :=
  match diffs with
  | [] => (Ok (), st, w)
  | d :: rest =>
      match diff_step E fuel rootfsPath d st w with
      | (Ok _, st', w') => diff_loop E fuel rootfsPath rest st' w'
      | stopped => stopped
      end
  end.

(** The deferred function: remove every path of [missing]. *)
Definition remove_missing (E : Deps) (missing : list string) (w : World)
  : World :=
  fold_left (fun w f => (os_Remove E f w).2) missing w.

(** The manifest file name of a digest. *)
Definition mtree_name (digest : string) : string :=
  ReplaceByte digest ":"%char "_" 1.

(** What [GenerateSquashfsLayer] computes before the loop: the bundle meta,
    the path of the prior manifest, the rootfs path and the filtered diffs. *)
Definition read_diffs (E : Deps) (bundlepath : string) (w : World)
  : result (Meta * string * string * list InodeDelta) :=
  match ReadBundleMeta bundlepath w with
  | inl e => Err e
  | inr meta =>
      match DescriptorPath_Descriptor (From meta) with
      | None => Panic "index out of range"
      | Some desc =>
          let mtreeName := mtree_name (Digest desc) in
          let mtreePath := Join [bundlepath; mtreeName +:+ ".mtree"] in
          match os_Open E mtreePath w with
          | inl e => Err (Wrapped e "opening mtree")
          | inr mfh =>
              match ParseSpec E mfh with
              | inl e => Err e
              | inr spec =>
                  let rootfsPath := Join [bundlepath; "rootfs"] in
                  match mtree_Walk E w rootfsPath with
                  | inl e =>
                      Err (Wrapped e ("couldn't mtree walk " +:+ rootfsPath))
                  | inr newDH =>
                      match CompareSame E spec newDH with
                      | inl e => Err e
                      | inr diffs =>
                          Ok (meta, mtreePath, rootfsPath,
                              FilterDeltas E diffs)
                      end
                  end
              end
          end
      end
  end.

(** What follows the loop when a layer is needed. *)
Definition write_layer (E : Deps) (name bundlepath ocidir : string)
    (meta : Meta) (mtreePath rootfsPath : string) (eps : ExcludePaths)
    (w : World) : result unit * World :=
  match MakeSquashfs E ocidir rootfsPath (Some eps) w with
  | (inl e, w1) => (Err e, w1)
  | (inr tmpSquashfs, w1) =>
      match AddBlobNoCompression E name tmpSquashfs w1 with
      | (inl e, w2) => (Err e, w2)
      | (inr desc, w2) =>
          let newName := mtree_name (Digest desc) +:+ ".mtree" in
          match GenerateBundleManifest E newName bundlepath w2 with
          | (Some e, w3) => (Err e, w3)
          | (None, w3) =>
              let w4 := (os_Remove E mtreePath w3).2 in
              let meta' := mkMeta (Version meta) (mkDescriptorPath [desc]) in
              match WriteBundleMeta E bundlepath meta' w4 with
              | (Some e, w5) => (Err e, w5)
              | (None, w5) => (Ok (), w5)
              end
          end
      end
  end.

(** The deferred function removes the paths of [missing] when the call
    returns, with success or with an error.  When the loop of [AddInclude]
    does not end the call does not return, and the deferred function never
    runs: the world is left as the loop had it. *)
Definition GenerateSquashfsLayer (E : Deps) (fuel : nat)
    (name author bundlepath ocidir : string) (w : World)
  : result unit * World :=
  match read_diffs E bundlepath w with
  | Err e => (Err e, w)
  | Panic msg => (Panic msg, w)
  | Diverge => (Diverge, w)
  | Ok (meta, mtreePath, rootfsPath, diffs) =>
      let '(looped, st, w1) :=
        diff_loop E fuel rootfsPath diffs
          (mkLoopState NewExcludePaths [] false) w in
      match looped with
      | Diverge => (Diverge, w1)
      | Ok _ =>
          let '(res, w2) :=
            if negb (needsLayer st) then (Ok (), w1)
            else write_layer E name bundlepath ocidir meta mtreePath
                   rootfsPath (paths st) w1 in
          (res, remove_missing E (missing st) w2)
      | stopped => (stopped, remove_missing E (missing st) w1)
      end
  end.

(** ** ExtractSingleSquash *)

Fixpoint first_executable (w : World) (search : list string) : string :=
  match search with
  | [] => ""
  | fPath :: rest =>
      if Access_X_OK w fPath then fPath else first_executable w rest
  end.

Definition whichSearch (w : World) (name : string) (paths : list string)
  : string :=
  let search :=
    if ContainsByte name slash then
      if IsAbs name then [name] else ["./" +:+ name]
    else map (fun p => Join [p; name]) paths in
  first_executable w search.

Definition which (w : World) (name : string) : string :=
  whichSearch w name (SplitByte ":"%char (PATH w)).

Definition squashtool_missing : string :=
  "must have squashtool (https://github.com/anuvu/squashfs) to correctly extract squashfs using btrfs storage backend".

Definition ExtractSingleSquash (E : Deps)
    (squashFile extractDir storageType : string) (w : World)
  : option error * World :=
  match MkdirAll E extractDir w with
  | (Some err, w1) => (Some err, w1)
  | (None, w1) =>
      if decide (storageType = "btrfs") then
        if decide (which w1 "squashtool" = "") then
          (Some (Errorf squashtool_missing), w1)
        else
          Exec E (["squashtool"; "extract"; "--whiteouts"; "--perms";
                   "--devs"; "--sockets"; "--owners"]
                  ++ [squashFile; extractDir]) w1
      else Exec E ["unsquashfs"; "-f"; "-d"; extractDir; squashFile] w1
  end.

(** [strings.Contains] *)
Fixpoint Contains (s substr : string) : bool :=
  HasPrefix s substr
  || match s with
     | EmptyString => false
     | String _ s' => Contains s' substr
     end.

(** [strings.HasSuffix] *)
Fixpoint HasSuffix (s suffix : string) : bool :=
  bool_decide (s = suffix)
  || match s with
     | EmptyString => false
     | String _ s' => HasSuffix s' suffix
     end.

(** The paths the loop records for removal: those of the Missing diffs. *)
Fixpoint missing_paths (rootfsPath : string) (diffs : list InodeDelta)
  : list string :=
  match diffs with
  | [] => []
  | d :: rest =>
      match Type_ d with
      | Missing => Join [rootfsPath; Path d] :: missing_paths rootfsPath rest
      | _ => missing_paths rootfsPath rest
      end
  end.

(** A diff that makes a layer necessary. *)
Definition changes (d : InodeDelta) : bool :=
  match Type_ d with
  | Modified | Extra | Missing => true
  | Same | ErrorDifference => false
  end.

(** ** An example bundle and environment

    The bundle [/b] was unpacked from a descriptor with digest
    [sha256:aaaa].  The environment answers [diffs] for the comparison and
    [mknod_res] for every [mknod] of a free path; every other call
    succeeds. *)
Definition example_descriptor : Descriptor :=
  mkDescriptor "application/vnd.oci.image.manifest.v1+json" "sha256:aaaa" 4.

Definition example_layer : Descriptor :=
  mkDescriptor "application/vnd.stacker.image.layer.squashfs" "sha256:bbbb" 4.

Definition example_world : World :=
  {| files := {[ "/b/sha256_aaaa.mtree" := RegularFile "#mtree v2.0";
                 "/b/rootfs" := Directory;
                 "/b/rootfs/etc" := Directory;
                 "/b/rootfs/etc/passwd" := RegularFile "root:x:0:0" ]};
     metas := {[ "/b" := mkMeta "2" (mkDescriptorPath [example_descriptor]) ]};
     store := [];
     PATH := "/usr/bin:/bin";
     executable := {[ "/usr/bin/mksquashfs"; "/usr/bin/unsquashfs" ]};
     log := [] |}.

Definition example_deps (diffs : list InodeDelta) (mknod_res : option Errno)
  : Deps :=
  {| mknod_errno := fun _ _ => mknod_res;
     create_errno := fun _ _ => None;
     remove_errno := fun _ _ => None;
     mkdir_errno := fun _ _ => None;
     open_errno := fun _ _ => None;
     write_errno := fun _ _ _ => None;
     tempfile_name := fun _ dir pattern => inr (Join [dir; pattern +:+ "1"]);
     exec_result := fun w argv =>
       match argv with
       | _ :: _ :: out :: _ => inr (<[out := RegularFile "hsqs"]> (files w))
       | _ => inr (files w)
       end;
     map_order := fun m => (map_to_list m).*1;
     map_order_perm := fun m => reflexivity _;
     Spec := Node;
     DirectoryHierarchy := unit;
     ParseSpec := fun n => inr n;
     mtree_Walk := fun _ _ => inr ();
     CompareSame := fun _ _ => inr diffs;
     FilterDeltas := fun ds => ds;
     manifest_result := fun _ _ _ => inr "#mtree v2.0";
     write_meta_error := fun _ _ _ => None;
     add_blob_result := fun _ _ _ => inr example_layer |}.

(** Diffs of the example: an unchanged directory, a changed file below it
    and a deleted file. *)
Definition same_etc : InodeDelta := mkInodeDelta Same "etc" true true.
Definition modified_passwd : InodeDelta :=
  mkInodeDelta Modified "etc/passwd" false false.
Definition missing_hosts : InodeDelta :=
  mkInodeDelta Missing "etc/hosts" false false.

(** States of the example's loop: before the first diff, after [same_etc],
    and after [missing_hosts] has been included. *)
Definition example_start : LoopState := mkLoopState NewExcludePaths [] false.

Definition etc_excluded : ExcludePaths :=
  {| exclude := {[ "/b/rootfs/etc" := true ]}; include := [] |}.

Definition hosts_included : ExcludePaths :=
  {| exclude := ∅; include := ["/b/rootfs/etc/hosts"] |}.

(** The example environment on a file system without device nodes. *)
Definition example_unsupported : Deps :=
  example_deps [same_etc; missing_hosts] (Some EOPNOTSUPP).

(** The example environment for an unprivileged and a privileged user. *)
Definition example_unprivileged : Deps :=
  example_deps [missing_hosts] (Some EPERM).

Definition example_privileged : Deps :=
  example_deps [same_etc; missing_hosts] None.

(** ** Whiteouts in the world *)

(** Nothing the loop does removes a node or replaces a device node, and
    the log only grows. *)
Definition world_grows (w w' : World) : Prop :=
  (∀ p major minor, files w !! p = Some (CharDevice major minor) →
                    files w' !! p = Some (CharDevice major minor))
  ∧ (∀ p, is_Some (files w !! p) → is_Some (files w' !! p))
  ∧ (∀ ev, ev ∈ log w → ev ∈ log w').

(** Where a Missing diff leaves its whiteout when its step goes on. *)
Definition whiteout_placed (rootfsPath : string) (d : InodeDelta) (w : World)
  : Prop :=
  files w !! Join [rootfsPath; Path d] = Some (CharDevice 0 0)
  ∨ is_Some (files w !! whiteout_path rootfsPath (Path d))
  ∨ ∃ e, (e = ENOENT ∨ e = ENOTDIR)
         ∧ EvMknod (Join [rootfsPath; Path d]) S_IFCHR (Mkdev 0 0) (Some e)
           ∈ log w.

(** ** The invariants the specification states for ExcludePaths *)

(** (I1): no excluded path is a prefix, in the directory hierarchy, of an
    included path. *)
Definition subtree_safe (eps : ExcludePaths) : Prop :=
  ∀ e i, is_Some (exclude eps !! e) → i ∈ include eps →
         dir_prefix e i = false.

(** (I2): no included path is a strict ancestor directory of another
    included path. *)
Definition include_minimal (eps : ExcludePaths) : Prop :=
  ∀ p q, p ∈ include eps → q ∈ include eps → strict_ancestor p q = false.

(** What holds of a state reached by the calls [done]: the include list is
    the list of included paths, every stored path is a path, and an excluded
    path lies on or above an included one only when it is the root or the
    included path itself, included as a non-directory. *)
Definition reached (done : list Call) (eps : ExcludePaths) : Prop :=
  include eps = included done
  ∧ (∀ e, is_Some (exclude eps !! e) → is_path e = true)
  ∧ (∀ i, i ∈ include eps → is_path i = true)
  ∧ (∀ e i, is_Some (exclude eps !! e) → i ∈ include eps →
            dir_prefix e i = true →
            e = "/" ∨ (e = i ∧ add_include i false ∈ done)).

(** ** The example's calls of MakeSquashfs *)

Definition example_squashfs : (error + Node) * World :=
  MakeSquashfs example_privileged "/oci" "/b/rootfs" (Some etc_excluded)
    example_world.

Definition example_squashfs_plain : (error + Node) * World :=
  MakeSquashfs example_privileged "/oci" "/b/rootfs" None example_world.


(** The world the example's layer generation leaves. *)
Definition example_generated : World :=
  (GenerateSquashfsLayer example_privileged 19 "img" "me" "/b" "/oci"
     example_world).2.


(** ** The events of GenerateSquashfsLayer *)

(** An event of the loop over the diffs: the [mknod] of a path of [ms], or
    the creation of a sidecar. *)
Definition whiteout_event (ms : list string) (ev : Event) : Prop :=
  match ev with
  | EvMknod p _ _ _ => p ∈ ms
  | EvCreate _ _ => True
  | _ => False
  end.

(** An event of the layer's creation, among the events [evs]: what it
    removes is the prior manifest or a temp file made under [ocidir]. *)
Definition layer_event (ocidir mtreePath : string) (evs : list Event)
    (ev : Event) : Prop :=
  match ev with
  | EvRemove p _ =>
      p = mtreePath ∨ ∃ pattern, EvTempFile ocidir pattern (inr p) ∈ evs
  | EvTempFile _ _ _ | EvWriteString _ _ _ | EvExec _ _ | EvWriteFile _ _ =>
      True
  | EvMknod _ _ _ _ | EvCreate _ _ | EvMkdirAll _ _ => False
  end.

(** The example bundle under a relative path. *)
Definition example_relative_world : World :=
  {| files := {[ "b/sha256_aaaa.mtree" := RegularFile "#mtree v2.0";
                 "b/rootfs" := Directory;
                 "b/rootfs/etc" := Directory;
                 "b/rootfs/etc/passwd" := RegularFile "root:x:0:0" ]};
     metas := {[ "b" := mkMeta "2" (mkDescriptorPath [example_descriptor]) ]};
     store := [];
     PATH := "/usr/bin:/bin";
     executable := {[ "/usr/bin/mksquashfs"; "/usr/bin/unsquashfs" ]};
     log := [] |}.

(** ** cmd/grab.go *)

(** The first cut of [s] at the byte [sep]: what [strings.Index] and the
    two slices of [strings.SplitN]'s loop compute. *)
Fixpoint cut (s : string) (sep : ascii) : option (string * string) :=
  match s with
  | EmptyString => None
  | String c s' =>
      if decide (c = sep) then Some (EmptyString, s')
      else match cut s' sep with
           | Some (before, after) => Some (String c before, after)
           | None => None
           end
  end.

(** [strings.SplitN(s, sep, n)] for a one-byte separator and [n >= 0]: at
    most [n] substrings, the last of them the unsplit remainder. *)
Fixpoint SplitN (s : string) (sep : ascii) (n : nat) : list string :=
  match n with
  | O => []
  | S n' =>
      match n' with
      | O => [s]
      | S _ => match cut s sep with
               | Some (before, after) => before :: SplitN after sep n'
               | None => [s]
               end
      end
  end.

(** [cli.Args.First]: the first argument, or the empty string. *)
Definition First (args : list string) : string := default "" (head args).

(** What [doGrab] calls outside its file: [stacker.NewStorage], the methods
    of the [Storage] it returns and [stacker.Grab], as transitions of the
    state [St] of the storage backend.  [Detach] and [Delete] are deferred
    calls, whose error results are dropped. *)
Class Stacker (St : Type) := {
  WorkingContainerName : string;
  NewStorage : St → option error * St;
  Storage_Detach : St → St;
  Storage_Restore : string → string → St → option error * St;
  Storage_Delete : string → St → St;
  stacker_Grab : string → string → St → option error * St;
}.

Definition doGrab {St : Type} `{!Stacker St} (args : list string) (st : St)
  : option error * St :=
  match NewStorage st with
  | (Some err, st1) => (Some err, st1)
  | (None, st1) =>
      match SplitN (First args) ":"%char 2 with
      | tag :: path :: _ =>
          match Storage_Restore tag WorkingContainerName st1 with
          | (Some err, st2) => (Some err, Storage_Detach st2)
          | (None, st2) =>
              let '(res, st3) := stacker_Grab tag path st2 in
              (res, Storage_Detach (Storage_Delete WorkingContainerName st3))
          end
      | _ =>
          (Some (Errorf ("invalid grab argument: " +:+ First args)),
           Storage_Detach st1)
      end
  end.

(** A storage backend that records the calls made on it. *)
#[export] Instance recording_stacker : Stacker (list (list string)) := {
  WorkingContainerName := "_working";
  NewStorage st := (None, st ++ [["NewStorage"]]);
  Storage_Detach st := st ++ [["Detach"]];
  Storage_Restore source target st :=
    (None, st ++ [["Restore"; source; target]]);
  Storage_Delete name st := st ++ [["Delete"; name]];
  stacker_Grab name source st := (None, st ++ [["Grab"; name; source]]);
}.


(** * Properties *)

(** ** Strings *)

#[local] Arguments String.append !s1 s2 /.

Section strings.
Lemma append_nil_r s : s +:+ "" = s.
Proof. induction s; simpl; congruence. Qed.

Lemma append_assoc (a b c : string) : (a +:+ b) +:+ c = a +:+ (b +:+ c).
Proof. induction a; simpl; congruence. Qed.

Lemma length_append (a b : string) :
  String.length (a +:+ b) = String.length a + String.length b.
Proof. induction a; simpl; lia. Qed.

Lemma HasPrefix_spec s p : HasPrefix s p = true ↔ ∃ r, s = p +:+ r.
Proof.
  revert s. induction p as [|c p IH]; intros s; simpl.
  - split; [intros _; exists s; reflexivity | done].
  - destruct s as [|d s].
    + split; [done | intros [r Hr]; discriminate].
    + case_decide as Hcd.
      * subst. rewrite IH. split; intros [r Hr]; exists r; congruence.
      * split; [done | intros [r Hr]; congruence].
Qed.

Lemma HasPrefix_refl s : HasPrefix s s = true.
Proof. apply HasPrefix_spec. exists "". by rewrite append_nil_r. Qed.

Lemma HasPrefix_app_l s p r :
  HasPrefix s (p +:+ r) = true → HasPrefix s p = true.
Proof.
  rewrite !HasPrefix_spec. intros [t ->]. exists (r +:+ t).
  apply append_assoc.
Qed.

Lemma noslash_app a b : noslash (a +:+ b) ↔ noslash a ∧ noslash b.
Proof.
  unfold noslash. induction a as [|c a IH]; simpl.
  - tauto.
  - case_decide; [|done]. split; [done | by intros [? _]].
Qed.

Lemma SplitByte_nonempty sep s : SplitByte sep s ≠ [].
Proof.
  destruct s as [|c s]; simpl; [done|].
  case_decide; [done|]. by destruct (SplitByte sep s).
Qed.

Lemma SplitByte_app a b :
  noslash a →
  SplitByte slash (a +:+ String slash b) = a :: SplitByte slash b.
Proof.
  unfold noslash. induction a as [|c a IH]; simpl; intros Ha.
  - done.
  - case_decide; [done|]. by rewrite IH.
Qed.

Lemma SplitByte_noslash a : noslash a → SplitByte slash a = [a].
Proof.
  unfold noslash. induction a as [|c a IH]; simpl; intros Ha; [done|].
  case_decide; [done|]. by rewrite IH.
Qed.

Lemma SplitByte_Forall s : Forall noslash (SplitByte slash s).
Proof.
  induction s as [|c s IH]; simpl.
  - by repeat constructor.
  - case_decide as Hc.
    + by constructor.
    + destruct (SplitByte slash s) as [|h t].
      * repeat constructor. unfold noslash. simpl. by rewrite decide_False.
      * inversion IH; subst. constructor; [|done].
        unfold noslash in *. simpl. by rewrite decide_False.
Qed.

Lemma JoinSlash_cons e es :
  es ≠ [] → JoinSlash (e :: es) = e +:+ String slash (JoinSlash es).
Proof. by destruct es. Qed.

Lemma JoinSlash_app xs ys :
  xs ≠ [] → ys ≠ [] →
  JoinSlash (xs ++ ys) = JoinSlash xs +:+ String slash (JoinSlash ys).
Proof.
  induction xs as [|x xs IH]; [done|]. intros _ Hys.
  destruct xs as [|x' xs].
  - change ([x] ++ ys) with (x :: ys). by rewrite JoinSlash_cons.
  - change ((x :: x' :: xs) ++ ys) with (x :: ((x' :: xs) ++ ys)).
    rewrite (JoinSlash_cons x ((x' :: xs) ++ ys)) by done.
    rewrite (JoinSlash_cons x (x' :: xs)) by done.
    rewrite IH by done. by rewrite append_assoc.
Qed.

Lemma SplitByte_JoinSlash xs :
  Forall noslash xs → xs ≠ [] → SplitByte slash (JoinSlash xs) = xs.
Proof.
  induction xs as [|x xs IH]; [done|]. intros Hall _.
  inversion Hall; subst. destruct xs as [|x' xs].
  - by apply SplitByte_noslash.
  - rewrite JoinSlash_cons; [|done]. rewrite SplitByte_app; [|done].
    by rewrite IH.
Qed.

Lemma JoinSlash_SplitByte s : JoinSlash (SplitByte slash s) = s.
Proof.
  induction s as [|c s IH]; [done|]. simpl.
  case_decide as Hc.
  - subst. rewrite JoinSlash_cons; [|apply SplitByte_nonempty].
    by rewrite IH.
  - pose proof (SplitByte_nonempty slash s) as Hne.
    destruct (SplitByte slash s) as [|h t]; [done|].
    destruct t as [|h' t]; simpl in *; congruence.
Qed.
End strings.

(** ** [path.Clean] and [path.Dir] on absolute paths *)

Section clean.
Lemma proper_noslash cs : Forall proper cs → Forall noslash cs.
Proof.
  intros H. eapply Forall_impl; [exact H|]. by intros e (_ & _ & _ & He).
Qed.

Lemma clean_step_proper out e :
  proper e → clean_step true out e = e :: out.
Proof.
  intros (H1 & H2 & H3 & _). unfold clean_step.
  by rewrite !decide_False.
Qed.

Lemma fold_clean_proper cs out :
  Forall proper cs → fold_left (clean_step true) cs out = rev cs ++ out.
Proof.
  revert out. induction cs as [|c cs IH]; intros out Hcs; [done|].
  inversion Hcs; subst. simpl. rewrite clean_step_proper by done.
  rewrite IH by done. by rewrite <- app_assoc.
Qed.

(** Whatever the rooted scan keeps is a proper element. *)
Lemma clean_step_keeps out e :
  noslash e → Forall proper out → Forall proper (clean_step true out e).
Proof.
  intros He Hout. unfold clean_step.
  repeat case_decide; try done.
  - destruct out as [|top below]; [done|]. case_decide; [done|].
    by inversion Hout.
  - by constructor.
Qed.

Lemma fold_clean_keeps es out :
  Forall noslash es → Forall proper out →
  Forall proper (fold_left (clean_step true) es out).
Proof.
  revert out. induction es as [|e es IH]; intros out Hes Hout; [done|].
  inversion Hes; subst. simpl. apply IH; [done|].
  by apply clean_step_keeps.
Qed.

Lemma rev_eq_nil {A} (l : list A) : rev l = [] → l = [].
Proof.
  destruct l as [|a l]; [done|]. simpl. intros H.
  by apply app_eq_nil in H as [_ ?].
Qed.

Lemma IsAbs_render cs : IsAbs (render cs) = true.
Proof. done. Qed.

(** [path.Clean] on a rooted path, by its elements. *)
Lemma Clean_rooted es :
  Forall noslash es →
  Clean (String slash (JoinSlash es))
  = render (rev (fold_left (clean_step true) es [])).
Proof.
  intros Hes. unfold Clean. rewrite decide_False by done.
  change (IsAbs (String slash (JoinSlash es))) with true. cbv iota zeta.
  unfold render. do 2 f_equal.
  change (SplitByte slash (String slash (JoinSlash es)))
    with ("" :: SplitByte slash (JoinSlash es)).
  destruct es as [|e es]; [done|].
  by rewrite SplitByte_JoinSlash.
Qed.

Lemma Clean_render cs : Forall proper cs → Clean (render cs) = render cs.
Proof.
  intros Hcs. unfold render. rewrite Clean_rooted by by apply proper_noslash.
  rewrite fold_clean_proper by done. by rewrite app_nil_r, rev_involutive.
Qed.

Lemma is_path_render cs : Forall proper cs → is_path (render cs) = true.
Proof.
  intros Hcs. unfold is_path. rewrite IsAbs_render. simpl.
  apply bool_decide_eq_true. by apply Clean_render.
Qed.

(** A clean absolute path is the rendering of proper elements. *)
Lemma is_path_elems p :
  is_path p = true → ∃ cs, Forall proper cs ∧ p = render cs.
Proof.
  unfold is_path. intros [Habs Hcl%bool_decide_eq_true]%andb_true_iff.
  destruct p as [|c p]; [done|]. unfold IsAbs in Habs. simpl in Habs.
  case_decide as Hc; [|done]. subst c.
  rewrite <- (JoinSlash_SplitByte p) in Hcl.
  rewrite Clean_rooted in Hcl by apply SplitByte_Forall.
  eexists. split; [|by rewrite JoinSlash_SplitByte in Hcl].
  apply Forall_rev, fold_clean_keeps; [apply SplitByte_Forall | done].
Qed.
End clean.

Section dir.
Lemma LastIndexByte_noslash c : noslash c → LastIndexByte c slash = (-1)%Z.
Proof.
  unfold noslash. induction c as [|d c IH]; simpl; [done|].
  case_decide; [done|]. intros Hc. by rewrite IH.
Qed.

Lemma LastIndexByte_app x c :
  noslash c →
  LastIndexByte (x +:+ String slash c) slash = Z.of_nat (String.length x).
Proof.
  intros Hc. induction x as [|d x IH]; simpl.
  - by rewrite LastIndexByte_noslash.
  - rewrite IH.
    destruct (0 <=? Z.of_nat (String.length x))%Z eqn:E; [lia|].
    apply Z.leb_gt in E. lia.
Qed.

Lemma take_app x y : take (String.length x) (x +:+ y) = x.
Proof. induction x as [|d x IH]; simpl; [by destruct y | by rewrite IH]. Qed.

Lemma take_app_S x c y :
  take (String.length x + 1) (x +:+ String c y) = x +:+ String c "".
Proof.
  induction x as [|d x IH]; simpl; [by destruct y | by rewrite IH].
Qed.

Lemma Split_app x c :
  noslash c → fst (Split (x +:+ String slash c)) = x +:+ "/".
Proof.
  intros Hc. unfold Split. simpl. rewrite LastIndexByte_app by done.
  replace (Z.to_nat (Z.of_nat (String.length x) + 1))
    with (String.length x + 1) by lia.
  apply take_app_S.
Qed.

Lemma render_snoc cs c :
  cs ≠ [] → render (cs ++ [c]) = render cs +:+ String slash c.
Proof. intros Hcs. unfold render. by rewrite JoinSlash_app. Qed.

(** [path.Dir] drops the last element of a clean absolute path. *)
Lemma Dir_render_snoc cs c :
  Forall proper (cs ++ [c]) → Dir (render (cs ++ [c])) = render cs.
Proof.
  intros [Hcs Hc]%Forall_app. inversion Hc as [|? ? (_ & _ & _ & Hns) _]; subst.
  unfold Dir. destruct (decide (cs = [])) as [->|Hne].
  - change (render ([] ++ [c])) with ("" +:+ String slash c).
    by rewrite Split_app.
  - rewrite render_snoc by done. rewrite Split_app by done.
    change (render cs +:+ "/")
      with (String slash (JoinSlash cs +:+ String slash (JoinSlash [""]))).
    rewrite <- JoinSlash_app by done.
    rewrite Clean_rooted.
    + rewrite fold_left_app, (fold_clean_proper cs) by done.
      rewrite app_nil_r. simpl.
      change (clean_step true (rev cs) "") with (rev cs).
      by rewrite rev_involutive.
    + apply Forall_app. split; [by apply proper_noslash|].
      by repeat constructor.
Qed.

Lemma JoinSlash_nonempty cs : Forall proper cs → cs ≠ [] → JoinSlash cs ≠ "".
Proof.
  intros Hcs Hne. destruct cs as [|c cs]; [done|].
  inversion Hcs as [|? ? (Hc & _) _]; subst.
  destruct cs; [done|]. rewrite JoinSlash_cons by done.
  by destruct c.
Qed.

Lemma render_root cs : Forall proper cs → render cs = "/" → cs = [].
Proof.
  intros Hcs Heq. destruct (decide (cs = [])) as [|Hne]; [done|].
  apply JoinSlash_nonempty in Hne; [|done]. unfold render in Heq.
  congruence.
Qed.

Lemma render_inj cs ds :
  Forall proper cs → Forall proper ds → render cs = render ds → cs = ds.
Proof.
  intros Hcs Hds Heq. injection Heq as Heq.
  destruct (decide (cs = [])) as [->|Hc].
  - symmetry. apply render_root; [done|]. unfold render. by rewrite <- Heq.
  - destruct (decide (ds = [])) as [->|Hd].
    + apply render_root; [done|]. unfold render. by rewrite Heq.
    + rewrite <- (SplitByte_JoinSlash cs), <- (SplitByte_JoinSlash ds);
        [by rewrite Heq | by apply proper_noslash | done
        | by apply proper_noslash | done ].
Qed.

(** The loop of [AddInclude] ends on a clean absolute path; it deletes
    the path and each of its parents below the root, and nothing else. *)
Lemma delete_parents_render cs : ∀ fuel ex,
  Forall proper cs → length cs ≤ fuel →
  ∃ ex', delete_parents fuel (render cs) ex = Some ex'
    ∧ (∀ e b, ex' !! e = Some b → ex !! e = Some b)
    ∧ (∀ k, 1 ≤ k ≤ length cs → ex' !! render (firstn k cs) = None)
    ∧ (∀ e, (∀ k, 1 ≤ k ≤ length cs → e ≠ render (firstn k cs)) →
            ex' !! e = ex !! e).
Proof.
  induction cs as [|c cs IH] using rev_ind; intros fuel ex Hcs Hfuel.
  - exists ex. split; [by destruct fuel|]. split; [done|].
    split; [simpl; lia | done].
  - rewrite length_app in Hfuel. simpl in Hfuel.
    destruct fuel as [|fuel]; [lia|]. simpl.
    rewrite decide_False; last first.
    { intros Hr%render_root; [by destruct cs | done]. }
    rewrite Dir_render_snoc by done.
    apply Forall_app in Hcs as [Hcs Hc].
    destruct (IH fuel (delete (render (cs ++ [c])) ex)) as
      (ex' & -> & Hsub & Hgone & Hkeep); [done | lia |].
    exists ex'. split; [done|]. rewrite length_app. simpl.
    split; [|split].
    + intros e b [_ ?]%Hsub%lookup_delete_Some. done.
    + intros k Hk. destruct (decide (k ≤ length cs)) as [Hle|Hgt].
      * rewrite firstn_app. replace (k - length cs) with 0 by lia.
        simpl. rewrite app_nil_r. apply Hgone. lia.
      * rewrite firstn_all2 by (rewrite length_app; simpl; lia).
        destruct (ex' !! render (cs ++ [c])) as [b|] eqn:E; [|done].
        apply Hsub, lookup_delete_Some in E as [? _]. done.
    + intros e He. rewrite Hkeep.
      * apply lookup_delete_ne. intros <-. apply (He (length cs + 1)); [lia|].
        by rewrite firstn_all2 by (rewrite length_app; simpl; lia).
      * intros k Hk. specialize (He k ltac:(lia)).
        rewrite firstn_app in He. replace (k - length cs) with 0 in He by lia.
        simpl in He. by rewrite app_nil_r in He.
Qed.
End dir.

(** ** Directory-hierarchy prefixes of clean absolute paths *)

Section prefix.
Lemma ends_with_slash_app a b :
  b ≠ "" → ends_with_slash (a +:+ b) = ends_with_slash b.
Proof.
  intros Hb. induction a as [|c a IH]; [done|].
  simpl. rewrite IH. destruct (a +:+ b) eqn:E; [|done].
  destruct a; simpl in E; [done | discriminate].
Qed.

Lemma ends_with_slash_noslash c : noslash c → ends_with_slash c = false.
Proof.
  unfold noslash. induction c as [|d c IH]; [done|]. simpl.
  case_decide as Hd; [done|]. intros Hc. destruct c; [|by apply IH].
  by apply bool_decide_eq_false.
Qed.

Lemma render_last ds d :
  ∃ x, render (ds ++ [d]) = x +:+ d.
Proof.
  destruct (decide (ds = [])) as [->|Hne].
  - by exists "/".
  - exists (render ds +:+ "/"). rewrite render_snoc by done.
    by rewrite append_assoc.
Qed.

Lemma as_dir_render cs :
  Forall proper cs → cs ≠ [] → as_dir (render cs) = render cs +:+ "/".
Proof.
  intros Hcs Hne. unfold as_dir.
  destruct cs as [|d ds _] using rev_ind; [done|].
  apply Forall_app in Hcs as [_ Hd].
  inversion Hd as [|? ? (Hd1 & _ & _ & Hd2) _]; subst.
  destruct (render_last ds d) as [x ->].
  rewrite ends_with_slash_app by done.
  by rewrite ends_with_slash_noslash.
Qed.

Lemma SplitByte_join_app es r :
  Forall noslash es → es ≠ [] →
  SplitByte slash (JoinSlash es +:+ String slash r) = es ++ SplitByte slash r.
Proof.
  induction es as [|e es IH]; [done|]. intros Hes _.
  inversion Hes; subst. destruct (decide (es = [])) as [->|Hne].
  - by apply SplitByte_app.
  - rewrite JoinSlash_cons by done. rewrite append_assoc. simpl.
    rewrite SplitByte_app by done. by rewrite IH.
Qed.

(** A clean absolute path below the directory [render es] has the elements
    [es] and at least one more. *)
Lemma below_render es cs :
  Forall proper es → Forall proper cs → es ≠ [] →
  HasPrefix (render cs) (render es +:+ "/") = true →
  ∃ rest, rest ≠ [] ∧ cs = es ++ rest.
Proof.
  intros Hes Hcs Hne [r Hr]%HasPrefix_spec.
  unfold render in Hr. simpl in Hr. rewrite append_assoc in Hr.
  injection Hr as Hr. simpl in Hr.
  exists (SplitByte slash r). split; [apply SplitByte_nonempty|].
  destruct (decide (cs = [])) as [->|Hc].
  - simpl in Hr. destruct (JoinSlash es); discriminate.
  - rewrite <- (SplitByte_JoinSlash cs), Hr by (by try apply proper_noslash).
    apply SplitByte_join_app; [by apply proper_noslash | done].
Qed.

Lemma dir_prefix_HasPrefix e i :
  dir_prefix e i = true → HasPrefix i e = true.
Proof.
  unfold dir_prefix, as_dir.
  intros [->%bool_decide_eq_true | H]%orb_true_iff; [apply HasPrefix_refl|].
  destruct (ends_with_slash e); [done|]. by eapply HasPrefix_app_l.
Qed.

(** The three ways a path lies on or above another one. *)
Lemma dir_prefix_cases e cs :
  is_path e = true → Forall proper cs → dir_prefix e (render cs) = true →
  e = render cs ∨ e = "/"
  ∨ ∃ k, 1 ≤ k < length cs ∧ e = render (firstn k cs).
Proof.
  intros (es & Hes & ->)%is_path_elems Hcs.
  unfold dir_prefix. intros [Heq%bool_decide_eq_true | H]%orb_true_iff; [by left|].
  right. destruct (decide (es = [])) as [->|Hne]; [by left|]. right.
  rewrite as_dir_render in H by done.
  apply below_render in H as (rest & Hrest & ->); [|done..].
  exists (length es). rewrite length_app. split.
  - destruct es; [done|]. destruct rest; [done|]. simpl. lia.
  - by rewrite firstn_app, Nat.sub_diag, firstn_all, app_nil_r.
Qed.
End prefix.

(** ** ExcludePaths *)

Section exclude_paths.
Lemma delete_parents_mono fuel : ∀ fuel' p ex r,
  delete_parents fuel p ex = Some r → fuel ≤ fuel' →
  delete_parents fuel' p ex = Some r.
Proof.
  induction fuel as [|fuel IH]; intros fuel' p ex r; simpl.
  - case_decide; [|done]. intros [= <-] _. destruct fuel'; simpl;
      by rewrite decide_True.
  - case_decide as Hp.
    + intros [= <-] _. destruct fuel'; simpl; by rewrite decide_True.
    + intros Hr Hle. destruct fuel' as [|fuel']; [lia|]. simpl.
      rewrite decide_False by done. apply IH; [done | lia].
Qed.

(** What a returning loop of [AddInclude] has done on a clean absolute
    path. *)
Lemma delete_parents_returns cs fuel ex r :
  Forall proper cs → delete_parents fuel (render cs) ex = Some r →
  (∀ e b, r !! e = Some b → ex !! e = Some b)
  ∧ (∀ k, 1 ≤ k ≤ length cs → r !! render (firstn k cs) = None).
Proof.
  intros Hcs Hr.
  destruct (delete_parents_render cs (max fuel (length cs)) ex)
    as (ex' & Hex' & Hsub & Hgone & _); [done | lia |].
  apply (delete_parents_mono _ (max fuel (length cs))) in Hr; [|lia].
  rewrite Hr in Hex'. by injection Hex' as <-.
Qed.

Lemma length_JoinSlash cs :
  Forall proper cs → length cs ≤ String.length (JoinSlash cs).
Proof.
  induction cs as [|c cs IH]; [done|]. intros Hcs.
  inversion Hcs as [|? ? (Hc & _) Hcs']; subst.
  destruct (decide (cs = [])) as [->|Hne].
  - simpl. destruct c; [done | simpl; lia].
  - rewrite JoinSlash_cons by done. rewrite length_append. simpl.
    specialize (IH Hcs'). destruct c; [done | simpl; lia].
Qed.

Lemma length_render cs :
  Forall proper cs → length cs ≤ String.length (render cs).
Proof. intros H%length_JoinSlash. unfold render. simpl. lia. Qed.

Lemma Dir_root : Dir "/" = "/".
Proof. reflexivity. Qed.

(** The path the loop of [AddInclude] starts from. *)
Lemma include_start cs (is_dir : bool) :
  Forall proper cs →
  (if is_dir then render cs else Dir (render cs))
  = render (if is_dir then cs else removelast cs).
Proof.
  intros Hcs. destruct is_dir; [done|].
  destruct cs as [|c cs _] using rev_ind; [done|].
  rewrite Dir_render_snoc by done. by rewrite removelast_last.
Qed.

Lemma proper_removelast cs : Forall proper cs → Forall proper (removelast cs).
Proof.
  destruct cs as [|c cs _] using rev_ind; [done|].
  rewrite removelast_last. by intros [? _]%Forall_app.
Qed.

Lemma length_removelast_le {A} (l : list A) : length (removelast l) ≤ length l.
Proof.
  destruct l as [|a l _] using rev_ind; [done|].
  rewrite removelast_last, length_app. lia.
Qed.

(** [AddInclude] returns on a clean absolute path, given as many iterations
    as the path is long. *)
Lemma AddInclude_total fuel eps orig is_dir :
  is_path orig = true → String.length orig ≤ fuel →
  is_Some (AddInclude fuel eps orig is_dir).
Proof.
  intros (cs & Hcs & ->)%is_path_elems Hfuel. unfold AddInclude.
  rewrite include_start by done.
  pose proof (length_render cs Hcs) as Hlen.
  destruct (delete_parents_render (if is_dir then cs else removelast cs)
              fuel (exclude eps)) as (ex' & -> & _).
  - destruct is_dir; [done | by apply proper_removelast].
  - destruct is_dir; [lia|]. pose proof (length_removelast_le cs). lia.
  - by eexists.
Qed.

(** What [AddInclude] leaves in the exclude map on or above the included
    path. *)
Lemma AddInclude_above fuel eps orig is_dir eps' :
  is_path orig = true → AddInclude fuel eps orig is_dir = Some eps' →
  include eps' = include eps ++ [orig]
  ∧ (∀ e, is_Some (exclude eps' !! e) → is_Some (exclude eps !! e))
  ∧ (∀ e, is_path e = true → is_Some (exclude eps' !! e) →
          dir_prefix e orig = true →
          e = "/" ∨ (e = orig ∧ is_dir = false)).
Proof.
  intros (cs & Hcs & ->)%is_path_elems. unfold AddInclude.
  rewrite include_start by done.
  destruct (delete_parents _ _ _) as [r|] eqn:Hr; [|done].
  simpl. intros [= <-]. simpl.
  apply delete_parents_returns in Hr as [Hsub Hgone];
    [|destruct is_dir; [done | by apply proper_removelast]].
  split; [done|]. split.
  { intros e [b Hb]. exists b. by apply Hsub. }
  intros e He [b Hb] Hpre.
  apply dir_prefix_cases in Hpre as [-> | [-> | (k & Hk & ->)]];
    [| by left | | done..].
  - destruct is_dir; [|by right].
    destruct (decide (cs = [])) as [->|Hne]; [by left|]. exfalso.
    specialize (Hgone (length cs)). rewrite firstn_all in Hgone.
    rewrite Hgone in Hb; [done|]. destruct cs; [done | simpl; lia].
  - exfalso. destruct is_dir.
    + rewrite Hgone in Hb; [done | lia].
    + destruct cs as [|c cs _] using rev_ind; [simpl in Hk; lia|].
      rewrite removelast_last in Hgone. rewrite length_app in Hk. simpl in Hk.
      rewrite firstn_app in Hb. replace (k - length cs) with 0 in Hb by lia.
      simpl in Hb. rewrite app_nil_r in Hb.
      rewrite Hgone in Hb; [done | lia].
Qed.
End exclude_paths.

Section invariants.
Lemma existsb_elem {A} (f : A → bool) (l : list A) :
  existsb f l = true ↔ ∃ x, x ∈ l ∧ f x = true.
Proof.
  rewrite existsb_exists. by setoid_rewrite list_elem_of_In.
Qed.

Lemma existsb_none {A} (f : A → bool) (l : list A) :
  existsb f l = false ↔ ∀ x, x ∈ l → f x = false.
Proof.
  rewrite <- not_true_iff_false, existsb_elem. split.
  - intros Hno x Hx. apply not_true_iff_false. intros Hf. apply Hno. eauto.
  - intros Hall (x & Hx & Hf). rewrite Hall in Hf; done.
Qed.

Lemma AddExclude_include eps p : include (AddExclude eps p) = include eps.
Proof. unfold AddExclude. by destruct (existsb _ _). Qed.

Lemma AddExclude_blocked eps p :
  (∃ inc, inc ∈ include eps ∧ HasPrefix inc p = true) →
  AddExclude eps p = eps.
Proof. intros H%existsb_elem. unfold AddExclude. by rewrite H. Qed.

Lemma AddExclude_added eps p :
  (∀ inc, inc ∈ include eps → HasPrefix inc p = false) →
  AddExclude eps p
  = {| exclude := <[p := true]> (exclude eps); include := include eps |}.
Proof. intros H%existsb_none. unfold AddExclude. by rewrite H. Qed.

Lemma AddExclude_lookup eps p e :
  is_Some (exclude (AddExclude eps p) !! e) →
  is_Some (exclude eps !! e)
  ∨ (e = p ∧ ∀ inc, inc ∈ include eps → HasPrefix inc p = false).
Proof.
  unfold AddExclude. destruct (existsb _ _) eqn:E; [by left|]. simpl.
  destruct (decide (p = e)) as [->|Hne].
  - intros _. right. split; [done|]. by apply existsb_none.
  - rewrite lookup_insert_ne by done. by left.
Qed.

Lemma included_app xs ys : included (xs ++ ys) = included xs ++ included ys.
Proof.
  induction xs as [|[p|orig d] xs IH]; simpl; [done | done | by rewrite IH].
Qed.

Lemma reached_new : reached [] NewExcludePaths.
Proof.
  unfold reached. simpl. repeat split.
  - intros e [b Hb]. by rewrite lookup_empty in Hb.
  - intros i Hi. by apply elem_of_nil in Hi.
  - intros e i _ Hi. by apply elem_of_nil in Hi.
Qed.

Lemma reached_step done eps fuel c eps' :
  reached done eps → is_path (call_path c) = true →
  apply_call fuel eps c = Some eps' → reached (done ++ [c]) eps'.
Proof.
  intros (Hinc & Hex & Hin & Hsafe) Hc Hstep.
  destruct c as [p | orig is_dir]; simpl in *.
  - injection Hstep as <-. unfold reached.
    rewrite AddExclude_include, included_app. simpl. rewrite app_nil_r.
    split; [done|]. split; [|split; [done|]].
    + intros e [He | [-> _]]%AddExclude_lookup; [by apply Hex | done].
    + intros e i [He | [-> Hno]]%AddExclude_lookup Hi Hpre.
      * destruct (Hsafe e i He Hi Hpre) as [-> | [-> Hd]]; [by left|].
        right. split; [done|]. apply elem_of_app. by left.
      * apply dir_prefix_HasPrefix in Hpre. rewrite Hno in Hpre; done.
  - apply AddInclude_above in Hstep as (Hinc' & Hsub & Habove); [|done].
    unfold reached. rewrite Hinc', included_app, Hinc. simpl.
    split; [done|]. split; [|split].
    + intros e He. by apply Hex, Hsub.
    + intros i [Hi | ->%list_elem_of_singleton]%elem_of_app; [|done].
      apply Hin. by rewrite Hinc.
    + intros e i He [Hi | ->%list_elem_of_singleton]%elem_of_app Hpre.
      * rewrite <- Hinc in Hi.
        destruct (Hsafe e i (Hsub e He) Hi Hpre) as [-> | [-> Hd]]; [by left|].
        right. split; [done|]. apply elem_of_app. by left.
      * destruct (Habove e (Hex e (Hsub e He)) He Hpre) as [-> | [-> ->]];
          [by left|].
        right. split; [done|]. apply elem_of_app. right.
        by apply list_elem_of_singleton.
Qed.

Lemma reached_run fuel calls : ∀ done eps0 eps,
  reached done eps0 → Forall (λ c, is_path (call_path c) = true) calls →
  run fuel calls eps0 = Some eps → reached (done ++ calls) eps.
Proof.
  induction calls as [|c calls IH]; intros done eps0 eps H0 Hcalls; simpl.
  - intros [= <-]. by rewrite app_nil_r.
  - inversion Hcalls; subst.
    destruct (apply_call fuel eps0 c) as [eps1|] eqn:Hstep; [|done]. simpl.
    intros Hrun. replace (done ++ c :: calls) with ((done ++ [c]) ++ calls)
      by by rewrite <- app_assoc.
    eapply IH; [|done..]. by eapply reached_step.
Qed.

Lemma run_total fuel calls : ∀ eps0,
  Forall (λ c, is_path (call_path c) = true
               ∧ String.length (call_path c) ≤ fuel) calls →
  is_Some (run fuel calls eps0).
Proof.
  induction calls as [|c calls IH]; intros eps0 Hcalls; simpl; [by eexists|].
  inversion Hcalls as [|? ? [Hp Hlen] Hrest]; subst.
  destruct c as [p | orig is_dir]; simpl in *; [by apply IH|].
  destruct (AddInclude_total fuel eps0 orig is_dir Hp Hlen) as [eps1 ->].
  simpl. by apply IH.
Qed.

Lemma calls_fuel_bound calls :
  Forall (λ c, String.length (call_path c) ≤ calls_fuel calls) calls.
Proof.
  induction calls as [|c calls IH]; [done|]. constructor.
  - simpl. lia.
  - eapply Forall_impl; [exact IH|]. simpl. intros; simpl. lia.
Qed.

(** The include list holds the paths handed to [add_include], in call
    order, whatever they are. *)
Lemma run_include fuel calls : ∀ eps0 eps,
  run fuel calls eps0 = Some eps →
  include eps = include eps0 ++ included calls.
Proof.
  induction calls as [|c calls IH]; intros eps0 eps; simpl.
  - intros [= <-]. by rewrite app_nil_r.
  - destruct c as [p | orig is_dir]; simpl.
    + intros ->%IH. by rewrite AddExclude_include.
    + unfold AddInclude.
      destruct (delete_parents _ _ _) as [r|]; [|done]. simpl.
      intros ->%IH. simpl. by rewrite <- app_assoc.
Qed.
End invariants.

(** ** The stated properties of ExcludePaths *)

(** C1, as amended.  For every sequence of [add_include]/[add_exclude] calls
    on absolute, normalized paths starting from an empty ExcludePaths, the
    calls return, and a path held in the exclude set is a prefix, in the
    directory hierarchy, of a path held in the include list only when it is
    the root [/] (which [AddInclude] never removes) or that included path
    itself, handed to [add_include] as a non-directory. *)
Theorem exclude_above_include (calls : list Call) :
  Forall (λ c, is_path (call_path c) = true) calls →
  (∃ eps, run (calls_fuel calls) calls NewExcludePaths = Some eps)
  ∧ ∀ fuel eps, run fuel calls NewExcludePaths = Some eps →
      ∀ e i, is_Some (exclude eps !! e) → i ∈ include eps →
             dir_prefix e i = true →
             e = "/" ∨ (e = i ∧ add_include i false ∈ calls).
Proof.
  intros Hcalls. split.
  - apply run_total. apply Forall_forall. intros c Hc. split.
    + by eapply Forall_forall in Hcalls.
    + pose proof (calls_fuel_bound calls) as Hb.
      by eapply Forall_forall in Hb.
  - intros fuel eps Hrun.
    by destruct (reached_run fuel calls [] _ _ reached_new Hcalls Hrun)
      as (_ & _ & _ & Hsafe).
Qed.

Lemma exclude_above_include_witness :
  Forall (λ c, is_path (call_path c) = true)
    [add_exclude "/usr"; add_exclude "/usr/bin"; add_exclude "/etc";
     add_include "/usr/bin/ls" false]
  ∧ ((∃ eps, run 11 [add_exclude "/usr"; add_exclude "/usr/bin";
                     add_exclude "/etc"; add_include "/usr/bin/ls" false]
               NewExcludePaths = Some eps)
     ∧ ∀ fuel eps,
         run fuel [add_exclude "/usr"; add_exclude "/usr/bin";
                   add_exclude "/etc"; add_include "/usr/bin/ls" false]
           NewExcludePaths = Some eps →
         ∀ e i, is_Some (exclude eps !! e) → i ∈ include eps →
                dir_prefix e i = true →
                e = "/"
                ∨ (e = i
                   ∧ add_include i false
                     ∈ [add_exclude "/usr"; add_exclude "/usr/bin";
                        add_exclude "/etc"; add_include "/usr/bin/ls" false])).
Proof.
  assert (H : Forall (λ c, is_path (call_path c) = true)
                [add_exclude "/usr"; add_exclude "/usr/bin";
                 add_exclude "/etc"; add_include "/usr/bin/ls" false])
    by (repeat constructor).
  split; [exact H|].
  exact (exclude_above_include _ H).
Defined.

(** C1, as stated, fails: an excluded root stays excluded above whatever is
    included later, and a path excluded and then included as a non-directory
    stays excluded. *)
Lemma subtree_safe_counterexample :
  (∃ eps, run 4 [add_exclude "/"; add_include "/usr" true] NewExcludePaths
          = Some eps ∧ ¬ subtree_safe eps)
  ∧ (∃ eps, run 4 [add_exclude "/etc/hosts"; add_include "/etc/hosts" false]
              NewExcludePaths = Some eps ∧ ¬ subtree_safe eps).
Proof.
  split.
  - eexists. split; [vm_compute; reflexivity|].
    intros H. specialize (H "/" "/usr"). simpl in H.
    assert (true = false) as Hf; [|discriminate Hf].
    apply H; [by eexists | apply list_elem_of_here].
  - eexists. split; [vm_compute; reflexivity|].
    intros H. specialize (H "/etc/hosts" "/etc/hosts"). simpl in H.
    assert (true = false) as Hf; [|discriminate Hf].
    apply H; [by eexists | apply list_elem_of_here].
Qed.

(** C6, as amended.  [add_exclude(p)] leaves the include list unchanged; it
    leaves the exclude set unchanged when some included path starts with [p]
    as a string ([strings.HasPrefix]), which covers every included path that
    has [p] as a prefix in the directory hierarchy, and otherwise adds
    exactly [p] to the exclude set. *)
Theorem AddExclude_by_string_prefix (eps : ExcludePaths) (p : string) :
  include (AddExclude eps p) = include eps
  ∧ ((∃ inc, inc ∈ include eps ∧ HasPrefix inc p = true) →
     exclude (AddExclude eps p) = exclude eps)
  ∧ ((∃ inc, inc ∈ include eps ∧ dir_prefix p inc = true) →
     exclude (AddExclude eps p) = exclude eps)
  ∧ ((∀ inc, inc ∈ include eps → HasPrefix inc p = false) →
     exclude (AddExclude eps p) = <[p := true]> (exclude eps)).
Proof.
  split; [apply AddExclude_include|]. split; [|split].
  - intros H. by rewrite AddExclude_blocked.
  - intros (inc & Hinc & Hpre). rewrite AddExclude_blocked; [done|].
    exists inc. split; [done|]. by apply dir_prefix_HasPrefix.
  - intros H. by rewrite AddExclude_added.
Qed.

(** C6, as stated, fails: [/us] is no directory above the included
    [/usr/bin], yet [add_exclude] does not add it. *)
Lemma AddExclude_counterexample :
  (∀ inc, inc ∈ include {| exclude := ∅; include := ["/usr/bin"] |} →
          dir_prefix "/us" inc = false)
  ∧ exclude (AddExclude {| exclude := ∅; include := ["/usr/bin"] |} "/us")
      !! "/us" = None
  ∧ run 4 [add_include "/usr/bin" true] NewExcludePaths
    = Some {| exclude := ∅; include := ["/usr/bin"] |}.
Proof.
  split; [|split; reflexivity].
  simpl. intros inc ->%list_elem_of_singleton. reflexivity.
Qed.

(** C7, as amended.  For every sequence of [add_include]/[add_exclude]
    calls, the include list is the list of the paths handed to
    [add_include], in call order: every one is retained, a strict ancestor
    of another included path too. *)
Theorem include_is_call_order (fuel : nat) (calls : list Call)
    (eps : ExcludePaths) :
  run fuel calls NewExcludePaths = Some eps →
  include eps = included calls.
Proof. intros Hrun. by apply run_include in Hrun. Qed.

Lemma include_is_call_order_witness :
  run 9 [add_include "/usr" true; add_exclude "/etc";
         add_include "/usr/bin" true] NewExcludePaths
  = Some {| exclude := {["/etc" := true]}; include := ["/usr"; "/usr/bin"] |}
  ∧ include {| exclude := {["/etc" := true]};
               include := ["/usr"; "/usr/bin"] |}
    = included [add_include "/usr" true; add_exclude "/etc";
                add_include "/usr/bin" true].
Proof.
  assert (H : run 9 [add_include "/usr" true; add_exclude "/etc";
                     add_include "/usr/bin" true] NewExcludePaths
              = Some {| exclude := {["/etc" := true]};
                        include := ["/usr"; "/usr/bin"] |})
    by (vm_compute; reflexivity).
  split; [exact H|].
  exact (include_is_call_order _ _ _ H).
Defined.

(** C7, as stated, fails: [/usr] and then [/usr/bin] are both retained. *)
Lemma include_minimal_counterexample :
  ∃ eps, run 9 [add_include "/usr" true; add_include "/usr/bin" true]
           NewExcludePaths = Some eps
         ∧ ¬ include_minimal eps.
Proof.
  eexists. split; [vm_compute; reflexivity|].
  intros H. specialize (H "/usr" "/usr/bin"). simpl in H.
  assert (true = false) as Hf; [|discriminate Hf].
  apply H; [apply list_elem_of_here | apply list_elem_of_further, list_elem_of_here].
Qed.

(** ** GenerateSquashfsLayer: the loop over the diffs *)

#[local] Arguments unix_Mknod : simpl never.
#[local] Arguments os_Create : simpl never.
#[local] Arguments os_Remove : simpl never.
#[local] Arguments os_Open : simpl never.
#[local] Arguments TempFile : simpl never.
#[local] Arguments WriteString : simpl never.
#[local] Arguments MkdirAll : simpl never.
#[local] Arguments Exec : simpl never.
#[local] Arguments Join : simpl never.
#[local] Arguments whiteout_path : simpl never.

Section diff_loop.
Context (E : Deps) (fuel : nat) (rootfsPath : string).

Lemma diff_loop_same diffs : ∀ st w,
  Forall (λ d, Type_ d = Same) diffs →
  ∃ eps, diff_loop E fuel rootfsPath diffs st w
         = (Ok (), mkLoopState eps (missing st) (needsLayer st), w).
Proof.
  induction diffs as [|d diffs IH]; intros st w Hsame; simpl.
  - exists (paths st). by destruct st.
  - inversion Hsame as [|? ? Hd Hrest]; subst.
    unfold diff_step. rewrite Hd.
    destruct (IH (mkLoopState (AddExclude (paths st)
                                 (Join [rootfsPath; Path d]))
                    (missing st) (needsLayer st)) w Hrest) as [eps ->].
    by exists eps.
Qed.

Lemma diff_loop_app pre post : ∀ st w,
  diff_loop E fuel rootfsPath (pre ++ post) st w
  = match diff_loop E fuel rootfsPath pre st w with
    | (Ok _, st', w') => diff_loop E fuel rootfsPath post st' w'
    | stopped => stopped
    end.
Proof.
  induction pre as [|d pre IH]; intros st w; simpl; [done|].
  destruct (diff_step E fuel rootfsPath d st w) as [[[[]| | |] st'] w'];
    by rewrite ?IH.
Qed.

(** The step for a Missing diff whose [mknod] fails with anything but
    ENOENT and ENOTDIR. *)
Lemma diff_step_fallback d st w eps errno w1 :
  Type_ d = Missing →
  AddInclude fuel (paths st) (Join [rootfsPath; Path d]) (Old_IsDir d)
  = Some eps →
  unix_Mknod E (Join [rootfsPath; Path d]) S_IFCHR (Mkdev 0 0) w
  = (Some errno, w1) →
  errno ≠ ENOENT → errno ≠ ENOTDIR →
  diff_step E fuel rootfsPath d st w
  = match os_Create E (whiteout_path rootfsPath (Path d)) w1 with
    | (Some err, w2) =>
        (Err (Wrapped err ("couldn't mknod whiteout for " +:+ Path d)),
         mkLoopState eps (missing st ++ [Join [rootfsPath; Path d]]) true,
         w2)
    | (None, w2) =>
        (Ok (),
         mkLoopState eps (missing st ++ [Join [rootfsPath; Path d]]) true,
         w2)
    end.
Proof.
  intros Hd Hinc Hmk Hne1 Hne2. unfold diff_step.
  rewrite Hd, Hinc, Hmk. cbn [IsNotExist is_errno].
  rewrite !bool_decide_eq_false_2 by done. cbn [negb andb].
  by destruct (os_Create E _ w1) as [[err|] w2].
Qed.
End diff_loop.

(** ** GenerateSquashfsLayer *)

Section generate.
Context (E : Deps) (fuel : nat) (name author bundlepath ocidir : string).

Lemma remove_missing_snoc missing p w :
  remove_missing E (missing ++ [p]) w
  = (os_Remove E p (remove_missing E missing w)).2.
Proof. unfold remove_missing. by rewrite fold_left_app. Qed.

(** An error of the loop is the error of [GenerateSquashfsLayer], once the
    deferred cleanup has run. *)
Lemma GenerateSquashfsLayer_loop_error w meta mtreePath rootfsPath diffs e st w1 :
  read_diffs E bundlepath w = Ok (meta, mtreePath, rootfsPath, diffs) →
  diff_loop E fuel rootfsPath diffs (mkLoopState NewExcludePaths [] false) w
  = (Err e, st, w1) →
  GenerateSquashfsLayer E fuel name author bundlepath ocidir w
  = (Err e, remove_missing E (missing st) w1).
Proof.
  intros Hread Hloop. unfold GenerateSquashfsLayer. by rewrite Hread, Hloop.
Qed.

Lemma read_diffs_manifest w meta mtreePath rootfsPath diffs :
  read_diffs E bundlepath w = Ok (meta, mtreePath, rootfsPath, diffs) →
  metas w !! bundlepath = Some meta
  ∧ (∃ desc, last (Walk (From meta)) = Some desc
             ∧ mtreePath
               = Join [bundlepath; mtree_name (Digest desc) +:+ ".mtree"])
  ∧ rootfsPath = Join [bundlepath; "rootfs"]
  ∧ is_Some (files w !! mtreePath).
Proof.
  unfold read_diffs, ReadBundleMeta, DescriptorPath_Descriptor, os_Open.
  destruct (metas w !! bundlepath) as [m|]; [|done].
  destruct (last (Walk (From m))) as [desc|] eqn:Hlast; [|done].
  destruct (files w !! _) as [n|] eqn:Hn; [|done].
  destruct (open_errno E w _); [done|].
  destruct (ParseSpec E n); [done|].
  destruct (mtree_Walk E w _); [done|].
  destruct (CompareSame E _ _); [done|].
  intros [= <- <- <- <-]. rewrite Hlast, Hn. eauto 10.
Qed.
End generate.

(** C4.  If every filtered diff entry is Same, [GenerateSquashfsLayer]
    returns success and leaves the world as it was: no archiver run (the log
    of commands and system calls is unchanged), no blob added to the content
    store, the bundle meta untouched, and the prior manifest file still in
    place under the name derived from the meta's descriptor. *)
Theorem all_same_is_a_no_op (E : Deps) (fuel : nat)
    (name author bundlepath ocidir : string) (w : World) (meta : Meta)
    (mtreePath rootfsPath : string) (diffs : list InodeDelta) :
  read_diffs E bundlepath w = Ok (meta, mtreePath, rootfsPath, diffs) →
  Forall (λ d, Type_ d = Same) diffs →
  GenerateSquashfsLayer E fuel name author bundlepath ocidir w = (Ok (), w)
  ∧ is_Some (files w !! mtreePath)
  ∧ ∃ desc, last (Walk (From meta)) = Some desc
            ∧ mtreePath
              = Join [bundlepath; mtree_name (Digest desc) +:+ ".mtree"].
Proof.
  intros Hread Hsame.
  destruct (read_diffs_manifest E bundlepath w _ _ _ _ Hread)
    as (_ & Hname & _ & Hfile).
  split; [|done].
  unfold GenerateSquashfsLayer. rewrite Hread.
  destruct (diff_loop_same E fuel rootfsPath diffs
              (mkLoopState NewExcludePaths [] false) w Hsame) as [eps ->].
  reflexivity.
Qed.

Lemma all_same_is_a_no_op_witness :
  read_diffs (example_deps [same_etc] None) "/b" example_world
  = Ok (mkMeta "2" (mkDescriptorPath [example_descriptor]),
        "/b/sha256_aaaa.mtree", "/b/rootfs", [same_etc])
  ∧ Forall (λ d, Type_ d = Same) [same_etc]
  ∧ GenerateSquashfsLayer (example_deps [same_etc] None) 0 "img" "me" "/b"
      "/oci" example_world = (Ok (), example_world)
  ∧ is_Some (files example_world !! "/b/sha256_aaaa.mtree").
Proof.
  assert (H1 : read_diffs (example_deps [same_etc] None) "/b" example_world
               = Ok (mkMeta "2" (mkDescriptorPath [example_descriptor]),
                     "/b/sha256_aaaa.mtree", "/b/rootfs", [same_etc]))
    by (vm_compute; reflexivity).
  assert (H2 : Forall (λ d, Type_ d = Same) [same_etc])
    by (repeat constructor).
  split; [exact H1|]. split; [exact H2|].
  destruct (all_same_is_a_no_op _ 0 "img" "me" "/b" "/oci" _ _ _ _ _ H1 H2)
    as (Hres & Hfile & _).
  split; [exact Hres | exact Hfile].
Defined.

(** ** Whiteouts *)

Section whiteouts.
Context (E : Deps).

Lemma AddInclude_include fuel eps orig is_dir eps' :
  AddInclude fuel eps orig is_dir = Some eps' →
  include eps' = include eps ++ [orig].
Proof.
  unfold AddInclude. destruct (delete_parents _ _ _); [|done].
  by intros [= <-].
Qed.

Lemma Mkdev_0_0 : mknod_node S_IFCHR (Mkdev 0 0) = CharDevice 0 0.
Proof. reflexivity. Qed.

(** What [unix.Mknod] does to the world. *)
Lemma unix_Mknod_spec p mode dev w res w' :
  unix_Mknod E p mode dev w = (res, w') →
  log w' = log w ++ [EvMknod p mode dev res]
  ∧ metas w' = metas w ∧ store w' = store w
  ∧ match res with
    | None => files w !! p = None
              ∧ files w' = <[p := mknod_node mode dev]> (files w)
    | Some _ => files w' = files w
    end.
Proof.
  unfold unix_Mknod. intros [= <- <-].
  destruct (files w !! p) as [n|] eqn:Hp; [done|].
  by destruct (mknod_errno E w p).
Qed.

(** What [os.Create] does to the world. *)
Lemma os_Create_spec p w res w' :
  os_Create E p w = (res, w') →
  ∃ errno, res = PathError "open" p <$> errno
  ∧ log w' = log w ++ [EvCreate p errno]
  ∧ metas w' = metas w ∧ store w' = store w
  ∧ match errno with
    | None =>
        match files w !! p with
        | Some (CharDevice _ _) | Some (OtherNode _ _) => files w' = files w
        | _ => files w' = <[p := RegularFile ""]> (files w)
        end
    | Some _ => files w' = files w
    end.
Proof.
  unfold os_Create. intros [= <- <-]. eexists. split; [done|].
  destruct (files w !! p) as [[| | |]|]; try done;
    by destruct (create_errno E w p).
Qed.

Lemma os_Create_exists p w w' :
  os_Create E p w = (None, w') → is_Some (files w' !! p).
Proof.
  intros (errno & Hres & _ & _ & _ & Hfiles)%os_Create_spec.
  destruct errno; [done|].
  destruct (files w !! p) as [[| | |]|] eqn:Hp; rewrite Hfiles;
    by rewrite ?lookup_insert_eq, ?Hp.
Qed.

Lemma world_grows_refl w : world_grows w w.
Proof. by repeat split. Qed.

Lemma world_grows_trans w1 w2 w3 :
  world_grows w1 w2 → world_grows w2 w3 → world_grows w1 w3.
Proof. intros (?&?&?) (?&?&?). repeat split; naive_solver. Qed.

Lemma unix_Mknod_grows p mode dev w res w' :
  unix_Mknod E p mode dev w = (res, w') → world_grows w w'.
Proof.
  intros (Hlog & _ & _ & Hfiles)%unix_Mknod_spec.
  assert (∀ q n, files w !! q = Some n → files w' !! q = Some n) as Hkeep.
  { intros q n Hq. destruct res as [e|]; [by rewrite Hfiles|].
    destruct Hfiles as [Hp ->]. rewrite lookup_insert_ne; [done|].
    intros ->. by rewrite Hp in Hq. }
  repeat split.
  - intros q major minor. apply Hkeep.
  - intros q [n Hq]. exists n. by apply Hkeep.
  - intros ev Hev. rewrite Hlog. apply elem_of_app. by left.
Qed.

Lemma os_Create_grows p w res w' :
  os_Create E p w = (res, w') → world_grows w w'.
Proof.
  intros (errno & _ & Hlog & _ & _ & Hfiles)%os_Create_spec.
  repeat split.
  - intros q major minor Hq. destruct errno; [by rewrite Hfiles|].
    destruct (decide (p = q)) as [->|Hne].
    + rewrite Hq in Hfiles. by rewrite Hfiles.
    + destruct (files w !! p) as [[| | |]|]; rewrite Hfiles;
        by rewrite ?lookup_insert_ne.
  - intros q [n Hq]. destruct errno; [rewrite Hfiles; by exists n|].
    destruct (decide (p = q)) as [->|Hne].
    + rewrite Hq in Hfiles. destruct n; rewrite Hfiles;
        by rewrite ?lookup_insert_eq, ?Hq.
    + destruct (files w !! p) as [[| | |]|]; rewrite Hfiles;
        by rewrite ?lookup_insert_ne, ?Hq.
  - intros ev Hev. rewrite Hlog. apply elem_of_app. by left.
Qed.

Lemma diff_step_grows fuel rootfsPath d st w res st' w' :
  diff_step E fuel rootfsPath d st w = (res, st', w') → world_grows w w'.
Proof.
  unfold diff_step. destruct (Type_ d).
  - destruct (AddInclude _ _ _ _);
      [|intros [= _ _ <-]; apply world_grows_refl].
    destruct (unix_Mknod E _ _ _ w) as [[errno|] w1] eqn:Hmk.
    + apply unix_Mknod_grows in Hmk.
      destruct (negb _ && negb _);
        [|intros [= _ _ <-]; done].
      destruct (os_Create E _ w1) as [[err|] w2] eqn:Hcr;
        apply os_Create_grows in Hcr; intros [= _ _ <-];
        by eapply world_grows_trans.
    + apply unix_Mknod_grows in Hmk. by intros [= _ _ <-].
  - destruct (AddInclude _ _ _ _); intros [= _ _ <-]; apply world_grows_refl.
  - destruct (AddInclude _ _ _ _); intros [= _ _ <-]; apply world_grows_refl.
  - intros [= _ _ <-]; apply world_grows_refl.
  - intros [= _ _ <-]; apply world_grows_refl.
Qed.

Lemma diff_loop_grows fuel rootfsPath diffs : ∀ st w res st' w',
  diff_loop E fuel rootfsPath diffs st w = (res, st', w') → world_grows w w'.
Proof.
  induction diffs as [|d diffs IH]; intros st w res st' w'; simpl.
  - intros [= _ _ <-]. apply world_grows_refl.
  - destruct (diff_step E fuel rootfsPath d st w) as [[r1 st1] w1] eqn:Hstep.
    apply diff_step_grows in Hstep.
    destruct r1; try (intros [= _ _ <-]; done).
    intros Hrest%IH. by eapply world_grows_trans.
Qed.

Lemma whiteout_placed_grows rootfsPath d w w' :
  world_grows w w' → whiteout_placed rootfsPath d w →
  whiteout_placed rootfsPath d w'.
Proof.
  intros (Hdev & Hnode & Hlog) [H | [H | (e & He & H)]].
  - left. by apply Hdev.
  - right. left. by apply Hnode.
  - right. right. exists e. split; [done|]. by apply Hlog.
Qed.

Lemma diff_step_missing fuel rootfsPath d st w st' w' :
  Type_ d = Missing →
  diff_step E fuel rootfsPath d st w = (Ok (), st', w') →
  whiteout_placed rootfsPath d w'.
Proof.
  intros Hd. unfold diff_step. rewrite Hd.
  destruct (AddInclude _ _ _ _); [|done].
  destruct (unix_Mknod E _ _ _ w) as [[errno|] w1] eqn:Hmk.
  - pose proof Hmk as (Hlog & _)%unix_Mknod_spec.
    cbn [IsNotExist is_errno].
    destruct (decide (errno = ENOENT)) as [->|Hne1].
    { intros [= _ <-]. right. right. exists ENOENT. split; [by left|].
      rewrite Hlog. apply elem_of_app. right. apply list_elem_of_here. }
    destruct (decide (errno = ENOTDIR)) as [->|Hne2].
    { rewrite andb_false_r. intros [= _ <-]. right. right. exists ENOTDIR.
      split; [by right|].
      rewrite Hlog. apply elem_of_app. right. apply list_elem_of_here. }
    rewrite !bool_decide_eq_false_2 by done. cbn [negb andb].
    destruct (os_Create E _ w1) as [[err|] w2] eqn:Hcr; [done|].
    intros [= _ <-]. right. left. by eapply os_Create_exists.
  - apply unix_Mknod_spec in Hmk as (_ & _ & _ & _ & Hfiles).
    intros [= _ <-]. left. by rewrite Hfiles, lookup_insert_eq.
Qed.
End whiteouts.

(** C2, as amended.  For every Missing diff entry, if the attempt to create
    the character-device whiteout fails with an error that is neither
    no-such-file nor not-a-directory (permission denied or any other), the
    code falls back to the sidecar form: [GenerateSquashfsLayer] fails with a
    fatal error when creating the sidecar file fails, and otherwise goes on
    with the next entry. *)
Theorem mknod_error_falls_back (E : Deps) (fuel : nat)
    (name author bundlepath ocidir : string) (w : World) (meta : Meta)
    (mtreePath rootfsPath : string) (pre post : list InodeDelta)
    (d : InodeDelta) (st : LoopState) (w0 : World) (eps : ExcludePaths)
    (errno : Errno) (w1 : World) :
  read_diffs E bundlepath w
  = Ok (meta, mtreePath, rootfsPath, pre ++ d :: post) →
  diff_loop E fuel rootfsPath pre (mkLoopState NewExcludePaths [] false) w
  = (Ok (), st, w0) →
  Type_ d = Missing →
  AddInclude fuel (paths st) (Join [rootfsPath; Path d]) (Old_IsDir d)
  = Some eps →
  unix_Mknod E (Join [rootfsPath; Path d]) S_IFCHR (Mkdev 0 0) w0
  = (Some errno, w1) →
  errno ≠ ENOENT → errno ≠ ENOTDIR →
  match os_Create E (whiteout_path rootfsPath (Path d)) w1 with
  | (Some err, w2) =>
      GenerateSquashfsLayer E fuel name author bundlepath ocidir w
      = (Err (Wrapped err ("couldn't mknod whiteout for " +:+ Path d)),
         remove_missing E (missing st ++ [Join [rootfsPath; Path d]]) w2)
  | (None, w2) =>
      diff_loop E fuel rootfsPath (pre ++ d :: post)
        (mkLoopState NewExcludePaths [] false) w
      = diff_loop E fuel rootfsPath post
          (mkLoopState eps (missing st ++ [Join [rootfsPath; Path d]]) true)
          w2
  end.
Proof.
  intros Hread Hpre Hd Hinc Hmk Hne1 Hne2.
  pose proof (diff_step_fallback E fuel rootfsPath d st w0 eps errno w1
                Hd Hinc Hmk Hne1 Hne2) as Hstep.
  assert (diff_loop E fuel rootfsPath (pre ++ d :: post)
            (mkLoopState NewExcludePaths [] false) w
          = match diff_step E fuel rootfsPath d st w0 with
            | (Ok _, st', w') => diff_loop E fuel rootfsPath post st' w'
            | stopped => stopped
            end) as Hloop.
  { by rewrite diff_loop_app, Hpre. }
  rewrite Hstep in Hloop.
  destruct (os_Create E _ w1) as [[err|] w2]; [|done].
  cbv beta iota in Hloop.
  by rewrite (GenerateSquashfsLayer_loop_error E fuel name author bundlepath
                ocidir w _ _ _ _ _ _ _ Hread Hloop).
Qed.

Lemma mknod_error_falls_back_witness :
  read_diffs example_unsupported "/b" example_world
  = Ok (mkMeta "2" (mkDescriptorPath [example_descriptor]),
        "/b/sha256_aaaa.mtree", "/b/rootfs", [same_etc] ++ missing_hosts :: [])
  ∧ diff_loop example_unsupported 19 "/b/rootfs" [same_etc] example_start
      example_world
    = (Ok (), mkLoopState etc_excluded [] false, example_world)
  ∧ Type_ missing_hosts = Missing
  ∧ AddInclude 19 etc_excluded (Join ["/b/rootfs"; Path missing_hosts])
      (Old_IsDir missing_hosts) = Some hosts_included
  ∧ unix_Mknod example_unsupported (Join ["/b/rootfs"; Path missing_hosts])
      S_IFCHR (Mkdev 0 0) example_world
    = (Some EOPNOTSUPP,
       log_event (EvMknod "/b/rootfs/etc/hosts" S_IFCHR 0 (Some EOPNOTSUPP))
         example_world)
  ∧ EOPNOTSUPP ≠ ENOENT ∧ EOPNOTSUPP ≠ ENOTDIR
  ∧ match os_Create example_unsupported
            (whiteout_path "/b/rootfs" (Path missing_hosts))
            (log_event
               (EvMknod "/b/rootfs/etc/hosts" S_IFCHR 0 (Some EOPNOTSUPP))
               example_world) with
    | (Some err, w2) =>
        GenerateSquashfsLayer example_unsupported 19 "img" "me" "/b" "/oci"
          example_world
        = (Err (Wrapped err
                  ("couldn't mknod whiteout for " +:+ Path missing_hosts)),
           remove_missing example_unsupported
             ([] ++ [Join ["/b/rootfs"; Path missing_hosts]]) w2)
    | (None, w2) =>
        diff_loop example_unsupported 19 "/b/rootfs"
          ([same_etc] ++ missing_hosts :: []) example_start example_world
        = diff_loop example_unsupported 19 "/b/rootfs" []
            (mkLoopState hosts_included
               ([] ++ [Join ["/b/rootfs"; Path missing_hosts]]) true)
            w2
    end.
Proof.
  assert (H1 : read_diffs example_unsupported "/b" example_world
               = Ok (mkMeta "2" (mkDescriptorPath [example_descriptor]),
                     "/b/sha256_aaaa.mtree", "/b/rootfs",
                     [same_etc] ++ missing_hosts :: []))
    by (vm_compute; reflexivity).
  assert (H2 : diff_loop example_unsupported 19 "/b/rootfs" [same_etc]
                 example_start example_world
               = (Ok (), mkLoopState etc_excluded [] false, example_world))
    by (vm_compute; reflexivity).
  assert (H3 : AddInclude 19 etc_excluded
                 (Join ["/b/rootfs"; Path missing_hosts])
                 (Old_IsDir missing_hosts) = Some hosts_included)
    by (vm_compute; reflexivity).
  assert (H4 : unix_Mknod example_unsupported
                 (Join ["/b/rootfs"; Path missing_hosts]) S_IFCHR (Mkdev 0 0)
                 example_world
               = (Some EOPNOTSUPP,
                  log_event
                    (EvMknod "/b/rootfs/etc/hosts" S_IFCHR 0 (Some EOPNOTSUPP))
                    example_world))
    by (vm_compute; reflexivity).
  assert (H5 : EOPNOTSUPP ≠ ENOENT) by discriminate.
  assert (H6 : EOPNOTSUPP ≠ ENOTDIR) by discriminate.
  split; [exact H1|]. split; [exact H2|]. split; [reflexivity|].
  split; [exact H3|]. split; [exact H4|]. split; [exact H5|].
  split; [exact H6|].
  exact (mknod_error_falls_back example_unsupported 19 "img" "me" "/b" "/oci"
           example_world _ _ _ [same_etc] [] missing_hosts
           (mkLoopState etc_excluded [] false) example_world hosts_included
           EOPNOTSUPP _ H1 H2 eq_refl H3 H4 H5 H6).
Defined.

(** C2, as stated, fails: [mknod] fails with EOPNOTSUPP (a file system without
    device nodes), which is neither
    permission denied nor ENOENT nor ENOTDIR, and [GenerateSquashfsLayer]
    creates the sidecar, goes on and returns success. *)
Lemma mknod_error_counterexample :
  EOPNOTSUPP ≠ EPERM ∧ EOPNOTSUPP ≠ EACCES ∧ EOPNOTSUPP ≠ ENOENT ∧ EOPNOTSUPP ≠ ENOTDIR
  ∧ (GenerateSquashfsLayer (example_deps [missing_hosts] (Some EOPNOTSUPP)) 19
       "img" "me" "/b" "/oci" example_world).1 = Ok ()
  ∧ EvMknod "/b/rootfs/etc/hosts" S_IFCHR (Mkdev 0 0) (Some EOPNOTSUPP)
    ∈ log (GenerateSquashfsLayer (example_deps [missing_hosts] (Some EOPNOTSUPP))
             19 "img" "me" "/b" "/oci" example_world).2
  ∧ EvCreate "/b/rootfs/etc/.wh.hosts" None
    ∈ log (GenerateSquashfsLayer (example_deps [missing_hosts] (Some EOPNOTSUPP))
             19 "img" "me" "/b" "/oci" example_world).2.
Proof.
  repeat (split; [discriminate|]).
  split; [vm_compute; reflexivity|].
  split.
  - apply list_elem_of_In. vm_compute. by left.
  - apply list_elem_of_In. vm_compute. right. by left.
Qed.

(** C8, as amended.  For every Missing diff entry at host path [p] whose
    device-node whiteout creation fails with permission denied, the include
    decision the encoder emits is the one for [p] itself, made before the
    [mknod] attempt; it then calls [os.Create] on the sidecar path
    [join(rootfs, dir(d), ".wh." + base(d))], which on success leaves an
    empty regular file there (unless a device node already sits at that
    path) and on failure is fatal.  No include decision is emitted for the
    sidecar path. *)
Theorem permission_denied_creates_sidecar (E : Deps) (fuel : nat)
    (rootfsPath : string) (d : InodeDelta) (st : LoopState) (w : World)
    (eps : ExcludePaths) (errno : Errno) (w1 : World) :
  Type_ d = Missing →
  AddInclude fuel (paths st) (Join [rootfsPath; Path d]) (Old_IsDir d)
  = Some eps →
  unix_Mknod E (Join [rootfsPath; Path d]) S_IFCHR (Mkdev 0 0) w
  = (Some errno, w1) →
  errno = EPERM ∨ errno = EACCES →
  ∃ created w2,
    os_Create E (whiteout_path rootfsPath (Path d)) w1 = (created, w2)
    ∧ diff_step E fuel rootfsPath d st w
      = (match created with
         | None => Ok ()
         | Some err =>
             Err (Wrapped err ("couldn't mknod whiteout for " +:+ Path d))
         end,
         mkLoopState eps (missing st ++ [Join [rootfsPath; Path d]]) true,
         w2)
    ∧ include eps = include (paths st) ++ [Join [rootfsPath; Path d]]
    ∧ (created = None →
       (∀ major minor, files w1 !! whiteout_path rootfsPath (Path d)
                       ≠ Some (CharDevice major minor)) →
       (∀ mode dev, files w1 !! whiteout_path rootfsPath (Path d)
                    ≠ Some (OtherNode mode dev)) →
       files w2 !! whiteout_path rootfsPath (Path d) = Some (RegularFile "")).
Proof.
  intros Hd Hinc Hmk Herrno.
  assert (errno ≠ ENOENT ∧ errno ≠ ENOTDIR) as [Hne1 Hne2]
    by (destruct Herrno as [-> | ->]; done).
  pose proof (diff_step_fallback E fuel rootfsPath d st w eps errno w1
                Hd Hinc Hmk Hne1 Hne2) as Hstep.
  destruct (os_Create E _ w1) as [created w2] eqn:Hcr.
  exists created, w2. split; [done|]. split; [by destruct created|].
  split; [by eapply AddInclude_include|].
  intros -> Hnodev Hnoother.
  apply os_Create_spec in Hcr as (e & He & _ & _ & _ & Hfiles).
  destruct e; [done|].
  destruct (files w1 !! _) as [[| | |]|] eqn:Hwh; rewrite Hfiles;
    try by rewrite lookup_insert_eq.
  - by destruct (Hnodev major minor).
  - by destruct (Hnoother mode dev).
Qed.

Lemma permission_denied_creates_sidecar_witness :
  Type_ missing_hosts = Missing
  ∧ AddInclude 19 NewExcludePaths (Join ["/b/rootfs"; Path missing_hosts])
      (Old_IsDir missing_hosts) = Some hosts_included
  ∧ unix_Mknod example_unprivileged (Join ["/b/rootfs"; Path missing_hosts])
      S_IFCHR (Mkdev 0 0) example_world
    = (Some EPERM,
       log_event (EvMknod "/b/rootfs/etc/hosts" S_IFCHR 0 (Some EPERM))
         example_world)
  ∧ (EPERM = EPERM ∨ EPERM = EACCES)
  ∧ ∃ created w2,
      os_Create example_unprivileged
        (whiteout_path "/b/rootfs" (Path missing_hosts))
        (log_event (EvMknod "/b/rootfs/etc/hosts" S_IFCHR 0 (Some EPERM))
           example_world) = (created, w2)
      ∧ diff_step example_unprivileged 19 "/b/rootfs" missing_hosts
          example_start example_world
        = (match created with
           | None => Ok ()
           | Some err =>
               Err (Wrapped err
                      ("couldn't mknod whiteout for " +:+ Path missing_hosts))
           end,
           mkLoopState hosts_included
             (missing example_start
              ++ [Join ["/b/rootfs"; Path missing_hosts]]) true,
           w2)
      ∧ include hosts_included
        = include (paths example_start)
          ++ [Join ["/b/rootfs"; Path missing_hosts]].
Proof.
  assert (H1 : AddInclude 19 (paths example_start)
                 (Join ["/b/rootfs"; Path missing_hosts])
                 (Old_IsDir missing_hosts) = Some hosts_included)
    by (vm_compute; reflexivity).
  assert (H2 : unix_Mknod example_unprivileged
                 (Join ["/b/rootfs"; Path missing_hosts]) S_IFCHR (Mkdev 0 0)
                 example_world
               = (Some EPERM,
                  log_event
                    (EvMknod "/b/rootfs/etc/hosts" S_IFCHR 0 (Some EPERM))
                    example_world))
    by (vm_compute; reflexivity).
  split; [reflexivity|]. split; [exact H1|]. split; [exact H2|].
  split; [by left|].
  destruct (permission_denied_creates_sidecar example_unprivileged 19
              "/b/rootfs" missing_hosts example_start example_world
              hosts_included EPERM _ eq_refl H1 H2 (or_introl eq_refl))
    as (created & w2 & Hcr & Hstep & Hinc & _).
  exists created, w2. split; [exact Hcr|]. split; [exact Hstep | exact Hinc].
Defined.

(** C8, as stated, fails: with [mknod] denied, the sidecar
    [/b/rootfs/etc/.wh.hosts] is created, but the include list holds the
    original path and not the sidecar path. *)
Lemma sidecar_include_counterexample :
  ∃ st w',
    diff_step (example_deps [missing_hosts] (Some EPERM)) 19 "/b/rootfs"
      missing_hosts (mkLoopState NewExcludePaths [] false) example_world
    = (Ok (), st, w')
    ∧ EvMknod "/b/rootfs/etc/hosts" S_IFCHR (Mkdev 0 0) (Some EPERM) ∈ log w'
    ∧ files w' !! "/b/rootfs/etc/.wh.hosts" = Some (RegularFile "")
    ∧ include (paths st) = ["/b/rootfs/etc/hosts"]
    ∧ "/b/rootfs/etc/.wh.hosts" ∉ include (paths st).
Proof.
  eexists _, _. split; [vm_compute; reflexivity|].
  split; [apply list_elem_of_In; vm_compute; by left|].
  split; [vm_compute; reflexivity|].
  split; [vm_compute; reflexivity|].
  simpl. intros H%list_elem_of_In. vm_compute in H. by destruct H.
Qed.

(** C9, as amended.  For every Missing diff entry, after the
    whiteout-encoding loop completes without a fatal error, either the
    entry's original host path is a character device with device numbers
    0/0, or the sidecar [.wh.] path for it exists, or the [mknod] for the
    entry failed with ENOENT or ENOTDIR, in which case the entry was skipped
    and has no whiteout of its own. *)
Theorem whiteout_after_loop (E : Deps) (fuel : nat) (rootfsPath : string)
    (diffs : list InodeDelta) (st : LoopState) (w : World)
    (st' : LoopState) (w' : World) (d : InodeDelta) :
  diff_loop E fuel rootfsPath diffs st w = (Ok (), st', w') →
  d ∈ diffs → Type_ d = Missing →
  files w' !! Join [rootfsPath; Path d] = Some (CharDevice 0 0)
  ∨ is_Some (files w' !! whiteout_path rootfsPath (Path d))
  ∨ ∃ e, (e = ENOENT ∨ e = ENOTDIR)
         ∧ EvMknod (Join [rootfsPath; Path d]) S_IFCHR (Mkdev 0 0) (Some e)
           ∈ log w'.
Proof.
  revert st w. induction diffs as [|d0 diffs IH]; intros st w Hloop Hin Hd.
  - by apply elem_of_nil in Hin.
  - simpl in Hloop.
    destruct (diff_step E fuel rootfsPath d0 st w) as [[r1 st1] w1] eqn:Hstep.
    destruct r1 as [[]| | |]; try done.
    apply elem_of_cons in Hin as [-> | Hin].
    + apply (whiteout_placed_grows rootfsPath d0 w1 w').
      * by eapply diff_loop_grows.
      * by eapply diff_step_missing.
    + by eapply IH.
Qed.

Lemma whiteout_after_loop_witness :
  diff_loop example_privileged 19 "/b/rootfs" [same_etc; missing_hosts]
    example_start example_world
  = (Ok (),
     mkLoopState hosts_included ["/b/rootfs/etc/hosts"] true,
     log_event (EvMknod "/b/rootfs/etc/hosts" S_IFCHR 0 None)
       (set_files (<["/b/rootfs/etc/hosts" := CharDevice 0 0]>
                     (files example_world)) example_world))
  ∧ missing_hosts ∈ [same_etc; missing_hosts]
  ∧ Type_ missing_hosts = Missing
  ∧ (files (log_event (EvMknod "/b/rootfs/etc/hosts" S_IFCHR 0 None)
              (set_files (<["/b/rootfs/etc/hosts" := CharDevice 0 0]>
                            (files example_world)) example_world))
       !! Join ["/b/rootfs"; Path missing_hosts] = Some (CharDevice 0 0)
     ∨ is_Some
         (files (log_event (EvMknod "/b/rootfs/etc/hosts" S_IFCHR 0 None)
                   (set_files (<["/b/rootfs/etc/hosts" := CharDevice 0 0]>
                                 (files example_world)) example_world))
            !! whiteout_path "/b/rootfs" (Path missing_hosts))
     ∨ ∃ e, (e = ENOENT ∨ e = ENOTDIR)
            ∧ EvMknod (Join ["/b/rootfs"; Path missing_hosts]) S_IFCHR
                (Mkdev 0 0) (Some e)
              ∈ log (log_event
                       (EvMknod "/b/rootfs/etc/hosts" S_IFCHR 0 None)
                       (set_files (<["/b/rootfs/etc/hosts" := CharDevice 0 0]>
                                     (files example_world)) example_world))).
Proof.
  assert (H1 : diff_loop example_privileged 19 "/b/rootfs"
                 [same_etc; missing_hosts] example_start example_world
               = (Ok (),
                  mkLoopState hosts_included ["/b/rootfs/etc/hosts"] true,
                  log_event (EvMknod "/b/rootfs/etc/hosts" S_IFCHR 0 None)
                    (set_files (<["/b/rootfs/etc/hosts" := CharDevice 0 0]>
                                  (files example_world)) example_world)))
    by (vm_compute; reflexivity).
  assert (H2 : missing_hosts ∈ [same_etc; missing_hosts])
    by (apply list_elem_of_further, list_elem_of_here).
  split; [exact H1|]. split; [exact H2|]. split; [reflexivity|].
  exact (whiteout_after_loop example_privileged 19 "/b/rootfs"
           [same_etc; missing_hosts] example_start example_world _ _
           missing_hosts H1 H2 eq_refl).
Defined.

(** C9, as stated, fails: when the parent of the deleted path is gone,
    [mknod] fails with ENOENT, the entry is skipped without error, and
    neither whiteout form exists after the loop. *)
Lemma whiteout_counterexample :
  ∃ st' w',
    diff_loop (example_deps [missing_hosts] (Some ENOENT)) 19 "/b/rootfs"
      [missing_hosts] (mkLoopState NewExcludePaths [] false) example_world
    = (Ok (), st', w')
    ∧ files w' !! "/b/rootfs/etc/hosts" = None
    ∧ files w' !! "/b/rootfs/etc/.wh.hosts" = None.
Proof.
  eexists _, _. split; [vm_compute; reflexivity|].
  split; vm_compute; reflexivity.
Qed.

(** ** ExtractSingleSquash *)

Section extract.
Context (E : Deps).

Lemma first_executable_none w search :
  (∀ f, f ∈ search → Access_X_OK w f = false) →
  first_executable w search = "".
Proof.
  induction search as [|f search IH]; intros Hno; simpl; [done|].
  rewrite (Hno f) by apply list_elem_of_here.
  apply IH. intros g Hg. apply Hno. by apply list_elem_of_further.
Qed.

(** A bare name that no directory of PATH holds as an executable is not
    found. *)
Lemma which_not_found w name :
  ContainsByte name slash = false →
  (∀ dir, dir ∈ SplitByte ":"%char (PATH w) →
          Access_X_OK w (Join [dir; name]) = false) →
  which w name = "".
Proof.
  intros Hbare Hno. unfold which, whichSearch. rewrite Hbare.
  apply first_executable_none.
  intros f (dir & -> & Hdir)%list_elem_of_fmap. by apply Hno.
Qed.

Lemma mkdir_all_made w fuel p fs fs' :
  mkdir_all E w fuel p fs = (None, fs') → fs' !! p = Some Directory.
Proof.
  destruct fuel as [|fuel]; cbn [mkdir_all];
    destruct (fs !! p) as [[| | |]|] eqn:Hp; try done;
    try (by intros [= <-]);
    destruct (mkdir_parent p) as [parent|];
    try destruct (mkdir_all E w fuel parent fs) as [[[f e]|] fs1];
    try done;
    (destruct (mkdir_errno E w p); [done|]); intros [= <-];
    apply lookup_insert_eq.
Qed.

Lemma MkdirAll_spec p w res w' :
  MkdirAll E p w = (res, w') →
  PATH w' = PATH w ∧ executable w' = executable w
  ∧ metas w' = metas w ∧ store w' = store w
  ∧ match res with
    | None => files w' !! p = Some Directory
              ∧ log w' = log w ++ [EvMkdirAll p None]
    | Some _ => True
    end.
Proof.
  unfold MkdirAll.
  destruct (mkdir_all E w (String.length p) p (files w)) as [[[f e]|] fs]
    eqn:Hmk; intros [= <- <-]; [done|].
  repeat split. by eapply mkdir_all_made.
Qed.
End extract.

(** C3, as amended.  If the storage-backend tag is btrfs and no executable
    named squashtool is found on PATH, [ExtractSingleSquash] first makes the
    extract directory ([os.MkdirAll]); when that fails it returns that
    error, and otherwise it returns a hard error whose message names
    squashtool and its source URL, runs no command, and leaves the extract
    directory it has made in place. *)
Theorem squashtool_missing_is_an_error (E : Deps)
    (squashFile extractDir storageType : string) (w : World) :
  storageType = "btrfs" →
  (∀ dir, dir ∈ SplitByte ":"%char (PATH w) →
          Access_X_OK w (Join [dir; "squashtool"]) = false) →
  Contains squashtool_missing "squashtool" = true
  ∧ Contains squashtool_missing "https://github.com/anuvu/squashfs" = true
  ∧ match MkdirAll E extractDir w with
    | (Some err, w1) =>
        ExtractSingleSquash E squashFile extractDir storageType w
        = (Some err, w1)
    | (None, w1) =>
        ExtractSingleSquash E squashFile extractDir storageType w
        = (Some (Errorf squashtool_missing), w1)
        ∧ files w1 !! extractDir = Some Directory
        ∧ log w1 = log w ++ [EvMkdirAll extractDir None]
    end.
Proof.
  intros -> Hno. split; [reflexivity|]. split; [reflexivity|].
  unfold ExtractSingleSquash.
  destruct (MkdirAll E extractDir w) as [[err|] w1] eqn:Hmk; [done|].
  apply MkdirAll_spec in Hmk as (HPATH & Hexec & _ & _ & Hdir & Hlog).
  rewrite decide_True by done.
  rewrite which_not_found; [done | done |].
  intros dir Hdir'. unfold Access_X_OK. rewrite Hexec.
  rewrite HPATH in Hdir'. by apply Hno.
Qed.

Lemma squashtool_missing_is_an_error_witness :
  "btrfs" = "btrfs"
  ∧ (∀ dir, dir ∈ SplitByte ":"%char (PATH example_world) →
            Access_X_OK example_world (Join [dir; "squashtool"]) = false)
  ∧ match MkdirAll (example_deps [] None) "/x/y" example_world with
    | (Some err, w1) =>
        ExtractSingleSquash (example_deps [] None) "/oci/blob" "/x/y"
          "btrfs" example_world = (Some err, w1)
    | (None, w1) =>
        ExtractSingleSquash (example_deps [] None) "/oci/blob" "/x/y"
          "btrfs" example_world = (Some (Errorf squashtool_missing), w1)
        ∧ files w1 !! "/x/y" = Some Directory
        ∧ log w1 = log example_world ++ [EvMkdirAll "/x/y" None]
    end.
Proof.
  assert (Hno : ∀ dir, dir ∈ SplitByte ":"%char (PATH example_world) →
                  Access_X_OK example_world (Join [dir; "squashtool"]) = false).
  { intros dir Hdir. apply list_elem_of_In in Hdir. vm_compute in Hdir.
    destruct Hdir as [<- | [<- | []]]; vm_compute; reflexivity. }
  split; [reflexivity|]. split; [exact Hno|].
  exact (proj2 (proj2 (squashtool_missing_is_an_error (example_deps [] None)
                         "/oci/blob" "/x/y" "btrfs" example_world eq_refl
                         Hno))).
Defined.

(** C3, as stated, fails: the call returns the squashtool error, yet it has
    created the extract directory, which did not exist before. *)
Lemma extract_directory_counterexample :
  (ExtractSingleSquash (example_deps [] None) "/oci/blob" "/x/y" "btrfs"
     example_world).1 = Some (Errorf squashtool_missing)
  ∧ which example_world "squashtool" = ""
  ∧ files example_world !! "/x/y" = None
  ∧ files (ExtractSingleSquash (example_deps [] None) "/oci/blob" "/x/y"
             "btrfs" example_world).2 !! "/x/y" = Some Directory.
Proof. repeat split; vm_compute; reflexivity. Qed.

(** ** MakeSquashfs *)

Section make_squashfs.
Context (E : Deps).

Lemma render_keys_nonempty keys : render_keys keys ≠ "".
Proof. destruct keys as [|k keys]; [done|]. simpl. by destruct k. Qed.


Lemma HasSuffix_app a b suffix :
  HasSuffix b suffix = true → HasSuffix (a +:+ b) suffix = true.
Proof.
  intros Hb. induction a as [|c a IH]; [done|]. simpl.
  rewrite IH. apply orb_true_r.
Qed.

Lemma render_keys_suffix keys : HasSuffix (render_keys keys) newline = true.
Proof.
  induction keys as [|k keys IH]; [done|]. cbn [render_keys].
  apply HasSuffix_app. by apply HasSuffix_app.
Qed.


End make_squashfs.


(** ** The layer's descriptor and manifest *)

Section layer.
Context (E : Deps).

(** Reduces the projections and matches a destructed call leaves behind,
    without unfolding any call. *)
Ltac reduce_pairs := cbv beta iota zeta delta [fst snd].

Lemma os_Remove_spec p w res w' :
  os_Remove E p w = (res, w') →
  store w' = store w ∧ metas w' = metas w
  ∧ (∀ q, q ≠ p → files w' !! q = files w !! q)
  ∧ (∀ ev, ev ∈ log w → ev ∈ log w').
Proof.
  unfold os_Remove.
  match goal with |- context [EvRemove p ?r] => generalize r end.
  intros [e|] [= <- <-]; cbn; split_and!; try done.
  - intros ev Hev. apply elem_of_app. by left.
  - intros q Hq. by rewrite lookup_delete_ne.
  - intros ev Hev. apply elem_of_app. by left.
Qed.

Lemma remove_missing_spec missing : ∀ w,
  store (remove_missing E missing w) = store w
  ∧ metas (remove_missing E missing w) = metas w
  ∧ (∀ q, q ∉ missing → files (remove_missing E missing w) !! q = files w !! q)
  ∧ (∀ ev, ev ∈ log w → ev ∈ log (remove_missing E missing w)).
Proof.
  induction missing as [|p missing IH]; intros w; [done|].
  unfold remove_missing in *. cbn [fold_left].
  destruct (IH (os_Remove E p w).2) as (Hs & Hm & Hf & Hl).
  destruct (os_Remove E p w) as [res w1] eqn:Hrm.
  change ((res, w1).2) with w1 in *.
  apply os_Remove_spec in Hrm as (Hs' & Hm' & Hf' & Hl').
  rewrite Hs, Hm, Hs', Hm'. split_and!; try done.
  - intros q Hq. rewrite Hf, Hf'; [done | |].
    + intros ->. apply Hq, list_elem_of_here.
    + intros Hin. by apply Hq, list_elem_of_further.
  - intros ev Hev. by apply Hl, Hl'.
Qed.

Lemma TempFile_db dir pattern w res w' :
  TempFile E dir pattern w = (res, w') →
  store w' = store w ∧ metas w' = metas w.
Proof.
  unfold TempFile.
  match goal with |- context [EvTempFile dir pattern ?r] => generalize r end.
  by intros [e|nm] [= <- <-].
Qed.

Lemma WriteString_db p text w res w' :
  WriteString E p text w = (res, w') →
  store w' = store w ∧ metas w' = metas w.
Proof.
  unfold WriteString. destruct (write_errno E w p text); by intros [= <- <-].
Qed.

Lemma Exec_db argv w res w' :
  Exec E argv w = (res, w') → store w' = store w ∧ metas w' = metas w.
Proof.
  unfold Exec. destruct (exec_result E w argv); by intros [= <- <-].
Qed.

Lemma MakeSquashfs_image_db tempdir rootfs toExclude excludesFile deferred w
    res w' :
  (∀ w0, store (deferred w0) = store w0 ∧ metas (deferred w0) = metas w0) →
  MakeSquashfs_image E tempdir rootfs toExclude excludesFile deferred w
  = (res, w') →
  store w' = store w ∧ metas w' = metas w.
Proof.
  intros Hdef. unfold MakeSquashfs_image.
  destruct (TempFile E tempdir "stacker-squashfs-img-" w)
    as [[e|img] w1] eqn:H1; apply TempFile_db in H1 as [Hs1 Hm1].
  - intros [= <- <-]. destruct (Hdef w1) as [-> ->]. by rewrite Hs1, Hm1.
  - destruct (os_Remove E img w1) as [r2 w2] eqn:H2. reduce_pairs.
    apply os_Remove_spec in H2 as (Hs2 & Hm2 & _).
    destruct (Exec E _ w2) as [r3 w3] eqn:H3.
    apply Exec_db in H3 as [Hs3 Hm3].
    destruct (os_Remove E img w3) as [r4 w4] eqn:H4. reduce_pairs.
    apply os_Remove_spec in H4 as (Hs4 & Hm4 & _).
    destruct (Hdef w4) as [Hs5 Hm5].
    destruct r3; intros [= <- <-];
      by rewrite Hs5, Hm5, Hs4, Hm4, Hs3, Hm3, Hs2, Hm2, Hs1, Hm1.
Qed.

(** [MakeSquashfs] touches neither the content store nor the bundle meta. *)
Lemma MakeSquashfs_db tempdir rootfs eps w res w' :
  MakeSquashfs E tempdir rootfs eps w = (res, w') →
  store w' = store w ∧ metas w' = metas w.
Proof.
  unfold MakeSquashfs. reduce_pairs. case_decide.
  - destruct (TempFile E tempdir "stacker-squashfs-exclude-" w)
      as [[e|excludes] w1] eqn:H1; apply TempFile_db in H1 as [Hs1 Hm1].
    { by intros [= <- <-]. }
    destruct (WriteString E excludes _ w1) as [[e|] w2] eqn:H2;
      apply WriteString_db in H2 as [Hs2 Hm2].
    + destruct (os_Remove E excludes w2) as [r3 w3] eqn:H3. reduce_pairs.
      apply os_Remove_spec in H3 as (Hs3 & Hm3 & _).
      intros [= <- <-]. by rewrite Hs3, Hm3, Hs2, Hm2.
    + intros [Hs3 Hm3]%MakeSquashfs_image_db.
      * by rewrite Hs3, Hm3, Hs2, Hm2.
      * intros w0. destruct (os_Remove E excludes w0) as [r w0'] eqn:Hr.
        reduce_pairs. by apply os_Remove_spec in Hr as (-> & -> & _).
  - by apply MakeSquashfs_image_db.
Qed.

Lemma diff_step_ok fuel rootfsPath d st w st' w' :
  diff_step E fuel rootfsPath d st w = (Ok (), st', w') →
  missing st' = missing st ++ missing_paths rootfsPath [d]
  ∧ needsLayer st' = needsLayer st || changes d
  ∧ store w' = store w ∧ metas w' = metas w.
Proof.
  unfold diff_step, changes. cbn [missing_paths]. destruct (Type_ d).
  - destruct (AddInclude _ _ _ _); [|done].
    destruct (unix_Mknod E _ _ _ w) as [[errno|] w1] eqn:Hmk;
      apply unix_Mknod_spec in Hmk as (_ & Hm & Hs & _).
    + destruct (negb _ && negb _).
      * destruct (os_Create E _ w1) as [[err|] w2] eqn:Hcr; [done|].
        apply os_Create_spec in Hcr as (? & _ & _ & Hm' & Hs' & _).
        intros [= <- <-]. cbn. rewrite orb_true_r, Hm', Hs'. done.
      * intros [= <- <-]. cbn. by rewrite orb_true_r.
    + intros [= <- <-]. cbn. by rewrite orb_true_r.
  - destruct (AddInclude _ _ _ _); [|done]. intros [= <- <-]. cbn.
    by rewrite app_nil_r, orb_true_r.
  - destruct (AddInclude _ _ _ _); [|done]. intros [= <- <-]. cbn.
    by rewrite app_nil_r, orb_true_r.
  - intros [= <- <-]. cbn. by rewrite app_nil_r, orb_false_r.
  - intros [= <- <-]. cbn. by rewrite app_nil_r, orb_false_r.
Qed.

Lemma missing_paths_cons rootfsPath d diffs :
  missing_paths rootfsPath (d :: diffs)
  = missing_paths rootfsPath [d] ++ missing_paths rootfsPath diffs.
Proof. cbn [missing_paths]. by destruct (Type_ d). Qed.

(** A loop that completes has recorded the paths of the Missing diffs, and
    needs a layer when a diff is a change. *)
Lemma diff_loop_ok fuel rootfsPath diffs : ∀ st w st' w',
  diff_loop E fuel rootfsPath diffs st w = (Ok (), st', w') →
  missing st' = missing st ++ missing_paths rootfsPath diffs
  ∧ needsLayer st' = needsLayer st || existsb changes diffs
  ∧ store w' = store w ∧ metas w' = metas w.
Proof.
  induction diffs as [|d diffs IH]; intros st w st' w'.
  - cbn. intros [= <- <-]. by rewrite app_nil_r, orb_false_r.
  - cbn [diff_loop].
    destruct (diff_step E fuel rootfsPath d st w) as [[r1 st1] w1] eqn:Hstep.
    destruct r1 as [[]| | |]; try done.
    apply diff_step_ok in Hstep as (Hm1 & Hn1 & Hs1 & Hme1).
    intros (Hm2 & Hn2 & Hs2 & Hme2)%IH.
    rewrite Hm2, Hn2, Hs2, Hme2, Hm1, Hn1, Hs1, Hme1.
    rewrite (missing_paths_cons rootfsPath d diffs). cbn [existsb].
    split_and!; [by rewrite <- app_assoc | by rewrite orb_assoc | done..].
Qed.
End layer.

(** C5.  After a successful layer generation the persisted bundle meta's
    [from.Walk] is the one-element sequence holding the descriptor the
    content store returned, but the manifest file is not named with that
    descriptor's digest and the suffix [.mtree]: [GenerateSquashfsLayer]
    appends [.mtree] to the name and passes it to
    [umoci.GenerateBundleManifest], which appends the suffix again.  On the
    example bundle, whose new layer has the digest [sha256:bbbb], the call
    succeeds and leaves [/b/sha256_bbbb.mtree.mtree]; there is no
    [/b/sha256_bbbb.mtree], which is the file the next call opens first, so
    the next call on the bundle fails with ["opening mtree"]. *)
Theorem manifest_name_doubles_the_suffix :
  (GenerateSquashfsLayer example_privileged 19 "img" "me" "/b" "/oci"
     example_world).1 = Ok ()
  ∧ metas example_generated !! "/b"
    = Some (mkMeta "2" (mkDescriptorPath [example_layer]))
  ∧ Join ["/b"; mtree_name (Digest example_layer) +:+ ".mtree"]
    = "/b/sha256_bbbb.mtree"
  ∧ files example_generated !! "/b/sha256_bbbb.mtree" = None
  ∧ files example_generated !! "/b/sha256_bbbb.mtree.mtree"
    = Some (RegularFile "#mtree v2.0")
  ∧ GenerateSquashfsLayer example_privileged 19 "img" "me" "/b" "/oci"
      example_generated
    = (Err (Wrapped (PathError "open" "/b/sha256_bbbb.mtree" ENOENT)
              "opening mtree"),
       example_generated).
Proof. repeat split; vm_compute; reflexivity. Qed.

(** After every successful layer generation (a call that returns success
    on diffs of which one is a change), the content store has the new blob,
    the persisted bundle meta's [from.Walk] is exactly the one-element
    sequence holding the descriptor the content store returned for it, and
    the manifest was written under the digest's name with the suffix
    [.mtree] twice. *)
Theorem successful_layer_updates_meta_and_store (E : Deps) (fuel : nat)
    (name author bundlepath ocidir : string) (w w' : World) (meta : Meta)
    (mtreePath rootfsPath : string) (diffs : list InodeDelta) :
  read_diffs E bundlepath w = Ok (meta, mtreePath, rootfsPath, diffs) →
  existsb changes diffs = true →
  GenerateSquashfsLayer E fuel name author bundlepath ocidir w = (Ok (), w') →
  ∃ desc blob w2 text,
    add_blob_result E w2 name blob = inr desc
    ∧ store w' = store w ++ [(name, blob)]
    ∧ metas w' !! bundlepath
      = Some (mkMeta (Version meta) (mkDescriptorPath [desc]))
    ∧ EvWriteFile
        (Join [bundlepath; mtree_name (Digest desc) +:+ ".mtree" +:+ ".mtree"])
        text ∈ log w'.
Proof.
  intros Hread Hchange. unfold GenerateSquashfsLayer. rewrite Hread.
  destruct (diff_loop E fuel rootfsPath diffs
              (mkLoopState NewExcludePaths [] false) w)
    as [[looped st] w1] eqn:Hloop.
  destruct looped as [[]| | |]; try by intros [= ].
  apply diff_loop_ok in Hloop as (Hmissing & Hneeds & Hs1 & Hm1).
  cbn in Hmissing, Hneeds. rewrite Hchange in Hneeds. rewrite Hneeds.
  cbn [negb]. cbv iota. unfold write_layer.
  destruct (MakeSquashfs E ocidir rootfsPath (Some (paths st)) w1)
    as [[e|blob] w2] eqn:Hmk; [by intros [= ]|].
  apply MakeSquashfs_db in Hmk as [Hs2 Hm2].
  unfold AddBlobNoCompression.
  destruct (add_blob_result E w2 name blob) as [e|desc] eqn:Hadd;
    [by intros [= ]|].
  unfold GenerateBundleManifest.
  destruct (manifest_result E _ _ bundlepath) as [e|text]; [by intros [= ]|].
  destruct (os_Remove E mtreePath _) as [r4 w4] eqn:Hrm.
  cbv beta iota zeta delta [fst snd].
  apply os_Remove_spec in Hrm as (Hs4 & Hm4 & Hf4 & Hl4).
  unfold WriteBundleMeta.
  destruct (write_meta_error E w4 bundlepath _) as [e|]; [by intros [= ]|].
  intros [= <-].
  destruct (remove_missing_spec E (missing st)
              (set_metas (<[bundlepath :=
                              mkMeta (Version meta) (mkDescriptorPath [desc])]>
                            (metas w4)) w4)) as (Hs5 & Hm5 & Hf5 & Hl5).
  exists desc, blob, w2, text. split; [done|]. split_and!.
  - rewrite Hs5. cbn. rewrite Hs4. cbn. by rewrite Hs2, Hs1.
  - rewrite Hm5. cbn. apply lookup_insert_eq.
  - apply Hl5. cbn. apply Hl4. cbn. apply elem_of_app. right.
    rewrite append_assoc. apply list_elem_of_here.
Qed.

Lemma successful_layer_updates_meta_and_store_witness :
  read_diffs example_privileged "/b" example_world
  = Ok (mkMeta "2" (mkDescriptorPath [example_descriptor]),
        "/b/sha256_aaaa.mtree", "/b/rootfs", [same_etc; missing_hosts])
  ∧ existsb changes [same_etc; missing_hosts] = true
  ∧ GenerateSquashfsLayer example_privileged 19 "img" "me" "/b" "/oci"
      example_world = (Ok (), example_generated)
  ∧ ∃ desc blob w2 text,
      add_blob_result example_privileged w2 "img" blob = inr desc
      ∧ store example_generated = store example_world ++ [("img", blob)]
      ∧ metas example_generated !! "/b"
        = Some (mkMeta "2" (mkDescriptorPath [desc]))
      ∧ EvWriteFile
          (Join ["/b"; mtree_name (Digest desc) +:+ ".mtree" +:+ ".mtree"])
          text ∈ log example_generated.
Proof.
  assert (H1 : read_diffs example_privileged "/b" example_world
               = Ok (mkMeta "2" (mkDescriptorPath [example_descriptor]),
                     "/b/sha256_aaaa.mtree", "/b/rootfs",
                     [same_etc; missing_hosts]))
    by (vm_compute; reflexivity).
  assert (H2 : existsb changes [same_etc; missing_hosts] = true)
    by reflexivity.
  assert (H3 : GenerateSquashfsLayer example_privileged 19 "img" "me" "/b"
                 "/oci" example_world = (Ok (), example_generated))
    by (vm_compute; reflexivity).
  split; [exact H1|]. split; [exact H2|]. split; [exact H3|].
  exact (successful_layer_updates_meta_and_store example_privileged 19 "img"
           "me" "/b" "/oci" example_world example_generated _ _ _ _ H1 H2 H3).
Defined.

(** ** The sidecar path lies beside the deleted path *)

Section sidecar.
Lemma fold_clean_skipped rooted es out :
  Forall skipped es → fold_left (clean_step rooted) es out = out.
Proof.
  revert out. induction es as [|e es IH]; intros out Hes; [done|].
  inversion Hes as [|? ? He Hes']; subst. cbn [fold_left].
  rewrite <- (IH out Hes') at 2. f_equal.
  unfold clean_step. destruct He as [-> | ->]; reflexivity.
Qed.

Lemma clean_step_proper_rel rooted out e :
  proper e → clean_step rooted out e = e :: out.
Proof.
  intros (H1 & H2 & H3 & _). unfold clean_step. by rewrite !decide_False.
Qed.

Lemma fold_clean_proper_rel rooted cs out :
  Forall proper cs → fold_left (clean_step rooted) cs out = rev cs ++ out.
Proof.
  revert out. induction cs as [|c cs IH]; intros out Hcs; [done|].
  inversion Hcs; subst. cbn [fold_left].
  rewrite clean_step_proper_rel by done.
  rewrite IH by done. cbn [rev]. by rewrite <- app_assoc.
Qed.

Lemma proper_not_abs c rest : proper c → IsAbs (c +:+ rest) = false.
Proof.
  intros (Hne & _ & _ & Hns). destruct c as [|a c]; [done|].
  unfold IsAbs, noslash in *. cbn in *.
  destruct (decide (a = slash)) as [Ha|Ha]; [done|].
  by destruct (decide ("/"%char = a)) as [<-|].
Qed.

(** [path.Clean] on a relative path of proper elements followed by
    dropped ones. *)
Lemma Clean_relative cs skip :
  Forall proper cs → cs ≠ [] → Forall skipped skip →
  Clean (JoinSlash (cs ++ skip)) = JoinSlash cs.
Proof.
  intros Hcs Hne Hskip.
  assert (Forall noslash (cs ++ skip)) as Hns.
  { apply Forall_app. split; [by apply proper_noslash|].
    eapply Forall_impl; [exact Hskip|]. by intros e [-> | ->]. }
  assert (cs ++ skip ≠ []) as Hne' by (by destruct cs).
  unfold Clean.
  assert (JoinSlash (cs ++ skip) ≠ "") as Hnonempty.
  { destruct cs as [|c cs]; [done|]. inversion Hcs as [|? ? (Hc & _) _]; subst.
    cbn [app]. destruct (cs ++ skip); cbn; by destruct c. }
  rewrite decide_False by done.
  assert (IsAbs (JoinSlash (cs ++ skip)) = false) as ->.
  { destruct cs as [|c cs]; [done|]. inversion Hcs; subst. cbn [app].
    destruct (cs ++ skip) eqn:E.
    - cbn. rewrite <- (append_nil_r c). by apply proper_not_abs.
    - rewrite JoinSlash_cons by done. by apply proper_not_abs. }
  rewrite SplitByte_JoinSlash by done.
  rewrite fold_left_app, (fold_clean_proper_rel false cs), app_nil_r by done.
  rewrite fold_clean_skipped by done.
  destruct (rev cs) eqn:E.
  - apply rev_eq_nil in E. done.
  - rewrite <- E. by rewrite rev_involutive.
Qed.

(** [path.Clean] on a rooted path whose elements are proper or dropped. *)
Lemma Clean_rooted_skipping es :
  Forall (λ e, proper e ∨ skipped e) es →
  Clean (String slash (JoinSlash es)) = render (filter proper es).
Proof.
  intros Hes. rewrite Clean_rooted.
  - f_equal. rewrite <- (rev_involutive (filter proper es)). f_equal.
    rewrite <- (app_nil_r (rev (filter proper es))).
    generalize (@nil string) as out.
    induction es as [|e es IH]; intros out; [done|].
    inversion Hes as [|? ? He Hes']; subst. cbn [fold_left].
    rewrite IH by done. destruct He as [He | He].
    + rewrite clean_step_proper_rel by done.
      rewrite filter_cons_True by done. cbn [rev].
      by rewrite <- app_assoc.
    + rewrite filter_cons_False.
      * f_equal. unfold clean_step. destruct He as [-> | ->]; reflexivity.
      * intros (H1 & H2 & _). by destruct He.
  - eapply Forall_impl; [exact Hes|].
    intros e [(_ & _ & _ & He) | [-> | ->]]; done.
Qed.
End sidecar.

Section sidecar_path.
Lemma strip_trailing_noslash c :
  noslash c → strip_trailing_slashes c = c.
Proof.
  unfold noslash. induction c as [|d c IH]; [done|].
  cbn [strip_trailing_slashes ContainsByte].
  destruct (decide (d = slash)) as [|Hd]; [done|].
  intros Hc. rewrite IH by done. by destruct c.
Qed.

Lemma strip_trailing_app a c :
  c ≠ "" → noslash c → strip_trailing_slashes (a +:+ c) = a +:+ c.
Proof.
  intros Hne Hc. induction a as [|d a IH].
  - by apply strip_trailing_noslash.
  - cbn. rewrite IH. destruct (a +:+ c) eqn:E; [|done].
    destruct a; cbn in E; [done | discriminate].
Qed.

Lemma drop_app_S x d y :
  drop (String.length x + 1) (x +:+ String d y) = y.
Proof. induction x as [|a x IH]; cbn; [by destruct y | done]. Qed.

(** [path.Base] of a path that ends in a proper element. *)
Lemma Base_app x c : proper c → Base (x +:+ String slash c) = c.
Proof.
  intros (Hne & _ & _ & Hns). unfold Base.
  rewrite decide_False by by destruct x.
  change (x +:+ String slash c) with (x +:+ (String slash "" +:+ c)).
  rewrite <- append_assoc, strip_trailing_app by done.
  rewrite append_assoc. cbn [String.append].
  unfold Split. cbn [snd]. rewrite LastIndexByte_app by done.
  replace (Z.to_nat (Z.of_nat (String.length x) + 1))
    with (String.length x + 1) by lia.
  rewrite drop_app_S. by rewrite decide_False.
Qed.

Lemma Base_proper c : proper c → Base c = c.
Proof.
  intros (Hne & _ & _ & Hns). unfold Base. rewrite decide_False by done.
  rewrite strip_trailing_noslash by done.
  unfold Split. cbn [snd]. rewrite LastIndexByte_noslash by done.
  cbn. by rewrite decide_False.
Qed.

Lemma whiteout_name_proper c : proper c → proper (".wh." +:+ c).
Proof.
  intros (_ & _ & _ & Hns). unfold proper, noslash in *. by cbn.
Qed.

Lemma render_root_elems rs : render rs = String slash (JoinSlash (root_elems rs)).
Proof. by destruct rs. Qed.

Lemma filter_proper_id cs : Forall proper cs → filter proper cs = cs.
Proof.
  induction cs as [|c cs IH]; [done|]. intros Hcs.
  inversion Hcs; subst. rewrite filter_cons_True by done. by rewrite IH.
Qed.

Lemma filter_proper_skipped ys : Forall skipped ys → filter proper ys = [].
Proof.
  induction ys as [|y ys IH]; [done|]. intros Hys.
  inversion Hys as [|? ? Hy Hys']; subst. rewrite filter_cons_False; [by apply IH|].
  intros (H1 & H2 & _). by destruct Hy.
Qed.

(** [path.Join] of a clean absolute path and a relative path of proper and
    dropped elements. *)
Lemma Join_render rs ys :
  Forall proper rs → Forall (λ e, proper e ∨ skipped e) ys → ys ≠ [] →
  Join [render rs; JoinSlash ys] = render (rs ++ filter proper ys).
Proof.
  intros Hrs Hys Hne. unfold Join. cbn [drop_empty].
  rewrite decide_False by done.
  change (JoinSlash [render rs; JoinSlash ys])
    with (render rs +:+ String slash (JoinSlash ys)).
  rewrite render_root_elems. cbn [String.append].
  rewrite <- JoinSlash_app by by destruct rs.
  rewrite Clean_rooted_skipping.
  - f_equal. rewrite filter_app. f_equal. destruct rs as [|r rs]; [done|].
    by apply filter_proper_id.
  - apply Forall_app. split; [|done]. destruct rs as [|r rs].
    + constructor; [right; by left | constructor].
    + eapply Forall_impl; [exact Hrs|]. by left.
Qed.

Lemma Join_render3 rs ys zs :
  Forall proper rs → Forall (λ e, proper e ∨ skipped e) ys → ys ≠ [] →
  Forall (λ e, proper e ∨ skipped e) zs → zs ≠ [] →
  Join [render rs; JoinSlash ys; JoinSlash zs]
  = render (rs ++ filter proper ys ++ filter proper zs).
Proof.
  intros Hrs Hys Hney Hzs Hnez.
  rewrite <- filter_app, <- Join_render;
    [|done | by apply Forall_app | by destruct ys].
  unfold Join. cbn [drop_empty]. rewrite !decide_False by done.
  f_equal. rewrite JoinSlash_app by done. done.
Qed.

(** [path.Dir] of a relative path of proper elements: the path without its
    last element, or [.]. *)
Lemma Dir_relative ds c :
  Forall proper (ds ++ [c]) →
  Dir (JoinSlash (ds ++ [c])) = JoinSlash (match ds with [] => ["."] | _ => ds end).
Proof.
  intros [Hds Hc]%Forall_app. inversion Hc as [|? ? (_ & _ & _ & Hns) _]; subst.
  unfold Dir. destruct (decide (ds = [])) as [->|Hne].
  - cbn [app JoinSlash]. unfold Split. rewrite LastIndexByte_noslash by done.
    cbn. by destruct c.
  - rewrite JoinSlash_app by done. cbn [JoinSlash].
    rewrite Split_app by done.
    change (JoinSlash ds +:+ "/")
      with (JoinSlash ds +:+ String slash (JoinSlash [""])).
    rewrite <- JoinSlash_app by done.
    rewrite Clean_relative; [by destruct ds | done | done |].
    constructor; [by left | constructor].
Qed.

(** The sidecar whiteout lies in the directory of the deleted path, under
    its base name with [.wh.] in front. *)
Lemma whiteout_path_beside rs ds c :
  Forall proper rs → Forall proper (ds ++ [c]) →
  Join [render rs; JoinSlash (ds ++ [c])] = render (rs ++ ds ++ [c])
  ∧ whiteout_path (render rs) (JoinSlash (ds ++ [c]))
    = Join [Dir (Join [render rs; JoinSlash (ds ++ [c])]);
            ".wh." +:+ Base (Join [render rs; JoinSlash (ds ++ [c])])]
  ∧ whiteout_path (render rs) (JoinSlash (ds ++ [c]))
    = render (rs ++ ds ++ [".wh." +:+ c]).
Proof.
  intros Hrs Hdc. pose proof Hdc as [Hds Hc]%Forall_app.
  inversion Hc as [|? ? Hc' _]; subst.
  assert (Join [render rs; JoinSlash (ds ++ [c])] = render (rs ++ ds ++ [c]))
    as Hp.
  { rewrite Join_render; [by rewrite filter_proper_id | done | | by destruct ds].
    eapply Forall_impl; [exact Hdc|]. by left. }
  assert (whiteout_path (render rs) (JoinSlash (ds ++ [c]))
          = render (rs ++ ds ++ [".wh." +:+ c])) as Hwh.
  { unfold whiteout_path. rewrite Dir_relative by done.
    assert (Base (JoinSlash (ds ++ [c])) = c) as ->.
    { destruct (decide (ds = [])) as [->|Hne]; [by apply Base_proper|].
      rewrite JoinSlash_app by done. by apply Base_app. }
    change (".wh." +:+ c) with (JoinSlash [".wh." +:+ c]) at 1.
    rewrite Join_render3; [| done | | by destruct ds | | done].
    - rewrite (filter_proper_id [_]) by (constructor; [by apply whiteout_name_proper | constructor]).
      do 2 f_equal. destruct ds as [|d ds]; [done|]. by rewrite filter_proper_id.
    - destruct ds as [|d ds].
      + constructor; [right; by right | constructor].
      + eapply Forall_impl; [exact Hds|]. by left.
    - constructor; [left; by apply whiteout_name_proper | constructor]. }
  split; [done|]. split; [|done].
  rewrite Hwh, Hp.
  replace (rs ++ ds ++ [c]) with ((rs ++ ds) ++ [c]) by by rewrite <- app_assoc.
  rewrite Dir_render_snoc by (rewrite <- app_assoc; by apply Forall_app).
  assert (Base (render ((rs ++ ds) ++ [c])) = c) as ->.
  { destruct (render_last (rs ++ ds) c) as [x Hx].
    destruct (decide (rs ++ ds = [])) as [->|Hne].
    - change (render ([] ++ [c])) with ("" +:+ String slash c). by apply Base_app.
    - rewrite render_snoc by done. by apply Base_app. }
  change (".wh." +:+ c) with (JoinSlash [".wh." +:+ c]) at 2.
  rewrite Join_render.
  - rewrite (filter_proper_id [_]) by (constructor; [by apply whiteout_name_proper | constructor]).
    by rewrite <- app_assoc.
  - by apply Forall_app.
  - constructor; [left; by apply whiteout_name_proper | constructor].
  - done.
Qed.
End sidecar_path.

(** ** Further properties of the path algebra *)

Section relative.
Lemma elem_not_abs c rest : c ≠ "" → noslash c → IsAbs (c +:+ rest) = false.
Proof.
  intros Hne Hns. destruct c as [|a c]; [done|].
  unfold IsAbs, noslash in *. cbn in *.
  destruct (decide (a = slash)) as [Ha|Ha]; [done|].
  by destruct (decide ("/"%char = a)) as [<-|].
Qed.

Lemma clean_step_relative out e :
  noslash e → Forall (λ x, x ≠ "" ∧ noslash x) out →
  Forall (λ x, x ≠ "" ∧ noslash x) (clean_step false out e).
Proof.
  intros He Hout. unfold clean_step.
  repeat case_decide; subst; try done.
  - destruct out as [|top below]; [by repeat constructor|].
    case_decide; [by constructor | by inversion Hout].
  - by constructor.
Qed.

Lemma fold_clean_relative es : ∀ out,
  Forall noslash es → Forall (λ x, x ≠ "" ∧ noslash x) out →
  Forall (λ x, x ≠ "" ∧ noslash x) (fold_left (clean_step false) es out).
Proof.
  induction es as [|e es IH]; intros out Hes Hout; [done|].
  inversion Hes; subst. cbn [fold_left]. apply IH; [done|].
  by apply clean_step_relative.
Qed.

(** [path.Clean] keeps a relative path relative. *)
Lemma Clean_stays_relative s : IsAbs s = false → IsAbs (Clean s) = false.
Proof.
  intros Hrel. unfold Clean. case_decide; [done|]. rewrite Hrel.
  pose proof (fold_clean_relative (SplitByte slash s) []
                (SplitByte_Forall s) (Forall_nil_2 _)) as Hout.
  destruct (fold_left _ _ _) as [|top below] eqn:E; [done|].
  rewrite <- E in *. clear E.
  apply Forall_rev in Hout.
  destruct (rev _) as [|x xs]; [done|].
  inversion Hout as [|? ? [Hx Hns] _]; subst.
  destruct xs; [|rewrite JoinSlash_cons by done; by apply elem_not_abs].
  cbn. rewrite <- (append_nil_r x). by apply elem_not_abs.
Qed.

Lemma take_stays_relative n s : IsAbs s = false → IsAbs (take n s) = false.
Proof. destruct s, n; done. Qed.

Lemma Dir_stays_relative p : IsAbs p = false → IsAbs (Dir p) = false.
Proof.
  intros Hrel. unfold Dir, Split. cbn [fst].
  by apply Clean_stays_relative, take_stays_relative.
Qed.

Lemma delete_parents_relative fuel : ∀ p ex,
  IsAbs p = false → delete_parents fuel p ex = None.
Proof.
  induction fuel as [|fuel IH]; intros p ex Hrel; cbn [delete_parents];
    (case_decide as Hp; [by subst|]); [done|].
  by apply IH, Dir_stays_relative.
Qed.
End relative.

(** On a relative path the loop of [AddInclude] never reaches its base case
    [p == "/"]: the call does not return, whatever the iteration count. *)
Theorem AddInclude_relative_diverges (fuel : nat) (eps : ExcludePaths)
    (orig : string) (is_dir : bool) :
  IsAbs orig = false → AddInclude fuel eps orig is_dir = None.
Proof.
  intros Hrel. unfold AddInclude. rewrite delete_parents_relative; [done|].
  destruct is_dir; [done | by apply Dir_stays_relative].
Qed.

Lemma AddInclude_relative_diverges_witness :
  IsAbs "usr/bin/ls" = false
  ∧ AddInclude 1000 NewExcludePaths "usr/bin/ls" false = None.
Proof.
  split; [reflexivity|].
  exact (AddInclude_relative_diverges 1000 NewExcludePaths "usr/bin/ls" false
           eq_refl).
Defined.

(** [add_include] retracts every excluded directory strictly above the
    included path, the root apart: a file changed under unchanged
    directories is not hidden by their exclusion. *)
Theorem AddInclude_retracts_ancestors (fuel : nat) (eps eps' : ExcludePaths)
    (orig a : string) (is_dir : bool) :
  is_path orig = true → is_path a = true →
  AddInclude fuel eps orig is_dir = Some eps' →
  strict_ancestor a orig = true → a ≠ "/" →
  exclude eps' !! a = None.
Proof.
  intros Horig Ha Hinc Hanc Hroot.
  apply AddInclude_above in Hinc as (_ & _ & Habove); [|done].
  destruct (exclude eps' !! a) as [b|] eqn:E; [|done]. exfalso.
  unfold strict_ancestor in Hanc.
  apply andb_true_iff in Hanc as [Hne%negb_true_iff%bool_decide_eq_false Hpre].
  destruct (Habove a Ha) as [-> | [-> _]]; try done.
  unfold dir_prefix. by rewrite Hpre, orb_true_r.
Qed.

Lemma AddInclude_retracts_ancestors_witness :
  is_path "/usr/bin/ls" = true ∧ is_path "/usr" = true
  ∧ AddInclude 11
      {| exclude := {[ "/usr" := true; "/usr/bin" := true; "/etc" := true ]};
         include := [] |} "/usr/bin/ls" false
    = Some {| exclude := {[ "/etc" := true ]}; include := ["/usr/bin/ls"] |}
  ∧ strict_ancestor "/usr" "/usr/bin/ls" = true ∧ "/usr" ≠ "/"
  ∧ exclude {| exclude := {[ "/etc" := true ]}; include := ["/usr/bin/ls"] |}
      !! "/usr" = None.
Proof.
  assert (H : AddInclude 11
                {| exclude := {[ "/usr" := true; "/usr/bin" := true;
                                 "/etc" := true ]};
                   include := [] |} "/usr/bin/ls" false
              = Some {| exclude := {[ "/etc" := true ]};
                        include := ["/usr/bin/ls"] |})
    by (vm_compute; reflexivity).
  assert (Hne : "/usr" ≠ "/") by discriminate.
  split; [reflexivity|]. split; [reflexivity|]. split; [exact H|].
  split; [reflexivity|]. split; [exact Hne|].
  exact (AddInclude_retracts_ancestors 11 _ _ "/usr/bin/ls" "/usr" false
           eq_refl eq_refl H eq_refl Hne).
Defined.

(** The sidecar whiteout of a deleted entry lies in the directory of the
    deleted host path, under its base name with [.wh.] in front. *)
Theorem sidecar_beside_deleted_path (rs ds : list string) (c : string) :
  Forall proper rs → Forall proper (ds ++ [c]) →
  whiteout_path (render rs) (JoinSlash (ds ++ [c]))
  = Join [Dir (Join [render rs; JoinSlash (ds ++ [c])]);
          ".wh." +:+ Base (Join [render rs; JoinSlash (ds ++ [c])])].
Proof. intros Hrs Hds. by apply whiteout_path_beside. Qed.

Lemma sidecar_beside_deleted_path_witness :
  Forall proper ["b"; "rootfs"] ∧ Forall proper (["etc"] ++ ["hosts"])
  ∧ whiteout_path (render ["b"; "rootfs"]) (JoinSlash (["etc"] ++ ["hosts"]))
    = Join [Dir (Join [render ["b"; "rootfs"];
                       JoinSlash (["etc"] ++ ["hosts"])]);
            ".wh." +:+ Base (Join [render ["b"; "rootfs"];
                                   JoinSlash (["etc"] ++ ["hosts"])])].
Proof.
  assert (H1 : Forall proper ["b"; "rootfs"])
    by (repeat constructor; discriminate).
  assert (H2 : Forall proper (["etc"] ++ ["hosts"]))
    by (repeat constructor; discriminate).
  split; [exact H1|]. split; [exact H2|].
  exact (sidecar_beside_deleted_path ["b"; "rootfs"] ["etc"] "hosts" H1 H2).
Defined.

(** ** The model of Go's [path] package on the package's own test tables *)

Example Clean_table :
  map Clean
    [""; "abc"; "abc/def"; "a/b/c"; "."; ".."; "../.."; "../../abc"; "/abc";
     "/"; "abc/"; "abc/def/"; "a/b/c/"; "./"; "../"; "../../"; "/abc/";
     "abc//def//ghi"; "//abc"; "///abc"; "//abc//"; "abc//"; "abc/./def";
     "/./abc/def"; "abc/."; "abc/def/ghi/../jkl"; "abc/def/../ghi/../jkl";
     "abc/def/.."; "abc/def/../.."; "/abc/def/../.."; "abc/def/../../..";
     "/abc/def/../../.."; "abc/def/../../../ghi/jkl/../../../mno";
     "abc/./../def"; "abc//./../def"; "abc/../../././../def"]
  = ["."; "abc"; "abc/def"; "a/b/c"; "."; ".."; "../.."; "../../abc"; "/abc";
     "/"; "abc"; "abc/def"; "a/b/c"; "."; ".."; "../.."; "/abc";
     "abc/def/ghi"; "/abc"; "/abc"; "/abc"; "abc"; "abc/def";
     "/abc/def"; "abc"; "abc/def/jkl"; "abc/jkl";
     "abc"; "."; "/"; "..";
     "/"; "../../mno";
     "def"; "def"; "../../def"].
Proof. vm_compute. reflexivity. Qed.

Example Dir_table :
  map Dir [""; "."; "/."; "/"; "////"; "/foo"; "x/"; "abc"; "abc/def";
           "abc////def"; "a/b/.x"; "a/b/c."; "a/b/c.x"]
  = ["."; "."; "/"; "/"; "/"; "/"; "x"; "."; "abc";
     "abc"; "a/b"; "a/b"; "a/b"].
Proof. vm_compute. reflexivity. Qed.

Example Base_table :
  map Base [""; "."; "/."; "/"; "////"; "x/"; "abc"; "abc/def"; "a/b/.x";
            "a/b/c."; "a/b/c.x"]
  = ["."; "."; "."; "/"; "/"; "x"; "abc"; "def"; ".x"; "c."; "c.x"].
Proof. vm_compute. reflexivity. Qed.

Example Join_table :
  map Join [[]; [""]; ["a"]; ["a"; "b"]; ["a"; ""]; [""; "b"]; ["/"; "a"];
            ["/"; ""]; ["a/"; "b"]; ["a/"; ""]; [""; ""]]
  = [""; ""; "a"; "a/b"; "a"; "b"; "/a"; "/"; "a/b"; "a"; ""].
Proof. vm_compute. reflexivity. Qed.

(** ** ExcludePaths: rendering, and how the calls compose *)

Section exclude_more.
Lemma SplitByte_sep_app sep a b :
  ContainsByte a sep = false →
  SplitByte sep (a +:+ String sep b) = a :: SplitByte sep b.
Proof.
  induction a as [|c a IH]; cbn [ContainsByte String.append SplitByte].
  - intros _. by rewrite decide_True.
  - destruct (decide (c = sep)) as [|Hc]; [done|]. intros Ha.
    by rewrite IH.
Qed.

Lemma SplitByte_render_keys keys :
  Forall (λ k, ContainsByte k "010"%char = false) keys →
  SplitByte "010"%char (render_keys keys) = keys ++ [""; ""].
Proof.
  induction keys as [|k keys IH]; intros Hkeys; [done|].
  inversion Hkeys; subst. cbn [render_keys].
  unfold newline at 1. cbn [String.append].
  rewrite SplitByte_sep_app by done. by rewrite IH.
Qed.

(** A chain element of a path lies on or above it. *)
Lemma dir_prefix_firstn cs k :
  Forall proper cs → 1 ≤ k ≤ length cs →
  dir_prefix (render (firstn k cs)) (render cs) = true.
Proof.
  intros Hcs Hk. unfold dir_prefix.
  destruct (decide (k = length cs)) as [->|Hlt].
  { rewrite firstn_all. by rewrite bool_decide_eq_true_2. }
  apply orb_true_iff. right.
  assert (Forall proper (firstn k cs)) as Hfst.
  { rewrite <- (firstn_skipn k cs) in Hcs. by apply Forall_app in Hcs as [? _]. }
  assert (firstn k cs ≠ []) as Hne.
  { destruct cs; [simpl in Hk; lia|]. destruct k; [lia | done]. }
  assert (skipn k cs ≠ []) as Hrest.
  { intros Hnil. pose proof (f_equal length (firstn_skipn k cs)) as Hlen.
    rewrite length_app, Hnil, length_firstn in Hlen. simpl in Hlen. lia. }
  rewrite as_dir_render by done. apply HasPrefix_spec.
  exists (JoinSlash (skipn k cs)).
  rewrite <- (firstn_skipn k cs) at 1. unfold render.
  rewrite JoinSlash_app by done. cbn [String.append].
  by rewrite append_assoc.
Qed.
End exclude_more.

(** The text [String()] returns reads back as the excluded paths: split at
    the newlines it is the exclude set in some order, followed by the two
    empty pieces of the terminating blank line (paths hold no newline). *)
Theorem String_lines_are_the_excludes (eps : ExcludePaths) (text : string) :
  String_returns eps text →
  (∀ k, is_Some (exclude eps !! k) → ContainsByte k "010"%char = false) →
  ∃ keys, keys ≡ₚ (map_to_list (exclude eps)).*1
          ∧ SplitByte "010"%char text = keys ++ [""; ""].
Proof.
  intros (keys & Hperm & ->) Hclean. exists keys. split; [done|].
  apply SplitByte_render_keys, Forall_forall. intros k Hk. apply Hclean.
  rewrite Hperm in Hk. apply list_elem_of_fmap in Hk as ([k' b] & -> & Hkb).
  apply elem_of_map_to_list in Hkb. by eexists.
Qed.

Lemma String_lines_are_the_excludes_witness :
  String_returns etc_excluded (render_keys ["/b/rootfs/etc"])
  ∧ (∀ k, is_Some (exclude etc_excluded !! k) →
          ContainsByte k "010"%char = false)
  ∧ ∃ keys, keys ≡ₚ (map_to_list (exclude etc_excluded)).*1
            ∧ SplitByte "010"%char (render_keys ["/b/rootfs/etc"])
              = keys ++ [""; ""].
Proof.
  assert (H1 : String_returns etc_excluded (render_keys ["/b/rootfs/etc"])).
  { exists ["/b/rootfs/etc"]. split; [|reflexivity].
    unfold etc_excluded. cbn [exclude]. by rewrite map_to_list_singleton. }
  assert (H2 : ∀ k, is_Some (exclude etc_excluded !! k) →
                    ContainsByte k "010"%char = false).
  { intros k [b Hk]. unfold etc_excluded in Hk. cbn [exclude] in Hk.
    apply lookup_singleton_Some in Hk as [<- _]. reflexivity. }
  split; [exact H1|]. split; [exact H2|].
  exact (String_lines_are_the_excludes etc_excluded _ H1 H2).
Defined.

(** An included path is never hidden again: in every state reached by
    further calls, [add_exclude] of the included path, or of any string
    prefix of it, leaves the ExcludePaths as it is. *)
Theorem included_path_blocks_exclude (fuel : nat) (calls : list Call)
    (eps0 eps : ExcludePaths) (inc p : string) :
  inc ∈ include eps0 → run fuel calls eps0 = Some eps →
  HasPrefix inc p = true →
  AddExclude eps p = eps.
Proof.
  intros Hinc Hrun Hpre. apply AddExclude_blocked. exists inc.
  split; [|done]. rewrite (run_include _ _ _ _ Hrun).
  apply elem_of_app. by left.
Qed.

Lemma included_path_blocks_exclude_witness :
  "/b/rootfs/etc/hosts" ∈ include hosts_included
  ∧ run 8 [add_exclude "/var"; add_include "/var/log" true] hosts_included
    = Some {| exclude := ∅; include := ["/b/rootfs/etc/hosts"; "/var/log"] |}
  ∧ HasPrefix "/b/rootfs/etc/hosts" "/b/rootfs" = true
  ∧ AddExclude
      {| exclude := ∅; include := ["/b/rootfs/etc/hosts"; "/var/log"] |}
      "/b/rootfs"
    = {| exclude := ∅; include := ["/b/rootfs/etc/hosts"; "/var/log"] |}.
Proof.
  assert (H1 : "/b/rootfs/etc/hosts" ∈ include hosts_included)
    by apply list_elem_of_here.
  assert (H2 : run 8 [add_exclude "/var"; add_include "/var/log" true]
                 hosts_included
               = Some {| exclude := ∅;
                         include := ["/b/rootfs/etc/hosts"; "/var/log"] |})
    by (vm_compute; reflexivity).
  split; [exact H1|]. split; [exact H2|]. split; [reflexivity|].
  exact (included_path_blocks_exclude 8 _ hosts_included _
           "/b/rootfs/etc/hosts" "/b/rootfs" H1 H2 eq_refl).
Defined.

(** [add_include] touches the exclude set only on the included path and
    above it: every path that is not a directory-hierarchy prefix of the
    included path keeps its entry. *)
Theorem AddInclude_keeps_other_excludes (fuel : nat) (eps eps' : ExcludePaths)
    (orig e : string) (is_dir : bool) :
  is_path orig = true →
  AddInclude fuel eps orig is_dir = Some eps' →
  dir_prefix e orig = false →
  exclude eps' !! e = exclude eps !! e.
Proof.
  intros (cs & Hcs & ->)%is_path_elems. unfold AddInclude.
  rewrite include_start by done.
  destruct (delete_parents _ _ _) as [r|] eqn:Hr; [|done].
  intros [= <-] Hnot. cbn [exclude].
  assert (Forall proper (if is_dir then cs else removelast cs)) as Hstart
    by (destruct is_dir; [done | by apply proper_removelast]).
  destruct (delete_parents_render (if is_dir then cs else removelast cs)
              (max fuel (length (if is_dir then cs else removelast cs)))
              (exclude eps)) as (ex' & Hex' & _ & _ & Hkeep); [done | lia |].
  apply (delete_parents_mono _ (max fuel (length (if is_dir then cs
                                                  else removelast cs))))
    in Hr; [|lia].
  rewrite Hr in Hex'. injection Hex' as <-.
  apply Hkeep. intros k Hk ->.
  assert (dir_prefix (render (firstn k (if is_dir then cs else removelast cs)))
            (render cs) = true) as Hpre; [|by rewrite Hpre in Hnot].
  destruct is_dir; [by apply dir_prefix_firstn|].
  destruct cs as [|c cs _] using rev_ind; [simpl in Hk; lia|].
  rewrite removelast_last in *.
  replace (firstn k cs) with (firstn k (cs ++ [c])).
  - apply dir_prefix_firstn; [done|]. rewrite length_app. simpl. lia.
  - rewrite firstn_app. replace (k - length cs) with 0 by lia.
    by rewrite app_nil_r.
Qed.

Lemma AddInclude_keeps_other_excludes_witness :
  is_path "/usr/bin/ls" = true
  ∧ AddInclude 11
      {| exclude := {[ "/usr" := true; "/usr/bin" := true; "/etc" := true ]};
         include := [] |} "/usr/bin/ls" false
    = Some {| exclude := {[ "/etc" := true ]}; include := ["/usr/bin/ls"] |}
  ∧ dir_prefix "/etc" "/usr/bin/ls" = false
  ∧ exclude {| exclude := {[ "/etc" := true ]}; include := ["/usr/bin/ls"] |}
      !! "/etc"
    = exclude
        {| exclude := {[ "/usr" := true; "/usr/bin" := true; "/etc" := true ]};
           include := [] |} !! "/etc".
Proof.
  assert (H : AddInclude 11
                {| exclude := {[ "/usr" := true; "/usr/bin" := true;
                                 "/etc" := true ]};
                   include := [] |} "/usr/bin/ls" false
              = Some {| exclude := {[ "/etc" := true ]};
                        include := ["/usr/bin/ls"] |})
    by (vm_compute; reflexivity).
  split; [reflexivity|]. split; [exact H|]. split; [reflexivity|].
  exact (AddInclude_keeps_other_excludes 11 _ _ "/usr/bin/ls" "/etc" false
           eq_refl H eq_refl).
Defined.

Section absolute.
Lemma LastIndexByte_first s : (0 <= LastIndexByte (String slash s) slash)%Z.
Proof.
  cbn [LastIndexByte]. destruct (0 <=? LastIndexByte s slash)%Z eqn:E.
  - apply Z.leb_le in E. lia.
  - rewrite decide_True by done. lia.
Qed.

(** [path.Clean] makes a clean absolute path of a rooted one. *)
Lemma Clean_rooted_is_path s :
  ∃ cs, Forall proper cs ∧ Clean (String slash s) = render cs.
Proof.
  rewrite <- (JoinSlash_SplitByte s).
  rewrite Clean_rooted by apply SplitByte_Forall.
  eexists. split; [|done].
  apply Forall_rev, fold_clean_keeps; [apply SplitByte_Forall | done].
Qed.

(** [path.Dir] of an absolute path is a clean absolute path. *)
Lemma Dir_absolute p :
  IsAbs p = true → ∃ cs, Forall proper cs ∧ Dir p = render cs.
Proof.
  intros Habs. destruct p as [|c p]; [done|].
  unfold IsAbs in Habs. cbn in Habs.
  destruct (decide ("/"%char = c)) as [<-|]; [|done].
  unfold Dir, Split. cbn [fst].
  change (String "/"%char p) with (String slash p).
  pose proof (LastIndexByte_first p) as Hi.
  destruct (Z.to_nat (LastIndexByte (String slash p) slash + 1)) as [|n] eqn:E;
    [lia|].
  cbn [take]. apply Clean_rooted_is_path.
Qed.

Lemma delete_parents_absolute p ex :
  IsAbs p = true → ∃ fuel r, delete_parents fuel p ex = Some r.
Proof.
  intros Habs. destruct (decide (p = "/")) as [->|Hne].
  { exists 0, ex. done. }
  destruct (Dir_absolute p Habs) as (cs & Hcs & Hdir).
  destruct (delete_parents_render cs (length cs) (delete p ex) Hcs)
    as (r & Hr & _); [done|].
  exists (S (length cs)), r. cbn [delete_parents].
  rewrite decide_False by done. by rewrite Hdir.
Qed.
End absolute.

(** [add_include] returns exactly on absolute paths: on a path that starts
    with [/], normalized or not, its loop reaches the root after finitely
    many iterations, and on any other path it never does. *)
Theorem AddInclude_returns_iff_absolute (eps : ExcludePaths) (orig : string)
    (is_dir : bool) :
  (∃ fuel eps', AddInclude fuel eps orig is_dir = Some eps')
  ↔ IsAbs orig = true.
Proof.
  split.
  - intros (fuel & eps' & Hret).
    destruct (IsAbs orig) eqn:Habs; [done|]. exfalso.
    unfold AddInclude in Hret.
    rewrite delete_parents_relative in Hret; [done|].
    destruct is_dir; [done | by apply Dir_stays_relative].
  - intros Habs. unfold AddInclude.
    destruct (delete_parents_absolute (if is_dir then orig else Dir orig)
                (exclude eps)) as (fuel & r & Hr).
    + destruct is_dir; [done|].
      by destruct (Dir_absolute orig Habs) as (cs & _ & ->).
    + exists fuel. rewrite Hr. by eexists.
Qed.

(** ** which and whichSearch *)

Section which.
Lemma JoinSlash_first_nonempty x xs : x ≠ "" → JoinSlash (x :: xs) ≠ "".
Proof. intros Hx. destruct xs; [done|]. cbn. by destruct x. Qed.

(** [path.Clean] never returns the empty string. *)
Lemma Clean_nonempty s : Clean s ≠ "".
Proof.
  unfold Clean. case_decide; [done|]. destruct (IsAbs s); [done|].
  pose proof (fold_clean_relative (SplitByte slash s) []
                (SplitByte_Forall s) (Forall_nil_2 _)) as Hout.
  destruct (fold_left _ _ _) as [|top below]; [done|].
  apply Forall_rev in Hout.
  destruct (rev (top :: below)) as [|x xs] eqn:E'.
  - by apply rev_eq_nil in E'.
  - inversion Hout as [|? ? [Hx _] _]; subst. by apply JoinSlash_first_nonempty.
Qed.

Lemma Join_name_nonempty dir name : name ≠ "" → Join [dir; name] ≠ "".
Proof.
  intros Hname. unfold Join. cbn [drop_empty].
  destruct (decide (dir = "")); [|apply Clean_nonempty].
  rewrite decide_False by done. apply Clean_nonempty.
Qed.

Lemma first_executable_app w pre f post :
  (∀ g, g ∈ pre → Access_X_OK w g = false) → Access_X_OK w f = true →
  first_executable w (pre ++ f :: post) = f.
Proof.
  induction pre as [|g pre IH]; intros Hpre Hf; cbn [app first_executable].
  - by rewrite Hf.
  - rewrite (Hpre g) by apply list_elem_of_here. apply IH; [|done].
    intros h Hh. apply Hpre. by apply list_elem_of_further.
Qed.

Lemma first_executable_found w search :
  first_executable w search ≠ "" →
  first_executable w search ∈ search
  ∧ Access_X_OK w (first_executable w search) = true.
Proof.
  induction search as [|f search IH]; cbn [first_executable]; [done|].
  destruct (Access_X_OK w f) eqn:Hf.
  - intros _. split; [apply list_elem_of_here | done].
  - intros [Hin Hok]%IH. split; [by apply list_elem_of_further | done].
Qed.

Lemma first_executable_empty w search :
  "" ∉ search → first_executable w search = "" →
  ∀ f, f ∈ search → Access_X_OK w f = false.
Proof.
  induction search as [|g search IH]; cbn [first_executable]; intros Hno Hres f Hf.
  - by apply elem_of_nil in Hf.
  - destruct (Access_X_OK w g) eqn:Hg.
    + subst g. exfalso. apply Hno, list_elem_of_here.
    + apply elem_of_cons in Hf as [-> | Hf]; [done|].
      apply IH; [|done..]. intros H. by apply Hno, list_elem_of_further.
Qed.
End which.

(** For a bare name (one without a slash) [whichSearch] returns the
    candidate of the first directory, in the order of [paths], whose
    candidate [path.Join(dir, name)] passes [access(X_OK)]: directories later
    in the list are never preferred. *)
Theorem whichSearch_first_match (w : World) (name : string)
    (pre post : list string) (dir : string) :
  ContainsByte name slash = false →
  (∀ d, d ∈ pre → Access_X_OK w (Join [d; name]) = false) →
  Access_X_OK w (Join [dir; name]) = true →
  whichSearch w name (pre ++ dir :: post) = Join [dir; name].
Proof.
  intros Hbare Hpre Hdir. unfold whichSearch. rewrite Hbare.
  rewrite map_app. cbn [map].
  apply first_executable_app; [|done].
  intros g (d & -> & Hd)%list_elem_of_fmap. by apply Hpre.
Qed.

Lemma whichSearch_first_match_witness :
  ContainsByte "unsquashfs" slash = false
  ∧ (∀ d, d ∈ ["/bin"] →
          Access_X_OK example_world (Join [d; "unsquashfs"]) = false)
  ∧ Access_X_OK example_world (Join ["/usr/bin"; "unsquashfs"]) = true
  ∧ whichSearch example_world "unsquashfs" (["/bin"] ++ "/usr/bin" :: ["/opt"])
    = Join ["/usr/bin"; "unsquashfs"].
Proof.
  assert (H1 : ∀ d, d ∈ ["/bin"] →
                 Access_X_OK example_world (Join [d; "unsquashfs"]) = false).
  { intros d ->%list_elem_of_singleton. vm_compute. reflexivity. }
  assert (H2 : Access_X_OK example_world (Join ["/usr/bin"; "unsquashfs"])
               = true) by (vm_compute; reflexivity).
  split; [reflexivity|]. split; [exact H1|]. split; [exact H2|].
  exact (whichSearch_first_match example_world "unsquashfs" ["/bin"] ["/opt"]
           "/usr/bin" eq_refl H1 H2).
Defined.

(** For a bare, non-empty name [whichSearch] returns the empty string
    exactly when no directory of [paths] holds an executable candidate, and
    a non-empty result is always one of the candidates and passes
    [access(X_OK)]. *)
Theorem whichSearch_result (w : World) (name : string) (paths : list string) :
  name ≠ "" → ContainsByte name slash = false →
  (whichSearch w name paths = ""
   ↔ ∀ d, d ∈ paths → Access_X_OK w (Join [d; name]) = false)
  ∧ (whichSearch w name paths ≠ "" →
     Access_X_OK w (whichSearch w name paths) = true
     ∧ ∃ d, d ∈ paths ∧ whichSearch w name paths = Join [d; name]).
Proof.
  intros Hname Hbare. unfold whichSearch. rewrite Hbare. split; [split|].
  - intros Hres d Hd.
    apply (first_executable_empty w (map (λ p, Join [p; name]) paths));
      [|done|].
    + intros (d' & Hd' & _)%list_elem_of_fmap.
      by apply (Join_name_nonempty d' name).
    + apply list_elem_of_fmap. by exists d.
  - intros Hno. apply first_executable_none.
    intros f (d & -> & Hd)%list_elem_of_fmap. by apply Hno.
  - intros [(d & Hd & Hin)%list_elem_of_fmap Hok]%first_executable_found.
    split; [done|]. by exists d.
Qed.

Lemma whichSearch_result_witness :
  "squashtool" ≠ "" ∧ ContainsByte "squashtool" slash = false
  ∧ (whichSearch example_world "squashtool" ["/usr/bin"; "/bin"] = ""
     ↔ ∀ d, d ∈ ["/usr/bin"; "/bin"] →
            Access_X_OK example_world (Join [d; "squashtool"]) = false).
Proof.
  assert (H1 : "squashtool" ≠ "") by discriminate.
  split; [exact H1|]. split; [reflexivity|].
  exact (proj1 (whichSearch_result example_world "squashtool"
                  ["/usr/bin"; "/bin"] H1 eq_refl)).
Defined.

(** For a name that contains a slash [whichSearch] does not consult the
    search path: the only candidate is the name itself when it is absolute
    and [./name] otherwise, returned when it passes [access(X_OK)]. *)
Theorem whichSearch_name_with_slash (w : World) (name : string)
    (paths : list string) :
  ContainsByte name slash = true →
  whichSearch w name paths = whichSearch w name []
  ∧ (whichSearch w name paths = ""
     ∨ (whichSearch w name paths
        = (if IsAbs name then name else "./" +:+ name)
        ∧ Access_X_OK w (if IsAbs name then name else "./" +:+ name) = true)).
Proof.
  intros Hslash. unfold whichSearch. rewrite Hslash. split; [done|].
  destruct (IsAbs name); cbn [first_executable];
    (destruct (Access_X_OK w _) eqn:Hok; [by right | by left]).
Qed.

Lemma whichSearch_name_with_slash_witness :
  ContainsByte "bin/squashtool" slash = true
  ∧ whichSearch example_world "bin/squashtool" ["/usr"; "/"]
    = whichSearch example_world "bin/squashtool" [].
Proof.
  split; [reflexivity|].
  exact (proj1 (whichSearch_name_with_slash example_world "bin/squashtool"
                  ["/usr"; "/"] eq_refl)).
Defined.

(** ** ExtractSingleSquash: which command runs *)

Section extract_more.
Context (E : Deps).

Lemma Exec_spec argv w res w' :
  Exec E argv w = (res, w') →
  log w' = log w ++ [EvExec argv res]
  ∧ PATH w' = PATH w ∧ executable w' = executable w.
Proof.
  unfold Exec. destruct (exec_result E w argv); by intros [= <- <-].
Qed.




Lemma LastIndexByte_lt s c : (LastIndexByte s c < Z.of_nat (String.length s))%Z.
Proof.
  induction s as [|d s IH]; cbn [LastIndexByte String.length]; [lia|].
  destruct (0 <=? LastIndexByte s c)%Z; [lia|]. case_decide; lia.
Qed.

Lemma length_strip_trailing_slashes p :
  String.length (strip_trailing_slashes p) ≤ String.length p.
Proof.
  induction p as [|c p IH]; cbn [strip_trailing_slashes String.length];
    [done|].
  destruct (strip_trailing_slashes p); [|cbn [String.length] in *; lia].
  case_decide; cbn [String.length]; lia.
Qed.

Lemma length_take_le n s : String.length (take n s) ≤ n.
Proof.
  revert s. induction n as [|n IH]; intros [|c s]; cbn; try lia.
  specialize (IH s). lia.
Qed.

Lemma mkdir_parent_shorter p parent :
  mkdir_parent p = Some parent → String.length parent < String.length p.
Proof.
  unfold mkdir_parent. case_decide as Hj; [|done]. intros [= <-].
  pose proof (LastIndexByte_lt (strip_trailing_slashes p) slash).
  pose proof (length_strip_trailing_slashes p).
  pose proof (length_take_le
                (Z.to_nat (LastIndexByte (strip_trailing_slashes p) slash
                           + 1 - 1)) p).
  lia.
Qed.

(** The length of the path is bound enough: a larger one changes
    nothing. *)
Lemma mkdir_all_fuel w fuel : ∀ fuel' p fs,
  String.length p ≤ fuel → String.length p ≤ fuel' →
  mkdir_all E w fuel p fs = mkdir_all E w fuel' p fs.
Proof.
  induction fuel as [|fuel IH]; intros [|fuel'] p fs Hp Hp';
    cbn [mkdir_all]; try done.
  - destruct (mkdir_parent p) as [parent|] eqn:Hparent; [|done].
    apply mkdir_parent_shorter in Hparent. lia.
  - destruct (mkdir_parent p) as [parent|] eqn:Hparent; [|done].
    apply mkdir_parent_shorter in Hparent. lia.
  - destruct (mkdir_parent p) as [parent|] eqn:Hparent; [|done].
    apply mkdir_parent_shorter in Hparent.
    by rewrite (IH fuel' parent fs) by lia.
Qed.



Lemma which_same_environment w w' name :
  PATH w' = PATH w → executable w' = executable w →
  which w' name = which w name.
Proof.
  intros HP Hx. unfold which, whichSearch. rewrite HP.
  generalize (if ContainsByte name slash
              then if IsAbs name then [name] else ["./" +:+ name]
              else map (λ p, Join [p; name]) (SplitByte ":"%char (PATH w))).
  intros search. induction search as [|f search IH]; [done|].
  cbn [first_executable]. unfold Access_X_OK. by rewrite Hx, IH.
Qed.
End extract_more.

(** A successful [ExtractSingleSquash] has made the extract directory and
    then run exactly one command, to success: [squashtool extract] with the
    flags that keep whiteouts, permissions, devices, sockets and owners when
    the backend tag is btrfs (and squashtool is on PATH), and
    [unsquashfs -f -d <dir> <file>] for every other tag. *)
Theorem ExtractSingleSquash_success (E : Deps)
    (squashFile extractDir storageType : string) (w w' : World) :
  ExtractSingleSquash E squashFile extractDir storageType w = (None, w') →
  ∃ argv,
    log w' = log w ++ [EvMkdirAll extractDir None; EvExec argv None]
    ∧ (storageType = "btrfs" ∧ which w "squashtool" ≠ ""
       ∧ argv = ["squashtool"; "extract"; "--whiteouts"; "--perms"; "--devs";
                 "--sockets"; "--owners"; squashFile; extractDir]
       ∨ storageType ≠ "btrfs"
         ∧ argv = ["unsquashfs"; "-f"; "-d"; extractDir; squashFile]).
Proof.
  unfold ExtractSingleSquash.
  destruct (MkdirAll E extractDir w) as [[err|] w1] eqn:Hmk; [done|].
  apply MkdirAll_spec in Hmk as (HP & Hx & _ & _ & _ & Hlog).
  destruct (decide (storageType = "btrfs")) as [->|Hne].
  - destruct (decide (which w1 "squashtool" = "")) as [|Hfound]; [done|].
    intros (Hl & _)%Exec_spec. eexists. split.
    + rewrite Hl, Hlog. by rewrite <- app_assoc.
    + left. split; [done|]. split; [|done].
      by rewrite <- (which_same_environment w w1).
  - intros (Hl & _)%Exec_spec. eexists. split.
    + rewrite Hl, Hlog. by rewrite <- app_assoc.
    + by right.
Qed.

Lemma ExtractSingleSquash_success_witness :
  ExtractSingleSquash (example_deps [] None) "/oci/blob" "/x" "overlay"
    example_world
  = (None,
     (ExtractSingleSquash (example_deps [] None) "/oci/blob" "/x" "overlay"
        example_world).2)
  ∧ ∃ argv,
      log (ExtractSingleSquash (example_deps [] None) "/oci/blob" "/x"
             "overlay" example_world).2
      = log example_world ++ [EvMkdirAll "/x" None; EvExec argv None]
      ∧ ("overlay" = "btrfs" ∧ which example_world "squashtool" ≠ ""
         ∧ argv = ["squashtool"; "extract"; "--whiteouts"; "--perms"; "--devs";
                   "--sockets"; "--owners"; "/oci/blob"; "/x"]
         ∨ "overlay" ≠ "btrfs"
           ∧ argv = ["unsquashfs"; "-f"; "-d"; "/x"; "/oci/blob"]).
Proof.
  assert (H : ExtractSingleSquash (example_deps [] None) "/oci/blob" "/x"
                "overlay" example_world
              = (None,
                 (ExtractSingleSquash (example_deps [] None) "/oci/blob" "/x"
                    "overlay" example_world).2))
    by (vm_compute; reflexivity).
  split; [exact H|].
  exact (ExtractSingleSquash_success (example_deps [] None) "/oci/blob" "/x"
           "overlay" example_world _ H).
Defined.



(** ** MakeSquashfs: the system calls and commands of a call *)

Section make_squashfs_trace.
Context (E : Deps).

Lemma TempFile_spec dir pattern w res w' :
  TempFile E dir pattern w = (res, w') →
  match res with
  | inl err => ∃ e, err = PathError "open" (Join [dir; pattern]) e
                    ∧ log w' = log w ++ [EvTempFile dir pattern (inl e)]
  | inr name => log w' = log w ++ [EvTempFile dir pattern (inr name)]
  end.
Proof.
  unfold TempFile. destruct (tempfile_name E w dir pattern) as [e|nm].
  - intros [= <- <-]. by exists e.
  - destruct (files w !! nm); intros [= <- <-]; [by eexists | done].
Qed.

Lemma WriteString_spec p text w res w' :
  WriteString E p text w = (res, w') →
  match res with
  | Some err => ∃ e, err = PathError "write" p e
                     ∧ log w' = log w ++ [EvWriteString p text (Some e)]
  | None => log w' = log w ++ [EvWriteString p text None]
  end.
Proof.
  unfold WriteString. destruct (write_errno E w p text) as [e|];
    intros [= <- <-]; [by exists e | done].
Qed.

Lemma os_Remove_event p w res w' :
  os_Remove E p w = (res, w') → ∃ r, log w' = log w ++ [EvRemove p r].
Proof.
  unfold os_Remove.
  match goal with |- context [EvRemove p ?r] => generalize r end.
  intros r [= _ <-]. exists r. by destruct r.
Qed.

Lemma MakeSquashfs_image_trace (dev : option Errno → list Event)
    tempdir rootfs toExclude excludesFile deferred w res w' :
  (∀ w0, ∃ r, log (deferred w0) = log w0 ++ dev r) →
  MakeSquashfs_image E tempdir rootfs toExclude excludesFile deferred w
  = (res, w') →
  (∃ e r,
     log w' = log w ++ [EvTempFile tempdir "stacker-squashfs-img-" (inl e)]
              ++ dev r
     ∧ res = inl (PathError "open" (Join [tempdir; "stacker-squashfs-img-"]) e))
  ∨ (∃ img r1 ran r2 r,
       log w' = log w
                ++ [EvTempFile tempdir "stacker-squashfs-img-" (inr img);
                    EvRemove img r1;
                    EvExec ("mksquashfs" :: [rootfs; img]
                            ++ (if decide (String.length toExclude ≠ 0)
                                then ["-ef"; excludesFile] else [])) ran;
                    EvRemove img r2] ++ dev r
       ∧ ∀ err, ran = Some err →
                res = inl (Wrapped err "couldn't build squashfs")).
Proof.
  intros Hdef. unfold MakeSquashfs_image.
  destruct (TempFile E tempdir "stacker-squashfs-img-" w)
    as [[e0|img] w1] eqn:H1; apply TempFile_spec in H1.
  - destruct H1 as (e & -> & Hl1). intros [= <- <-]. left.
    destruct (Hdef w1) as (r & Hr). exists e, r. split; [|done].
    by rewrite Hr, Hl1, <- app_assoc.
  - destruct (os_Remove E img w1) as [x2 w2] eqn:H2.
    cbv beta iota zeta delta [fst snd].
    apply os_Remove_event in H2 as (r1 & Hl2).
    destruct (Exec E _ w2) as [ran w3] eqn:H3.
    apply Exec_spec in H3 as (Hl3 & _).
    destruct (os_Remove E img w3) as [x4 w4] eqn:H4.
    cbv beta iota zeta delta [fst snd].
    apply os_Remove_event in H4 as (r2 & Hl4).
    destruct (Hdef w4) as (r & Hr).
    intros Hres. right. exists img, r1, ran, r2, r.
    assert (w' = deferred w4) as -> by (destruct ran; by injection Hres).
    split.
    + rewrite Hr, Hl4, Hl3, Hl2, H1. by rewrite <- !app_assoc.
    + intros err ->. by injection Hres.
Qed.
Lemma MakeSquashfs_events tempdir rootfs eps w w' res :
  MakeSquashfs E tempdir rootfs (Some eps) w = (res, w') →
  (∃ e, log w' = log w
                 ++ [EvTempFile tempdir "stacker-squashfs-exclude-" (inl e)]
        ∧ res = inl (PathError "open"
                       (Join [tempdir; "stacker-squashfs-exclude-"]) e))
  ∨ (∃ excludes e r,
       log w' = log w
                ++ [EvTempFile tempdir "stacker-squashfs-exclude-"
                      (inr excludes);
                    EvWriteString excludes (ExcludePaths_String E eps)
                      (Some e);
                    EvRemove excludes r]
       ∧ res = inl (PathError "write" excludes e))
  ∨ (∃ excludes e r,
       log w' = log w
                ++ [EvTempFile tempdir "stacker-squashfs-exclude-"
                      (inr excludes);
                    EvWriteString excludes (ExcludePaths_String E eps) None;
                    EvTempFile tempdir "stacker-squashfs-img-" (inl e);
                    EvRemove excludes r]
       ∧ res = inl (PathError "open"
                      (Join [tempdir; "stacker-squashfs-img-"]) e))
  ∨ (∃ excludes img r1 ran r2 r,
       log w' = log w
                ++ [EvTempFile tempdir "stacker-squashfs-exclude-"
                      (inr excludes);
                    EvWriteString excludes (ExcludePaths_String E eps) None;
                    EvTempFile tempdir "stacker-squashfs-img-" (inr img);
                    EvRemove img r1;
                    EvExec ["mksquashfs"; rootfs; img; "-ef"; excludes] ran;
                    EvRemove img r2;
                    EvRemove excludes r]
       ∧ ∀ err, ran = Some err →
                res = inl (Wrapped err "couldn't build squashfs")).
Proof.
  unfold MakeSquashfs.
  assert (String.length (ExcludePaths_String E eps) ≠ 0) as Hlen.
  { pose proof (render_keys_nonempty (map_order E (exclude eps))) as Hne.
    unfold ExcludePaths_String. by destruct (render_keys _). }
  rewrite decide_True by done.
  destruct (TempFile E tempdir "stacker-squashfs-exclude-" w)
    as [[e0|excludes] w1] eqn:H1; apply TempFile_spec in H1.
  { destruct H1 as (e & -> & Hl1). intros [= <- <-]. left. by exists e. }
  destruct (WriteString E excludes _ w1) as [[e0|] w2] eqn:H2;
    apply WriteString_spec in H2.
  { destruct H2 as (e & -> & Hl2).
    destruct (os_Remove E excludes w2) as [x3 w3] eqn:H3.
    cbv beta iota zeta delta [fst snd].
    apply os_Remove_event in H3 as (r & Hl3).
    intros [= <- <-]. right. left. exists excludes, e, r. split; [|done].
    rewrite Hl3, Hl2, H1. by rewrite <- !app_assoc. }
  intros Himg. right. right.
  apply (MakeSquashfs_image_trace (λ r, [EvRemove excludes r])) in Himg.
  - destruct Himg as [(e & r & Hl & Hres) | (img & r1 & ran & r2 & r & Hl & Hres)].
    + left. exists excludes, e, r. split; [|done]. rewrite Hl, H2, H1.
      by rewrite <- !app_assoc.
    + right. exists excludes, img, r1, ran, r2, r. split; [|done].
      rewrite Hl, H2, H1. rewrite decide_True by done.
      by rewrite <- !app_assoc.
  - intros w0. destruct (os_Remove E excludes w0) as [x w0'] eqn:Hr.
    cbv beta iota zeta delta [fst snd].
    by apply os_Remove_event in Hr.
Qed.

End make_squashfs_trace.



(** The trace of [MakeSquashfs] with an ExcludePaths.  Whatever happens,
    every temp file the call has created is removed again before it
    returns: the exclude list after a failed write, after a failed creation
    of the image file and after the archiver has run, the image file after
    the archiver has run (its name is also freed before the run, since
    mksquashfs does not overwrite).  An archiver failure is returned as
    ["couldn't build squashfs"]. *)
Theorem MakeSquashfs_trace (E : Deps) (tempdir rootfs : string)
    (eps : ExcludePaths) (w w' : World) (res : error + Node) :
  MakeSquashfs E tempdir rootfs (Some eps) w = (res, w') →
  (∃ e, log w' = log w
                 ++ [EvTempFile tempdir "stacker-squashfs-exclude-" (inl e)])
  ∨ (∃ excludes e r,
       log w' = log w
                ++ [EvTempFile tempdir "stacker-squashfs-exclude-"
                      (inr excludes);
                    EvWriteString excludes (ExcludePaths_String E eps)
                      (Some e);
                    EvRemove excludes r]
       ∧ res = inl (PathError "write" excludes e))
  ∨ (∃ excludes e r,
       log w' = log w
                ++ [EvTempFile tempdir "stacker-squashfs-exclude-"
                      (inr excludes);
                    EvWriteString excludes (ExcludePaths_String E eps) None;
                    EvTempFile tempdir "stacker-squashfs-img-" (inl e);
                    EvRemove excludes r])
  ∨ (∃ excludes img r1 ran r2 r,
       log w' = log w
                ++ [EvTempFile tempdir "stacker-squashfs-exclude-"
                      (inr excludes);
                    EvWriteString excludes (ExcludePaths_String E eps) None;
                    EvTempFile tempdir "stacker-squashfs-img-" (inr img);
                    EvRemove img r1;
                    EvExec ["mksquashfs"; rootfs; img; "-ef"; excludes] ran;
                    EvRemove img r2;
                    EvRemove excludes r]
       ∧ ∀ err, ran = Some err →
                res = inl (Wrapped err "couldn't build squashfs")).
Proof.
  intros Hcall.
  destruct (MakeSquashfs_events E _ _ _ _ _ _ Hcall)
    as [(e & Hl & _)|[Hwrite|[(x & e & r & Hl & _)|Hran]]].
  - left. by exists e.
  - right. by left.
  - right. right. left. by exists x, e, r.
  - by right; right; right.
Qed.

Lemma MakeSquashfs_trace_witness :
  MakeSquashfs example_privileged "/oci" "/b/rootfs" (Some etc_excluded)
    example_world
  = (example_squashfs.1, example_squashfs.2)
  ∧ ((∃ e, log example_squashfs.2
           = log example_world
             ++ [EvTempFile "/oci" "stacker-squashfs-exclude-" (inl e)])
     ∨ (∃ excludes e r,
          log example_squashfs.2
          = log example_world
            ++ [EvTempFile "/oci" "stacker-squashfs-exclude-" (inr excludes);
                EvWriteString excludes
                  (ExcludePaths_String example_privileged etc_excluded)
                  (Some e);
                EvRemove excludes r]
          ∧ example_squashfs.1 = inl (PathError "write" excludes e))
     ∨ (∃ excludes e r,
          log example_squashfs.2
          = log example_world
            ++ [EvTempFile "/oci" "stacker-squashfs-exclude-" (inr excludes);
                EvWriteString excludes
                  (ExcludePaths_String example_privileged etc_excluded) None;
                EvTempFile "/oci" "stacker-squashfs-img-" (inl e);
                EvRemove excludes r])
     ∨ (∃ excludes img r1 ran r2 r,
          log example_squashfs.2
          = log example_world
            ++ [EvTempFile "/oci" "stacker-squashfs-exclude-" (inr excludes);
                EvWriteString excludes
                  (ExcludePaths_String example_privileged etc_excluded) None;
                EvTempFile "/oci" "stacker-squashfs-img-" (inr img);
                EvRemove img r1;
                EvExec ["mksquashfs"; "/b/rootfs"; img; "-ef"; excludes] ran;
                EvRemove img r2;
                EvRemove excludes r]
          ∧ ∀ err, ran = Some err →
                   example_squashfs.1
                   = inl (Wrapped err "couldn't build squashfs"))).
Proof.
  assert (H : MakeSquashfs example_privileged "/oci" "/b/rootfs"
                (Some etc_excluded) example_world
              = (example_squashfs.1, example_squashfs.2))
    by apply surjective_pairing.
  split; [exact H|].
  exact (MakeSquashfs_trace example_privileged "/oci" "/b/rootfs" etc_excluded
           example_world _ _ H).
Defined.

(** [MakeSquashfs] with a nil ExcludePaths creates no exclude list: the
    image temp file is its first action, nothing is written, and mksquashfs
    runs without [-ef]. *)
Theorem MakeSquashfs_without_excludes (E : Deps) (tempdir rootfs : string)
    (w w' : World) (res : error + Node) :
  MakeSquashfs E tempdir rootfs None w = (res, w') →
  (∃ e, log w' = log w ++ [EvTempFile tempdir "stacker-squashfs-img-" (inl e)])
  ∨ (∃ img r1 ran r2,
       log w' = log w
                ++ [EvTempFile tempdir "stacker-squashfs-img-" (inr img);
                    EvRemove img r1;
                    EvExec ["mksquashfs"; rootfs; img] ran;
                    EvRemove img r2]
       ∧ ∀ err, ran = Some err →
                res = inl (Wrapped err "couldn't build squashfs")).
Proof.
  unfold MakeSquashfs. rewrite decide_False by (cbn; lia).
  intros Himg.
  apply (MakeSquashfs_image_trace E (λ _, [])) in Himg.
  - destruct Himg as [(e & r & Hl & _) | (img & r1 & ran & r2 & r & Hl & Hres)].
    + left. exists e. by rewrite app_nil_r in Hl.
    + right. exists img, r1, ran, r2. split; [|done].
      rewrite app_nil_r in Hl. by rewrite decide_False in Hl by (cbn; lia).
  - intros w0. exists None. by rewrite app_nil_r.
Qed.

Lemma MakeSquashfs_without_excludes_witness :
  MakeSquashfs example_privileged "/oci" "/b/rootfs" None example_world
  = (example_squashfs_plain.1, example_squashfs_plain.2)
  ∧ ((∃ e, log example_squashfs_plain.2
           = log example_world
             ++ [EvTempFile "/oci" "stacker-squashfs-img-" (inl e)])
     ∨ (∃ img r1 ran r2,
          log example_squashfs_plain.2
          = log example_world
            ++ [EvTempFile "/oci" "stacker-squashfs-img-" (inr img);
                EvRemove img r1;
                EvExec ["mksquashfs"; "/b/rootfs"; img] ran;
                EvRemove img r2]
          ∧ ∀ err, ran = Some err →
                   example_squashfs_plain.1
                   = inl (Wrapped err "couldn't build squashfs"))).
Proof.
  assert (H : MakeSquashfs example_privileged "/oci" "/b/rootfs" None
                example_world
              = (example_squashfs_plain.1, example_squashfs_plain.2))
    by apply surjective_pairing.
  split; [exact H|].
  exact (MakeSquashfs_without_excludes example_privileged "/oci" "/b/rootfs"
           example_world _ _ H).
Defined.

(** ** GenerateSquashfsLayer: what a call does to the world *)

Section layer_trace.
Context (E : Deps).

Lemma whiteout_event_mono ms ms' evs :
  ms ⊆ ms' → Forall (whiteout_event ms) evs → Forall (whiteout_event ms') evs.
Proof.
  intros Hsub Hevs. eapply Forall_impl; [exact Hevs|].
  intros [] Hev; cbn in *; try done. by apply Hsub.
Qed.

Lemma layer_event_mono ocidir mtreePath evs evs' l :
  evs ⊆ evs' →
  Forall (layer_event ocidir mtreePath evs) l →
  Forall (layer_event ocidir mtreePath evs') l.
Proof.
  intros Hsub Hl. eapply Forall_impl; [exact Hl|].
  intros [] Hev; cbn in *; try done.
  destruct Hev as [->|[pattern Hin]]; [by left|].
  right. exists pattern. by apply Hsub.
Qed.

Lemma diff_step_trace fuel rootfsPath d st w res st' w' :
  diff_step E fuel rootfsPath d st w = (res, st', w') →
  ∃ evs ms,
    log w' = log w ++ evs ∧ missing st' = missing st ++ ms
    ∧ ms ⊆ missing_paths rootfsPath [d]
    ∧ Forall (whiteout_event ms) evs
    ∧ store w' = store w ∧ metas w' = metas w.
Proof.
  unfold diff_step. cbn [missing_paths]. destruct (Type_ d).
  - destruct (AddInclude _ _ _ _).
    2: { intros [= <- <- <-]. exists [], [Join [rootfsPath; Path d]].
         rewrite app_nil_r. by split_and!. }
    destruct (unix_Mknod E _ _ _ w) as [[errno|] w1] eqn:Hmk;
      apply unix_Mknod_spec in Hmk as (Hl & Hm & Hs & _).
    + destruct (negb _ && negb _).
      * destruct (os_Create E _ w1) as [[err|] w2] eqn:Hcr;
          apply os_Create_spec in Hcr as (en & _ & Hl2 & Hm2 & Hs2 & _);
          intros [= <- <- <-];
          eexists; exists [Join [rootfsPath; Path d]];
          (split_and!;
           [rewrite Hl2, Hl, <- app_assoc; reflexivity | done | done
           | apply Forall_cons_2; [apply list_elem_of_here|];
             by apply Forall_cons_2
           | congruence | congruence]).
      * intros [= <- <- <-]. eexists; exists [Join [rootfsPath; Path d]].
        split_and!; [exact Hl | done | done | | done | done].
        apply Forall_cons_2; [apply list_elem_of_here | done].
    + intros [= <- <- <-]. eexists; exists [Join [rootfsPath; Path d]].
      split_and!; [exact Hl | done | done | | done | done].
      apply Forall_cons_2; [apply list_elem_of_here | done].
  - destruct (AddInclude _ _ _ _); intros [= <- <- <-]; exists [], [];
      rewrite !app_nil_r; by split_and!.
  - destruct (AddInclude _ _ _ _); intros [= <- <- <-]; exists [], [];
      rewrite !app_nil_r; by split_and!.
  - intros [= <- <- <-]. exists [], []. rewrite !app_nil_r. by split_and!.
  - intros [= <- <- <-]. exists [], []. rewrite !app_nil_r. by split_and!.
Qed.

Lemma missing_paths_app rootfsPath pre post :
  missing_paths rootfsPath (pre ++ post)
  = missing_paths rootfsPath pre ++ missing_paths rootfsPath post.
Proof.
  induction pre as [|d pre IH]; [done|]. cbn [app missing_paths].
  rewrite IH. by destruct (Type_ d).
Qed.

Lemma diff_loop_trace fuel rootfsPath diffs : ∀ st w res st' w',
  diff_loop E fuel rootfsPath diffs st w = (res, st', w') →
  ∃ evs ms,
    log w' = log w ++ evs ∧ missing st' = missing st ++ ms
    ∧ ms ⊆ missing_paths rootfsPath diffs
    ∧ Forall (whiteout_event ms) evs
    ∧ store w' = store w ∧ metas w' = metas w.
Proof.
  induction diffs as [|d diffs IH]; intros st w res st' w'.
  - intros [= <- <- <-]. exists [], []. rewrite !app_nil_r. by split_and!.
  - cbn [diff_loop].
    destruct (diff_step E fuel rootfsPath d st w) as [[r1 st1] w1] eqn:Hstep.
    apply diff_step_trace in Hstep
      as (evs1 & ms1 & Hl1 & Hm1 & Hsub1 & Hev1 & Hs1 & Hme1).
    change (d :: diffs) with ([d] ++ diffs).
    rewrite (missing_paths_app rootfsPath [d] diffs).
    destruct r1 as [[]| | |].
    2,3,4: intros [= <- <- <-]; exists evs1, ms1;
      (split_and!; [done | done | | done | done | done]);
      intros x Hx; apply elem_of_app; left; by apply Hsub1.
    intros (evs2 & ms2 & Hl2 & Hm2 & Hsub2 & Hev2 & Hs2 & Hme2)%IH.
    exists (evs1 ++ evs2), (ms1 ++ ms2). split_and!.
    + by rewrite Hl2, Hl1, <- app_assoc.
    + by rewrite Hm2, Hm1, <- app_assoc.
    + intros x [Hx|Hx]%elem_of_app; apply elem_of_app;
        [left; by apply Hsub1 | right; by apply Hsub2].
    + apply Forall_app. split.
      * eapply whiteout_event_mono; [|exact Hev1].
        intros x Hx. apply elem_of_app. by left.
      * eapply whiteout_event_mono; [|exact Hev2].
        intros x Hx. apply elem_of_app. by right.
    + congruence.
    + congruence.
Qed.

Lemma remove_missing_trace ms : ∀ w,
  ∃ rs, log (remove_missing E ms w) = log w ++ zip_with EvRemove ms rs
        ∧ length rs = length ms.
Proof.
  induction ms as [|p ms IH]; intros w.
  - exists []. by rewrite app_nil_r.
  - unfold remove_missing in *. cbn [fold_left].
    destruct (os_Remove E p w) as [x w1] eqn:Hrm.
    change ((x, w1).2) with w1.
    apply os_Remove_event in Hrm as (r & Hl).
    destruct (IH w1) as (rs & Hrs & Hlen).
    exists (r :: rs). cbn [zip_with length].
    split; [|by rewrite Hlen]. by rewrite Hrs, Hl, <- app_assoc.
Qed.

Lemma MakeSquashfs_layer_events ocidir mtreePath rootfs eps w res w' :
  MakeSquashfs E ocidir rootfs (Some eps) w = (res, w') →
  ∃ sq, log w' = log w ++ sq
        ∧ ∀ tail, Forall (layer_event ocidir mtreePath (sq ++ tail)) sq.
Proof.
  intros Hsq. apply MakeSquashfs_events in Hsq.
  destruct Hsq as [(e & Hl & _)
                  |[(x & e & r & Hl & _)
                  |[(x & e & r & Hl & _)
                  |(x & img & r1 & ran & r2 & r & Hl & _)]]];
    eexists; (split; [exact Hl|]); intros tail;
    repeat first [apply Forall_nil_2 | apply Forall_cons_2];
    cbn [layer_event]; try done;
    right; eexists; apply elem_of_app; left;
    apply list_elem_of_In; cbn; eauto 10.
Qed.

Lemma write_layer_returns name bundlepath ocidir meta mtreePath rootfsPath eps
    w res w' :
  write_layer E name bundlepath ocidir meta mtreePath rootfsPath eps w
  = (res, w') →
  res ≠ Diverge.
Proof.
  unfold write_layer.
  destruct (MakeSquashfs E ocidir rootfsPath (Some eps) w) as [[e|tmp] w1];
    [by intros [= <- _]|].
  destruct (AddBlobNoCompression E name tmp w1) as [[e|desc] w2];
    [by intros [= <- _]|].
  destruct (GenerateBundleManifest E _ bundlepath w2) as [[e|] w3];
    [by intros [= <- _]|].
  destruct (WriteBundleMeta E bundlepath _ _) as [[e|] w5];
    by intros [= <- _].
Qed.

Lemma write_layer_trace name bundlepath ocidir meta mtreePath rootfsPath eps
    w res w' :
  write_layer E name bundlepath ocidir meta mtreePath rootfsPath eps w
  = (res, w') →
  ∃ evs, log w' = log w ++ evs
         ∧ Forall (layer_event ocidir mtreePath evs) evs.
Proof.
  unfold write_layer.
  destruct (MakeSquashfs E ocidir rootfsPath (Some eps) w)
    as [[e|tmp] w1] eqn:Hsq;
    apply (MakeSquashfs_layer_events ocidir mtreePath) in Hsq
      as (sq & Hl1 & Hsq).
  { intros [= <- <-]. exists sq. split; [done|].
    specialize (Hsq []). by rewrite app_nil_r in Hsq. }
  unfold AddBlobNoCompression.
  destruct (add_blob_result E w1 name tmp) as [e|desc].
  { intros [= <- <-]. exists sq. split; [done|].
    specialize (Hsq []). by rewrite app_nil_r in Hsq. }
  unfold GenerateBundleManifest.
  destruct (manifest_result E _ _ bundlepath) as [e|text].
  { intros [= <- <-]. exists sq. split; [done|].
    specialize (Hsq []). by rewrite app_nil_r in Hsq. }
  destruct (os_Remove E mtreePath _) as [x w4] eqn:Hrm.
  cbv beta iota zeta delta [fst snd].
  apply os_Remove_event in Hrm as (r & Hl4). cbn [log log_event set_files
    set_store] in Hl4.
  unfold WriteBundleMeta.
  destruct (write_meta_error E w4 bundlepath _);
    intros [= <- <-]; eexists;
    (split; [cbn [log set_metas]; rewrite Hl4, Hl1, <- !app_assoc;
             reflexivity|]);
    (apply Forall_app; split; [apply Hsq|]);
    (apply Forall_cons_2; [done|]);
    (apply Forall_cons_2; [by left | done]).
Qed.

Lemma write_layer_db name bundlepath ocidir meta mtreePath rootfsPath eps
    w res w' :
  write_layer E name bundlepath ocidir meta mtreePath rootfsPath eps w
  = (res, w') →
  (res ≠ Ok () → metas w' = metas w)
  ∧ (∀ b, b ≠ bundlepath → metas w' !! b = metas w !! b)
  ∧ (store w' = store w ∨ ∃ blob, store w' = store w ++ [(name, blob)]).
Proof.
  unfold write_layer.
  destruct (MakeSquashfs E ocidir rootfsPath (Some eps) w)
    as [[e|tmp] w1] eqn:Hsq; apply MakeSquashfs_db in Hsq as [Hs1 Hm1].
  { intros [= <- <-]. rewrite Hs1, Hm1. split_and!; auto. }
  unfold AddBlobNoCompression.
  destruct (add_blob_result E w1 name tmp) as [e|desc].
  { intros [= <- <-]. rewrite Hs1, Hm1. split_and!; auto. }
  unfold GenerateBundleManifest.
  destruct (manifest_result E _ _ bundlepath) as [e|text].
  { intros [= <- <-]. cbn. rewrite Hs1, Hm1. split_and!; eauto. }
  destruct (os_Remove E mtreePath _) as [x w4] eqn:Hrm.
  cbv beta iota zeta delta [fst snd].
  apply os_Remove_spec in Hrm as (Hs4 & Hm4 & _).
  cbn in Hs4, Hm4. unfold WriteBundleMeta.
  destruct (write_meta_error E w4 bundlepath _); intros [= <- <-]; cbn;
    rewrite ?Hs4, ?Hm4, Hs1, ?Hm1; split_and!; eauto.
  - done.
  - intros b Hb. by rewrite lookup_insert_ne.
Qed.

Lemma GenerateSquashfsLayer_events fuel name author bundlepath ocidir w
    meta mtreePath rootfsPath diffs :
  read_diffs E bundlepath w = Ok (meta, mtreePath, rootfsPath, diffs) →
  ∃ loop_evs layer_evs ms removes,
    log (GenerateSquashfsLayer E fuel name author bundlepath ocidir w).2
    = log w ++ loop_evs ++ layer_evs ++ removes
    ∧ ms ⊆ missing_paths rootfsPath diffs
    ∧ Forall (whiteout_event ms) loop_evs
    ∧ Forall (layer_event ocidir mtreePath layer_evs) layer_evs
    ∧ ((GenerateSquashfsLayer E fuel name author bundlepath ocidir w).1
       = Diverge ∧ removes = []
       ∨ (GenerateSquashfsLayer E fuel name author bundlepath ocidir w).1
         ≠ Diverge
         ∧ ∃ rs, removes = zip_with EvRemove ms rs ∧ length rs = length ms).
Proof.
  intros Hread. unfold GenerateSquashfsLayer. rewrite Hread.
  destruct (diff_loop E fuel rootfsPath diffs _ w) as [[looped st] w1]
    eqn:Hloop.
  apply diff_loop_trace in Hloop
    as (loop_evs & ms & Hl1 & Hms & Hsub & Hev & _).
  cbn [missing app] in Hms.
  destruct looped as [[]|e|msg|].
  - assert (∃ layer_evs res w2,
              (if negb (needsLayer st) then (Ok (), w1)
               else write_layer E name bundlepath ocidir meta mtreePath
                      rootfsPath (paths st) w1) = (res, w2)
              ∧ res ≠ Diverge
              ∧ log w2 = log w1 ++ layer_evs
              ∧ Forall (layer_event ocidir mtreePath layer_evs) layer_evs)
      as (layer_evs & res & w2 & -> & Hres & Hl2 & Hlay).
    { destruct (negb (needsLayer st)).
      { eexists [], _, _. split; [done|]. split; [done|].
        by rewrite app_nil_r. }
      destruct (write_layer _ _ _ _ _ _ _ _ w1) as [res w2] eqn:Hwl.
      pose proof (write_layer_returns _ _ _ _ _ _ _ _ _ _ Hwl) as Hres.
      apply write_layer_trace in Hwl as (evs & Hl & Hevs).
      by exists evs, res, w2. }
    cbn [fst snd].
    destruct (remove_missing_trace (missing st) w2) as (rs & Hl3 & Hlen).
    exists loop_evs, layer_evs, ms, (zip_with EvRemove ms rs).
    rewrite Hms in *. split_and!; try done.
    + by rewrite Hl3, Hl2, Hl1, <- !app_assoc.
    + right. split; [done|]. by exists rs.
  - cbn [fst snd].
    destruct (remove_missing_trace (missing st) w1) as (rs & Hl3 & Hlen).
    exists loop_evs, [], ms, (zip_with EvRemove ms rs).
    rewrite Hms in *. split_and!; try done.
    + by rewrite Hl3, Hl1, <- !app_assoc.
    + right. split; [done|]. by exists rs.
  - cbn [fst snd].
    destruct (remove_missing_trace (missing st) w1) as (rs & Hl3 & Hlen).
    exists loop_evs, [], ms, (zip_with EvRemove ms rs).
    rewrite Hms in *. split_and!; try done.
    + by rewrite Hl3, Hl1, <- !app_assoc.
    + right. split; [done|]. by exists rs.
  - cbn [fst snd]. exists loop_evs, [], ms, [].
    split_and!; try done.
    + by rewrite Hl1, !app_nil_r.
    + by left.
Qed.

End layer_trace.

Section layer_relative.
Context (E : Deps).

Lemma elem_of_zip_with_EvRemove p r ms : ∀ rs,
  EvRemove p r ∈ zip_with EvRemove ms rs → p ∈ ms.
Proof.
  induction ms as [|m ms IH]; intros [|r0 rs]; cbn [zip_with];
    try by intros ?%elem_of_nil.
  intros [[= -> _]|Hin]%elem_of_cons; [apply list_elem_of_here|].
  apply list_elem_of_further. by eapply IH.
Qed.

Lemma IsAbs_app a rest : a ≠ "" → IsAbs (a +:+ rest) = IsAbs a.
Proof. by destruct a. Qed.

Lemma Join_relative a rest :
  IsAbs a = false → a ≠ "" → IsAbs (Join (a :: rest)) = false.
Proof.
  intros Hrel Hne. unfold Join. cbn [drop_empty].
  rewrite decide_False by done. apply Clean_stays_relative.
  destruct rest as [|b rest]; [done|].
  rewrite JoinSlash_cons by done. by rewrite IsAbs_app.
Qed.

Lemma rootfs_relative bundlepath :
  IsAbs bundlepath = false →
  IsAbs (Join [bundlepath; "rootfs"]) = false
  ∧ Join [bundlepath; "rootfs"] ≠ "".
Proof.
  intros Hrel. split; [|by apply Join_name_nonempty].
  destruct (decide (bundlepath = "")) as [->|Hne]; [done|].
  by apply Join_relative.
Qed.

Lemma AddInclude_no_return fuel eps orig isDir :
  IsAbs orig = false → AddInclude fuel eps orig isDir = None.
Proof.
  intros Hrel. unfold AddInclude. rewrite delete_parents_relative; [done|].
  destruct isDir; [done | by apply Dir_stays_relative].
Qed.

Lemma diff_loop_relative fuel rootfsPath diffs :
  IsAbs rootfsPath = false → rootfsPath ≠ "" →
  existsb changes diffs = true →
  ∀ st w, ∃ st' w',
    diff_loop E fuel rootfsPath diffs st w = (Diverge, st', w').
Proof.
  intros Hrel Hne. induction diffs as [|d diffs IH]; [done|].
  cbn [existsb diff_loop]. unfold changes at 1, diff_step.
  pose proof (Join_relative rootfsPath [Path d] Hrel Hne) as Hp.
  intros Hch st w.
  destruct (Type_ d); rewrite ?AddInclude_no_return by done; eauto.
Qed.
End layer_relative.



(** What a call of [GenerateSquashfsLayer] removes is the host path of a
    Missing diff, the prior manifest, or a temp file it has made under
    [ocidir]: it calls [os.Remove] on nothing else. *)
Theorem removes_only_whiteouts_manifest_and_temp_files (E : Deps)
    (fuel : nat) (name author bundlepath ocidir : string) (w : World)
    (meta : Meta) (mtreePath rootfsPath : string) (diffs : list InodeDelta) :
  read_diffs E bundlepath w = Ok (meta, mtreePath, rootfsPath, diffs) →
  ∃ evs,
    log (GenerateSquashfsLayer E fuel name author bundlepath ocidir w).2
    = log w ++ evs
    ∧ ∀ p r, EvRemove p r ∈ evs →
             p ∈ missing_paths rootfsPath diffs
             ∨ p = mtreePath
             ∨ ∃ pattern, EvTempFile ocidir pattern (inr p) ∈ evs.
Proof.
  intros Hread.
  destruct (GenerateSquashfsLayer_events E fuel name author bundlepath ocidir
              w _ _ _ _ Hread)
    as (loop_evs & layer_evs & ms & removes & Hl & Hsub & Hloop & Hlay & Hrm).
  exists (loop_evs ++ layer_evs ++ removes).
  split; [done|].
  intros p r [Hin|[Hin|Hin]%elem_of_app]%elem_of_app.
  - rewrite Forall_forall in Hloop. destruct (Hloop _ Hin).
  - rewrite Forall_forall in Hlay.
    destruct (Hlay _ Hin) as [->|[pattern Hp]]; [by right; left|].
    right. right. exists pattern.
    apply elem_of_app. right. apply elem_of_app. by left.
  - left. apply Hsub.
    destruct Hrm as [[_ ->]|(_ & rs & -> & _)];
      [by apply elem_of_nil in Hin|].
    by eapply elem_of_zip_with_EvRemove.
Qed.

Lemma removes_only_whiteouts_manifest_and_temp_files_witness :
  read_diffs example_privileged "/b" example_world
  = Ok (mkMeta "2" (mkDescriptorPath [example_descriptor]),
        "/b/sha256_aaaa.mtree", "/b/rootfs", [same_etc; missing_hosts])
  ∧ ∃ evs,
      log (GenerateSquashfsLayer example_privileged 19 "img" "me" "/b" "/oci"
             example_world).2
      = log example_world ++ evs
      ∧ ∀ p r, EvRemove p r ∈ evs →
               p ∈ missing_paths "/b/rootfs" [same_etc; missing_hosts]
               ∨ p = "/b/sha256_aaaa.mtree"
               ∨ ∃ pattern, EvTempFile "/oci" pattern (inr p) ∈ evs.
Proof.
  assert (H : read_diffs example_privileged "/b" example_world
              = Ok (mkMeta "2" (mkDescriptorPath [example_descriptor]),
                    "/b/sha256_aaaa.mtree", "/b/rootfs",
                    [same_etc; missing_hosts]))
    by (vm_compute; reflexivity).
  split; [exact H|].
  exact (removes_only_whiteouts_manifest_and_temp_files example_privileged 19
           "img" "me" "/b" "/oci" example_world _ _ _ _ H).
Defined.

(** A call of [GenerateSquashfsLayer] that does not succeed leaves the
    bundle's meta as it was; no call touches the meta of another bundle;
    and the content store is as before or has the one new blob, which a
    later failure does not take back. *)
Theorem failed_call_keeps_bundle_meta (E : Deps) (fuel : nat)
    (name author bundlepath ocidir : string) (w : World) :
  ((GenerateSquashfsLayer E fuel name author bundlepath ocidir w).1 ≠ Ok () →
   metas (GenerateSquashfsLayer E fuel name author bundlepath ocidir w).2
   = metas w)
  ∧ (∀ b, b ≠ bundlepath →
          metas (GenerateSquashfsLayer E fuel name author bundlepath ocidir
                   w).2 !! b = metas w !! b)
  ∧ (store (GenerateSquashfsLayer E fuel name author bundlepath ocidir w).2
     = store w
     ∨ ∃ blob,
         store (GenerateSquashfsLayer E fuel name author bundlepath ocidir
                  w).2 = store w ++ [(name, blob)]).
Proof.
  unfold GenerateSquashfsLayer.
  destruct (read_diffs E bundlepath w) as [[[[meta mtreePath] rootfsPath] diffs]
                                          | | |]; cbn [fst snd]; auto.
  destruct (diff_loop E fuel rootfsPath diffs _ w) as [[looped st] w1]
    eqn:Hloop.
  apply diff_loop_trace in Hloop as (_ & _ & _ & _ & _ & _ & Hs1 & Hm1).
  destruct looped as [[]|e|msg|].
  - assert (∃ res w2,
              (if negb (needsLayer st) then (Ok (), w1)
               else write_layer E name bundlepath ocidir meta mtreePath
                      rootfsPath (paths st) w1) = (res, w2)
              ∧ (res ≠ Ok () → metas w2 = metas w1)
              ∧ (∀ b, b ≠ bundlepath → metas w2 !! b = metas w1 !! b)
              ∧ (store w2 = store w1
                 ∨ ∃ blob, store w2 = store w1 ++ [(name, blob)]))
      as (res & w2 & -> & Hm2 & Hb2 & Hs2).
    { destruct (negb (needsLayer st)).
      { eexists _, _. split; [done|]. auto. }
      destruct (write_layer _ _ _ _ _ _ _ _ w1) as [res w2] eqn:Hwl.
      apply write_layer_db in Hwl. by exists res, w2. }
    cbn [fst snd].
    destruct (remove_missing_spec E (missing st) w2) as (Hs3 & Hm3 & _).
    rewrite Hs3, Hm3, <- Hs1, <- Hm1. auto.
  - cbn [fst snd].
    destruct (remove_missing_spec E (missing st) w1) as (Hs3 & Hm3 & _).
    rewrite Hs3, Hm3, Hs1, Hm1. auto.
  - cbn [fst snd].
    destruct (remove_missing_spec E (missing st) w1) as (Hs3 & Hm3 & _).
    rewrite Hs3, Hm3, Hs1, Hm1. auto.
  - cbn [fst snd]. rewrite Hs1, Hm1. auto.
Qed.

(** On a bundle given by a relative path, a call of [GenerateSquashfsLayer]
    that finds a change never returns: the paths it includes are relative,
    and the loop of [AddInclude] does not end on them, whatever the
    iteration count. *)
Theorem relative_bundle_path_diverges (E : Deps) (fuel : nat)
    (name author bundlepath ocidir : string) (w : World)
    (meta : Meta) (mtreePath rootfsPath : string) (diffs : list InodeDelta) :
  IsAbs bundlepath = false →
  read_diffs E bundlepath w = Ok (meta, mtreePath, rootfsPath, diffs) →
  existsb changes diffs = true →
  (GenerateSquashfsLayer E fuel name author bundlepath ocidir w).1 = Diverge.
Proof.
  intros Hrel Hread Hch.
  pose proof Hread as Hman. eapply read_diffs_manifest in Hman.
  destruct Hman as (_ & _ & -> & _).
  destruct (rootfs_relative bundlepath Hrel) as [Hrootfs Hne].
  unfold GenerateSquashfsLayer. rewrite Hread.
  destruct (diff_loop_relative E fuel _ diffs Hrootfs Hne Hch
              (mkLoopState NewExcludePaths [] false) w) as (st' & w' & ->).
  done.
Qed.

Lemma relative_bundle_path_diverges_witness :
  IsAbs "b" = false
  ∧ read_diffs example_privileged "b" example_relative_world
    = Ok (mkMeta "2" (mkDescriptorPath [example_descriptor]),
          "b/sha256_aaaa.mtree", "b/rootfs", [same_etc; missing_hosts])
  ∧ existsb changes [same_etc; missing_hosts] = true
  ∧ (GenerateSquashfsLayer example_privileged 1000 "img" "me" "b" "/oci"
       example_relative_world).1 = Diverge.
Proof.
  assert (H : read_diffs example_privileged "b" example_relative_world
              = Ok (mkMeta "2" (mkDescriptorPath [example_descriptor]),
                    "b/sha256_aaaa.mtree", "b/rootfs",
                    [same_etc; missing_hosts]))
    by (vm_compute; reflexivity).
  split; [reflexivity|]. split; [exact H|]. split; [reflexivity|].
  exact (relative_bundle_path_diverges example_privileged 1000 "img" "me" "b"
           "/oci" example_relative_world _ _ _ _ eq_refl H eq_refl).
Defined.

(** ** The manifest's file name *)

Section mtree_names.
Lemma ReplaceByte_first a b old new :
  ContainsByte a old = false →
  ReplaceByte (a +:+ String old b) old new 1 = a +:+ new +:+ b.
Proof.
  intros Ha. induction a as [|c a IH]; cbn in *.
  - rewrite decide_True by done. by destruct b.
  - destruct (decide (c = old)); [done|]. by rewrite IH.
Qed.

Lemma cut_point_unique a1 b1 a2 b2 c :
  ContainsByte a1 c = false → ContainsByte a2 c = false →
  a1 +:+ String c b1 = a2 +:+ String c b2 → a1 = a2 ∧ b1 = b2.
Proof.
  revert a2. induction a1 as [|x a1 IH]; intros [|y a2]; cbn.
  - by intros _ _ [= ->].
  - intros _ Hy [= <- _]. by rewrite decide_True in Hy.
  - intros Hx _ [= -> _]. by rewrite decide_True in Hx.
  - intros Hx Hy [= -> Heq].
    destruct (decide (y = c)); [done|].
    destruct (IH a2 Hx Hy Heq) as [-> ->]. done.
Qed.
End mtree_names.

(** The manifest of a digest [algorithm:hex], for an algorithm name that
    holds no colon, is named [algorithm_hex]: only the first colon is
    replaced.  Where the algorithm names hold no underscore either, two
    digests with the same manifest name are the same digest. *)
Theorem mtree_name_of_digest (algorithm hex : string) :
  ContainsByte algorithm ":" = false →
  mtree_name (algorithm +:+ ":" +:+ hex) = algorithm +:+ "_" +:+ hex
  ∧ ∀ algorithm' hex',
      ContainsByte algorithm "_" = false →
      ContainsByte algorithm' ":" = false →
      ContainsByte algorithm' "_" = false →
      mtree_name (algorithm +:+ ":" +:+ hex)
      = mtree_name (algorithm' +:+ ":" +:+ hex') →
      algorithm = algorithm' ∧ hex = hex'.
Proof.
  intros Hc. unfold mtree_name.
  change (":" +:+ hex) with (String ":" hex).
  rewrite ReplaceByte_first by done. split; [done|].
  intros algorithm' hex' Hu Hc' Hu'.
  change (":" +:+ hex') with (String ":" hex').
  rewrite ReplaceByte_first by done.
  change ("_" +:+ hex) with (String "_" hex).
  change ("_" +:+ hex') with (String "_" hex').
  by apply cut_point_unique.
Qed.

Lemma mtree_name_of_digest_witness :
  ContainsByte "sha256" ":" = false
  ∧ mtree_name ("sha256" +:+ ":" +:+ "aa:bb") = "sha256" +:+ "_" +:+ "aa:bb"
  ∧ ∀ algorithm' hex',
      ContainsByte "sha256" "_" = false →
      ContainsByte algorithm' ":" = false →
      ContainsByte algorithm' "_" = false →
      mtree_name ("sha256" +:+ ":" +:+ "aa:bb")
      = mtree_name (algorithm' +:+ ":" +:+ hex') →
      "sha256" = algorithm' ∧ "aa:bb" = hex'.
Proof.
  split; [reflexivity|].
  exact (mtree_name_of_digest "sha256" "aa:bb" eq_refl).
Defined.

(** ** cmd/grab.go *)

Section grab.
Lemma cut_none s sep : ContainsByte s sep = false → cut s sep = None.
Proof.
  induction s as [|c s IH]; [done|]. cbn.
  destruct (decide (c = sep)); [done|]. by intros ->%IH.
Qed.

Lemma cut_first a b sep :
  ContainsByte a sep = false → cut (a +:+ String sep b) sep = Some (a, b).
Proof.
  induction a as [|c a IH]; cbn.
  - by rewrite decide_True.
  - destruct (decide (c = sep)); [done|]. by intros ->%IH.
Qed.

Lemma cut_some s sep a b :
  cut s sep = Some (a, b) →
  s = a +:+ String sep b ∧ ContainsByte a sep = false.
Proof.
  revert a. induction s as [|c s IH]; intros a; [done|]. cbn.
  destruct (decide (c = sep)) as [->|Hc]; [by intros [= <- <-]|].
  destruct (cut s sep) as [[a' b']|]; [|done].
  intros [= <- <-]. destruct (IH a' eq_refl) as [-> Ha]. cbn.
  by rewrite decide_False.
Qed.
End grab.

(** [strings.SplitN(s, ":", 2)] has two parts exactly when [s] holds a
    colon, and then cuts [s] at its first colon: the first part holds no
    colon, the second is all that follows, later colons included. *)
Theorem SplitN_cuts_at_first_separator (s tag path : string) (sep : ascii) :
  SplitN s sep 2 = [tag; path]
  ↔ s = tag +:+ String sep path ∧ ContainsByte tag sep = false.
Proof.
  cbn [SplitN]. split.
  - destruct (cut s sep) as [[a b]|] eqn:Hcut; [|done].
    intros [= <- <-]. by apply cut_some.
  - intros [-> Htag]. by rewrite cut_first.
Qed.

(** Without a colon in its first argument (or without an argument),
    [doGrab] fails with ["invalid grab argument"], having restored nothing;
    the storage it has opened is detached. *)
Theorem doGrab_argument_without_colon {St : Type} `{!Stacker St}
    (args : list string) (st st1 : St) :
  ContainsByte (First args) ":" = false →
  NewStorage st = (None, st1) →
  doGrab args st
  = (Some (Errorf ("invalid grab argument: " +:+ First args)),
     Storage_Detach st1).
Proof.
  intros Hcolon Hnew. unfold doGrab. rewrite Hnew. cbn [SplitN].
  by rewrite cut_none.
Qed.

Lemma doGrab_argument_without_colon_witness :
  ContainsByte (First ["image"]) ":" = false
  ∧ NewStorage ([] : list (list string)) = (None, [["NewStorage"]])
  ∧ doGrab ["image"] ([] : list (list string))
    = (Some (Errorf ("invalid grab argument: " +:+ First ["image"])),
       Storage_Detach [["NewStorage"]]).
Proof.
  split; [reflexivity|]. split; [reflexivity|].
  exact (doGrab_argument_without_colon ["image"] [] [["NewStorage"]]
           eq_refl eq_refl).
Defined.

(** On an argument [tag:path], [doGrab] restores [tag] into the working
    container and grabs [path] from it, colons of [path] included.  The
    deferred calls run last-in first-out: the working container is deleted
    before the storage is detached, and is not deleted when the restore has
    failed. *)
Theorem doGrab_tag_and_path {St : Type} `{!Stacker St}
    (tag path : string) (rest : list string) (st st1 : St) :
  ContainsByte tag ":" = false →
  NewStorage st = (None, st1) →
  doGrab ((tag +:+ ":" +:+ path) :: rest) st
  = match Storage_Restore tag WorkingContainerName st1 with
    | (Some err, st2) => (Some err, Storage_Detach st2)
    | (None, st2) =>
        ((stacker_Grab tag path st2).1,
         Storage_Detach
           (Storage_Delete WorkingContainerName (stacker_Grab tag path st2).2))
    end.
Proof.
  intros Htag Hnew. unfold doGrab. rewrite Hnew.
  change (First ((tag +:+ ":" +:+ path) :: rest))
    with (tag +:+ String ":" path).
  cbn [SplitN].
  rewrite cut_first by done.
  destruct (Storage_Restore tag WorkingContainerName st1) as [[err|] st2];
    [done|].
  by destruct (stacker_Grab tag path st2).
Qed.

Lemma doGrab_tag_and_path_witness :
  ContainsByte "image" ":" = false
  ∧ NewStorage ([] : list (list string)) = (None, [["NewStorage"]])
  ∧ doGrab [("image" +:+ ":" +:+ "/etc/a:b")] ([] : list (list string))
    = (None,
       [["NewStorage"]; ["Restore"; "image"; "_working"];
        ["Grab"; "image"; "/etc/a:b"]; ["Delete"; "_working"]; ["Detach"]]).
Proof.
  split; [reflexivity|]. split; [reflexivity|].
  exact (doGrab_tag_and_path "image" "/etc/a:b" [] [] [["NewStorage"]]
           eq_refl eq_refl).
Defined.

(** ** The loop writes to the rootfs for Missing diffs only *)

Section loop_frame.
Context (E : Deps).

Lemma diff_step_frame fuel rootfsPath d st w res st' w' :
  Type_ d ≠ Missing →
  diff_step E fuel rootfsPath d st w = (res, st', w') →
  w' = w ∧ missing st' = missing st.
Proof.
  intros Hd. unfold diff_step. destruct (Type_ d); [done| | | |];
    try destruct (AddInclude _ _ _ _); by intros [= <- <- <-].
Qed.

End loop_frame.

(** Modified, Extra and Same diffs only update the exclude paths: a loop
    over diffs none of which is Missing makes no system call and leaves the
    world and the list of paths to clean up as they were, however it
    ends. *)
Theorem loop_acts_on_missing_only (E : Deps) (fuel : nat)
    (rootfsPath : string) (diffs : list InodeDelta) (st st' : LoopState)
    (w w' : World) (res : result unit) :
  Forall (λ d, Type_ d ≠ Missing) diffs →
  diff_loop E fuel rootfsPath diffs st w = (res, st', w') →
  w' = w ∧ missing st' = missing st.
Proof.
  revert st w. induction diffs as [|d diffs IH]; intros st w Hall.
  - by intros [= <- <- <-].
  - inversion Hall as [|? ? Hd Hrest]; subst. cbn [diff_loop].
    destruct (diff_step E fuel rootfsPath d st w) as [[r1 st1] w1] eqn:Hstep.
    apply diff_step_frame in Hstep as [-> Hm]; [|done].
    destruct r1 as [[]| | |]; try by intros [= <- <- <-].
    intros [-> Hm']%IH; [|done]. split; [done | congruence].
Qed.

Lemma loop_acts_on_missing_only_witness :
  Forall (λ d, Type_ d ≠ Missing) [same_etc; modified_passwd]
  ∧ diff_loop example_privileged 19 "/b/rootfs" [same_etc; modified_passwd]
      example_start example_world
    = (Ok (),
       mkLoopState
         {| exclude := ∅; include := ["/b/rootfs/etc/passwd"] |} [] true,
       example_world)
  ∧ example_world = example_world
  ∧ missing (mkLoopState
               {| exclude := ∅; include := ["/b/rootfs/etc/passwd"] |} []
               true)
    = missing example_start.
Proof.
  assert (H1 : Forall (λ d, Type_ d ≠ Missing) [same_etc; modified_passwd])
    by (repeat constructor; discriminate).
  assert (H2 : diff_loop example_privileged 19 "/b/rootfs"
                 [same_etc; modified_passwd] example_start example_world
               = (Ok (),
                  mkLoopState
                    {| exclude := ∅;
                       include := ["/b/rootfs/etc/passwd"] |} [] true,
                  example_world))
    by (vm_compute; reflexivity).
  split; [exact H1|]. split; [exact H2|].
  exact (loop_acts_on_missing_only example_privileged 19 "/b/rootfs"
           [same_etc; modified_passwd] example_start _ example_world _ _
           H1 H2).
Defined.
